(** * The energy game: a shallow embedding of the [Game] controller

    The repository drives a four-sensor, two-button "energy game" from a
    Raspberry Pi.  Two files carry the game logic: [gamepi.py] and
    [moonshot.py] (the latter bundles the Tk display).  Both define a class
    [Game] whose methods poll the hardware, keep a score and a bounded
    state of charge, and command LEDs, a wind turbine and a display.

    The embedding keeps the shape of the Python code:
    - the attributes of a [Game] object are a record;
    - every method is a computation in a small state-and-error monad [M];
    - the hardware is an environment of input tapes, one per kind of read
      (each [read_sensor], [read_button], [time.time] and [random.randint]
      call consumes the next answer), and a log of the commands issued;
    - [time.time()] values are rationals (seconds).  The differences the
      code takes are between nearby clock readings or against [0.0], where
      binary floating-point subtraction is exact, so rational arithmetic
      decides the same comparisons;
    - the mutually tail-calling methods [idle], [_start_new_round],
      [_play_round] and [_full_reset] are run by an explicit phase machine
      whose steps are the iterations of the two polling loops.  The Python
      call stack, which these calls deepen round after round, is not
      modelled. *)

From Stdlib Require Import ZArith QArith List Bool Lia Lqa.
From Stdlib Require Ascii String.
Import ListNotations.
Import String.StringSyntax.
Delimit Scope string_scope with string.

Open Scope Z_scope.

(** ** Data *)

Inductive Button : Set := charge | discharge.

(** The colour strings handed to [set_led]: the two values of [LED_COLOR]
    and the ["off"] used when darkening. *)
Inductive Color : Set := red | green | off.

(** Commands to the hardware abstraction layer, in the order issued. *)
Inductive Output : Set :=
| SetLed (index : nat) (color : Color) (on : bool)
| SetButtonLed (name : Button) (on : bool)
| SetWindmill (on : bool)
| UpdateScoreDisplay (score : Z)
| UpdateSocDisplay (level : Z)
| Sleep (seconds : Q).

Inductive Exn : Set := IndexError | KeyError.

(** The attributes of a [Game] object. *)
Record Game : Set := mkGame {
  score          : Z;
  actions        : Z;
  soc            : Z;
  last_sensor    : option nat;
  last_action_ts : list Q;
  led_values     : list Z
}.

(** What the outside world will answer, read by read. *)
Record Env : Set := mkEnv {
  sensor_tape : list bool;   (* answers to read_sensor *)
  button_tape : list bool;   (* answers to read_button *)
  clock_tape  : list Q;      (* answers to time.time() *)
  random_tape : list bool    (* answers to random.randint(0, 1) *)
}.

Record World : Set := mkWorld {
  game : Game;
  env  : Env;
  out  : list Output
}.

(** ** The monad *)

Inductive Outcome (A : Type) : Type :=
| Done (a : A) (w : World)
| Starved             (* a read the run waits for is never answered *)
| Raised (e : Exn).

Arguments Done {A} a w.
Arguments Starved {A}.
Arguments Raised {A} e.

Definition M (A : Type) : Type := World -> Outcome A.

Definition ret {A} (a : A) : M A := fun w => Done a w.

Definition bind {A B} (m : M A) (k : A -> M B) : M B :=
  fun w =>
    match m w with
    | Done a w' => k a w'
    | Starved => Starved
    | Raised e => Raised e
    end.

Definition raise {A} (e : Exn) : M A := fun _ => Raised e.

Declare Scope monad_scope.
Delimit Scope monad_scope with monad.
Notation "x <- c1 ;; c2" := (bind c1 (fun x => c2))
  (at level 61, c1 at next level, right associativity) : monad_scope.
Notation "c1 ;; c2" := (bind c1 (fun _ => c2))
  (at level 61, right associativity) : monad_scope.
Open Scope monad_scope.

Definition gets {A} (f : Game -> A) : M A :=
  fun w => Done (f (game w)) w.

Definition modify (f : Game -> Game) : M unit :=
  fun w => Done tt (mkWorld (f (game w)) (env w) (out w)).

Definition emit (o : Output) : M unit :=
  fun w => Done tt (mkWorld (game w) (env w) (out w ++ [o])).

(** Sequence subscripting: [l[i]] raises IndexError out of range. *)
Definition getitem {A} (l : list A) (i : nat) : M A :=
  match nth_error l i with
  | Some a => ret a
  | None => raise IndexError
  end.

(** [l[i] = x] on a list; the caller has checked the range. *)
Fixpoint setitem {A} (l : list A) (i : nat) (x : A) : list A :=
  match l, i with
  | [], _ => []
  | _ :: t, O => x :: t
  | h :: t, S j => h :: setitem t j x
  end.

(** ** Hardware abstraction layer

    The stubs at the top of both Python files.  Reads consume the
    environment; writes are logged. *)

Definition read_sensor (index : nat) : M bool :=
  fun w =>
    match sensor_tape (env w) with
    | b :: rest =>
        Done b (mkWorld (game w)
                  (mkEnv rest (button_tape (env w)) (clock_tape (env w))
                     (random_tape (env w)))
                  (out w))
    | [] => Starved
    end.

Definition read_button (name : Button) : M bool :=
  fun w =>
    match button_tape (env w) with
    | b :: rest =>
        Done b (mkWorld (game w)
                  (mkEnv (sensor_tape (env w)) rest (clock_tape (env w))
                     (random_tape (env w)))
                  (out w))
    | [] => Starved
    end.

Definition time_time : M Q :=
  fun w =>
    match clock_tape (env w) with
    | t :: rest =>
        Done t (mkWorld (game w)
                  (mkEnv (sensor_tape (env w)) (button_tape (env w)) rest
                     (random_tape (env w)))
                  (out w))
    | [] => Starved
    end.

(** [random.randint(0, 1)]: an integer that is 0 or 1. *)
Definition random_randint_0_1 : M Z :=
  fun w =>
    match random_tape (env w) with
    | b :: rest =>
        Done (Z.b2z b)
             (mkWorld (game w)
                (mkEnv (sensor_tape (env w)) (button_tape (env w))
                   (clock_tape (env w)) rest)
                (out w))
    | [] => Starved
    end.

Definition set_led (index : nat) (color : Color) (on : bool) : M unit :=
  emit (SetLed index color on).

Definition set_button_led (name : Button) (on : bool) : M unit :=
  emit (SetButtonLed name on).

Definition set_windmill (on : bool) : M unit := emit (SetWindmill on).

Definition update_score_display (s : Z) : M unit :=
  emit (UpdateScoreDisplay s).

Definition update_soc_display (level : Z) : M unit :=
  emit (UpdateSocDisplay level).

Definition time_sleep (seconds : Q) : M unit := emit (Sleep seconds).

(** [x < y] on clock differences. *)
Definition Qltb (x y : Q) : bool := negb (Qle_bool y x).

(** Control state of the phase machine: which polling loop is running
    and, while playing, the local [both_pressed_since] of [_play_round]. *)
Inductive Phase : Set :=
| Idle
| Playing (both_pressed_since : option Q).

(** How one iteration of the [_play_round] loop ends: it falls through to
    the next test of the loop condition, or it leaves through the
    [return] that follows [_full_reset]. *)
Inductive Flow : Set :=
| Next (both_pressed_since : option Q)
| Return.

(** Generic loops. *)

(** [for idx in range(n)] with the body run for idx = start, start+1, ... *)
Fixpoint for_range (start n : nat) (body : nat -> M unit) : M unit :=
  match n with
  | O => ret tt
  | S n' => body start ;; for_range (S start) n' body
  end.

(** A list comprehension over [range(n)] whose element ignores the index. *)
Fixpoint comprehension {A} (n : nat) (elem : M A) : M (list A) :=
  match n with
  | O => ret []
  | S n' => x <- elem ;; xs <- comprehension n' elem ;; ret (x :: xs)
  end.

(** [for idx, val in enumerate(l)] from index [idx] on. *)
Fixpoint for_enumerate {A} (idx : nat) (l : list A)
    (body : nat -> A -> M unit) : M unit :=
  match l with
  | [] => ret tt
  | val :: rest => body idx val ;; for_enumerate (S idx) rest body
  end.

(** [while read_button("charge") or read_button("discharge"):
       time.sleep(0.01)]
    Every iteration consumes a button reading, so the number of readings
    left bounds the iterations: the loop is cut short only by the tape
    running out, which is the world never reporting a release. *)
Fixpoint wait_release_loop (fuel : nat) : M unit :=
  match fuel with
  | O => fun _ => Starved
  | S fuel' =>
      c <- read_button charge ;;
      held <- (if c then ret true else read_button discharge) ;;
      if held then time_sleep 0.01 ;; wait_release_loop fuel'
      else ret tt
  end.

Definition wait_release : M unit :=
  fun w => wait_release_loop (S (length (button_tape (env w)))) w.

(** ** [gamepi.py]: class [Game] *)

Module Gamepi.

Definition NUM_SENSORS : nat := 4.
Definition SOC_LEVELS : Z := 10.
Definition MAX_ACTIONS : Z := 10.

(** [LED_COLOR = {0: "red", 1: "green"}]; a missing key raises. *)
Definition LED_COLOR (val : Z) : M Color :=
  if val =? 0 then ret red
  else if val =? 1 then ret green
  else raise KeyError.

(** How many SoC levels are gained for sensors 0-3 when charging. *)
Definition SOC_INCREMENT : list Z := [2; 3; 4; 2].

(** [Game.__init__] *)
Definition __init__ : Game :=
  mkGame 0 0 (SOC_LEVELS / 2) None (repeat 0%Q NUM_SENSORS)
         (repeat 0 NUM_SENSORS).

(** Return index of the first low-active sensor, or None. *)
Fixpoint first_active (idx n : nat) : M (option nat) :=
  match n with
  | O => ret None
  | S n' =>
      b <- read_sensor idx ;;
      if b then ret (Some idx) else first_active (S idx) n'
  end.

Definition _get_active_sensor : M (option nat) :=
  first_active 0 NUM_SENSORS.

(** Assign a fresh random 0/1 to every sensor LED. *)
Definition _randomise_leds : M unit :=
  vals <- comprehension NUM_SENSORS random_randint_0_1 ;;
  modify (fun g => mkGame (score g) (actions g) (soc g) (last_sensor g)
                          (last_action_ts g) vals) ;;
  for_enumerate 0 vals
    (fun idx val => color <- LED_COLOR val ;; set_led idx color true).

(** Spin the turbine for ~200 ms. *)
Definition _spin_windmill_briefly : M unit :=
  set_windmill true ;;
  time_sleep 0.2 ;;
  set_windmill false.

Definition _handle_action (sensor_idx : nat) (button : Button) : M unit :=
  now <- time_time ;;
  (* enforce 1 s minimum delay for the same sensor *)
  ts <- gets last_action_ts ;;
  last_ts <- getitem ts sensor_idx ;;
  if Qltb (now - last_ts) 1.0 then ret tt
  else
    modify (fun g => mkGame (score g) (actions g) (soc g) (last_sensor g)
                            (setitem (last_action_ts g) sensor_idx now)
                            (led_values g)) ;;
    leds <- gets led_values ;;
    led_value <- getitem leds sensor_idx ;;
    deltas <-
      (if led_value =? 0 then                       (* RED LED *)
         match button with
         | charge =>
             inc <- getitem SOC_INCREMENT sensor_idx ;; ret (5, inc)
         | discharge => ret (100, -1)
         end
       else                                         (* GREEN LED *)
         match button with
         | charge =>
             inc <- getitem SOC_INCREMENT sensor_idx ;; ret (50, inc)
         | discharge => ret (5, 0)
         end) ;;
    let score_delta := fst deltas in
    let soc_change := snd deltas in
    (* penalty when switching sensors *)
    last <- gets last_sensor ;;
    let soc_change :=
      match last with
      | Some l => if Nat.eqb l sensor_idx then soc_change
                  else soc_change - 1
      | None => soc_change
      end in
    modify (fun g => mkGame (score g) (actions g) (soc g) (Some sensor_idx)
                            (last_action_ts g) (led_values g)) ;;
    modify (fun g => mkGame (score g) (actions g + 1) (soc g)
                            (last_sensor g) (last_action_ts g)
                            (led_values g)) ;;
    (* apply score / SoC changes *)
    modify (fun g => mkGame (score g + score_delta) (actions g) (soc g)
                            (last_sensor g) (last_action_ts g)
                            (led_values g)) ;;
    modify (fun g => mkGame (score g) (actions g)
                            (Z.max 0 (Z.min SOC_LEVELS (soc g + soc_change)))
                            (last_sensor g) (last_action_ts g)
                            (led_values g)) ;;
    s <- gets score ;; update_score_display s ;;
    c <- gets soc ;; update_soc_display c ;;
    (* visual feedback *)
    _spin_windmill_briefly ;;
    (* prepare next turn *)
    _randomise_leds ;;
    (* wait until the button is released *)
    wait_release.

(** [idle], up to its polling loop: darken everything and show the last
    score once more. *)
Definition idle_enter : M unit :=
  for_range 0 NUM_SENSORS (fun idx => set_led idx off false) ;;
  set_button_led charge false ;;
  set_button_led discharge false ;;
  set_windmill false ;;
  s <- gets score ;; update_score_display s.

(** One iteration of the [while True] loop of [idle].  The result tells
    whether a press was seen (and debounced), upon which [idle] calls
    [_start_new_round]. *)
Definition idle_poll : M bool :=
  c <- read_button charge ;;
  pressed <- (if c then ret true else read_button discharge) ;;
  if pressed then wait_release ;; ret true
  else time_sleep 0.02 ;; ret false.

(** [_start_new_round], up to its call of [_play_round]. *)
Definition _start_new_round : M unit :=
  modify (fun g => mkGame (score g) 0 (soc g) (last_sensor g)
                          (last_action_ts g) (led_values g)) ;;
  modify (fun g => mkGame (score g) (actions g) (SOC_LEVELS / 2)
                          (last_sensor g) (last_action_ts g)
                          (led_values g)) ;;
  modify (fun g => mkGame (score g) (actions g) (soc g) None
                          (last_action_ts g) (led_values g)) ;;
  modify (fun g => mkGame (score g) (actions g) (soc g) (last_sensor g)
                          (repeat 0%Q NUM_SENSORS) (led_values g)) ;;
  _randomise_leds ;;
  c <- gets soc ;; update_soc_display c.

(** Hard reset (triggered by the 3 s button combo): the score is zeroed
    and [idle] is entered. *)
Definition _full_reset : M unit :=
  modify (fun g => mkGame 0 (actions g) (soc g) (last_sensor g)
                          (last_action_ts g) (led_values g)) ;;
  idle_enter.

(** The block [# Reset combo (both buttons >= 3 s)] of [_play_round],
    acting on its local [both_pressed_since]. *)
Definition reset_combo (both_pressed_since : option Q) : M Flow :=
  c <- read_button charge ;;
  both <- (if c then read_button discharge else ret false) ;;
  if both then
    match both_pressed_since with
    | None => t <- time_time ;; ret (Next (Some t))
    | Some since =>
        t <- time_time ;;
        if Qle_bool 3.0 (t - since) then _full_reset ;; ret Return
        else ret (Next both_pressed_since)
    end
  else ret (Next None).                     (* combo broken *)

(** The block [# Handle a user action] of [_play_round]. *)
Definition user_action (active : option nat) : M unit :=
  match active with
  | Some a =>
      c <- read_button charge ;;
      if c then _handle_action a charge
      else
        d <- read_button discharge ;;
        if d then _handle_action a discharge else ret tt
  | None => ret tt
  end.

(** The body of [while self.actions < MAX_ACTIONS] in [_play_round]. *)
Definition play_iteration (both_pressed_since : option Q) : M Flow :=
  active <- _get_active_sensor ;;
  (* enable / disable button illumination *)
  let any_active := match active with Some _ => true | None => false end in
  set_button_led charge any_active ;;
  set_button_led discharge any_active ;;
  flow <- reset_combo both_pressed_since ;;
  match flow with
  | Return => ret Return
  | Next since' =>
      user_action active ;;
      time_sleep 0.01 ;;                    (* 100 Hz polling *)
      ret (Next since')
  end.

(** One step of the game: an iteration of the loop the phase is in,
    together with the calls that lead into the next loop. *)
Definition step (p : Phase) : M Phase :=
  match p with
  | Idle =>
      started <- idle_poll ;;
      if started then _start_new_round ;; ret (Playing None)
      else ret Idle
  | Playing since =>
      n <- gets actions ;;
      if n <? MAX_ACTIONS then
        flow <- play_iteration since ;;
        match flow with
        | Next since' => ret (Playing since')
        | Return => ret Idle
        end
      else
        (* round finished: back to idle *)
        idle_enter ;; ret Idle
  end.

Fixpoint run (n : nat) (p : Phase) : M Phase :=
  match n with
  | O => ret p
  | S n' => p' <- step p ;; run n' p'
  end.

(** [main]: a fresh game, started in idle mode. *)
Definition boot (e : Env) : Outcome Phase :=
  (idle_enter ;; ret Idle) (mkWorld __init__ e []).

End Gamepi.

(** ** [moonshot.py]: class [Game]

    The combined GUI + game-logic script.  Its hardware helpers marshal
    the display updates to the GUI thread; the commands they stand for are
    the same, so the methods below run on the same abstraction layer. *)

Module Moonshot.

Definition NUM_SENSORS : nat := 4.
Definition SOC_LEVELS : Z := 10.
Definition MAX_ACTIONS : Z := 10.

Definition LED_COLOR (val : Z) : M Color :=
  if val =? 0 then ret red
  else if val =? 1 then ret green
  else raise KeyError.

(** SoC gain per sensor when charging. *)
Definition SOC_INCREMENT : list Z := [2; 3; 4; 2].

Definition __init__ : Game :=
  mkGame 0 0 (SOC_LEVELS / 2) None (repeat 0%Q NUM_SENSORS)
         (repeat 0 NUM_SENSORS).

Fixpoint first_active (idx n : nat) : M (option nat) :=
  match n with
  | O => ret None
  | S n' =>
      b <- read_sensor idx ;;
      if b then ret (Some idx) else first_active (S idx) n'
  end.

Definition _get_active_sensor : M (option nat) :=
  first_active 0 NUM_SENSORS.

Definition _randomise_leds : M unit :=
  vals <- comprehension NUM_SENSORS random_randint_0_1 ;;
  modify (fun g => mkGame (score g) (actions g) (soc g) (last_sensor g)
                          (last_action_ts g) vals) ;;
  for_enumerate 0 vals
    (fun idx val => color <- LED_COLOR val ;; set_led idx color true).

Definition _spin_windmill_briefly : M unit :=
  set_windmill true ;;
  time_sleep 0.2 ;;
  set_windmill false.

Definition _handle_action (sensor_idx : nat) (button : Button) : M unit :=
  now <- time_time ;;
  ts <- gets last_action_ts ;;
  last_ts <- getitem ts sensor_idx ;;
  if Qltb (now - last_ts) 1.0 then ret tt   (* same sensor cooldown *)
  else
    modify (fun g => mkGame (score g) (actions g) (soc g) (last_sensor g)
                            (setitem (last_action_ts g) sensor_idx now)
                            (led_values g)) ;;
    leds <- gets led_values ;;
    led_value <- getitem leds sensor_idx ;;
    deltas <-
      (if led_value =? 0 then                       (* RED *)
         match button with
         | charge =>
             inc <- getitem SOC_INCREMENT sensor_idx ;; ret (5, inc)
         | discharge => ret (100, -1)
         end
       else                                         (* GREEN *)
         match button with
         | charge =>
             inc <- getitem SOC_INCREMENT sensor_idx ;; ret (50, inc)
         | discharge => ret (5, 0)
         end) ;;
    let score_delta := fst deltas in
    let soc_change := snd deltas in
    last <- gets last_sensor ;;
    let soc_change :=
      match last with
      | Some l => if Nat.eqb l sensor_idx then soc_change
                  else soc_change - 1   (* penalty when switching sensors *)
      | None => soc_change
      end in
    modify (fun g => mkGame (score g) (actions g) (soc g) (Some sensor_idx)
                            (last_action_ts g) (led_values g)) ;;
    modify (fun g => mkGame (score g) (actions g + 1) (soc g)
                            (last_sensor g) (last_action_ts g)
                            (led_values g)) ;;
    modify (fun g => mkGame (score g + score_delta) (actions g) (soc g)
                            (last_sensor g) (last_action_ts g)
                            (led_values g)) ;;
    modify (fun g => mkGame (score g) (actions g)
                            (Z.max 0 (Z.min SOC_LEVELS (soc g + soc_change)))
                            (last_sensor g) (last_action_ts g)
                            (led_values g)) ;;
    s <- gets score ;; update_score_display s ;;
    c <- gets soc ;; update_soc_display c ;;
    _spin_windmill_briefly ;;
    _randomise_leds ;;
    wait_release.

(** [idle], up to its polling loop. *)
Definition idle_enter : M unit :=
  for_range 0 NUM_SENSORS (fun idx => set_led idx off false) ;;
  set_button_led charge false ;;
  set_button_led discharge false ;;
  set_windmill false ;;
  s <- gets score ;; update_score_display s.

(** One iteration of the [while True] loop of [idle]. *)
Definition idle_poll : M bool :=
  c <- read_button charge ;;
  pressed <- (if c then ret true else read_button discharge) ;;
  if pressed then wait_release ;; ret true   (* debounce until release *)
  else time_sleep 0.02 ;; ret false.

(** [_start_new_round], up to its call of [_play_round]. *)
Definition _start_new_round : M unit :=
  modify (fun g => mkGame (score g) 0 (soc g) (last_sensor g)
                          (last_action_ts g) (led_values g)) ;;
  modify (fun g => mkGame (score g) (actions g) (SOC_LEVELS / 2)
                          (last_sensor g) (last_action_ts g)
                          (led_values g)) ;;
  modify (fun g => mkGame (score g) (actions g) (soc g) None
                          (last_action_ts g) (led_values g)) ;;
  modify (fun g => mkGame (score g) (actions g) (soc g) (last_sensor g)
                          (repeat 0%Q NUM_SENSORS) (led_values g)) ;;
  _randomise_leds ;;
  c <- gets soc ;; update_soc_display c.

Definition _full_reset : M unit :=
  modify (fun g => mkGame 0 (actions g) (soc g) (last_sensor g)
                          (last_action_ts g) (led_values g)) ;;
  idle_enter.

(** The block [# Reset combo (>=3 s both pressed)] of [_play_round]. *)
Definition reset_combo (both_pressed_since : option Q) : M Flow :=
  c <- read_button charge ;;
  both <- (if c then read_button discharge else ret false) ;;
  if both then
    match both_pressed_since with
    | None => t <- time_time ;; ret (Next (Some t))
    | Some since =>
        t <- time_time ;;
        if Qle_bool 3.0 (t - since) then _full_reset ;; ret Return
        else ret (Next both_pressed_since)
    end
  else ret (Next None).

(** The block [if active is not None:] of [_play_round]. *)
Definition user_action (active : option nat) : M unit :=
  match active with
  | Some a =>
      c <- read_button charge ;;
      if c then _handle_action a charge
      else
        d <- read_button discharge ;;
        if d then _handle_action a discharge else ret tt
  | None => ret tt
  end.

(** The body of [while self.actions < MAX_ACTIONS] in [_play_round]. *)
Definition play_iteration (both_pressed_since : option Q) : M Flow :=
  active <- _get_active_sensor ;;
  let any_active := match active with Some _ => true | None => false end in
  set_button_led charge any_active ;;
  set_button_led discharge any_active ;;
  flow <- reset_combo both_pressed_since ;;
  match flow with
  | Return => ret Return
  | Next since' =>
      user_action active ;;
      time_sleep 0.01 ;;
      ret (Next since')
  end.

Definition step (p : Phase) : M Phase :=
  match p with
  | Idle =>
      started <- idle_poll ;;
      if started then _start_new_round ;; ret (Playing None)
      else ret Idle
  | Playing since =>
      n <- gets actions ;;
      if n <? MAX_ACTIONS then
        flow <- play_iteration since ;;
        match flow with
        | Next since' => ret (Playing since')
        | Return => ret Idle
        end
      else
        idle_enter ;; ret Idle
  end.

Fixpoint run (n : nat) (p : Phase) : M Phase :=
  match n with
  | O => ret p
  | S n' => p' <- step p ;; run n' p'
  end.

(** [_game_worker]: a fresh game, started in idle mode. *)
Definition boot (e : Env) : Outcome Phase :=
  (idle_enter ;; ret Idle) (mkWorld __init__ e []).

End Moonshot.

(** * Vocabulary of the specification *)

(** The score/SoC delta table of the specification: one row per LED value
    and button, the SoC column before the switch penalty. *)
Definition delta_table (ledValue : Z) (button : Button) (sensorIndex : nat)
  : option (Z * Z) :=
  match ledValue, button with
  | 0, charge => option_map (fun inc => (5, inc)) (nth_error [2; 3; 4; 2] sensorIndex)
  | 0, discharge => Some (100, -1)
  | 1, charge => option_map (fun inc => (50, inc)) (nth_error [2; 3; 4; 2] sensorIndex)
  | 1, discharge => Some (5, 0)
  | _, _ => None
  end.

(** The extra SoC point a switch of sensor costs. *)
Definition switch_penalty (lastActiveSensor : option nat) (sensorIndex : nat)
  : Z :=
  match lastActiveSensor with
  | Some l => if Nat.eqb l sensorIndex then 0 else 1
  | None => 0
  end.

Definition clamp (x lo hi : Z) : Z := Z.max lo (Z.min hi x).

(** An LED value is 0 (red) or 1 (green). *)
Definition binary (v : Z) : Prop := v = 0 \/ v = 1.

(** Turbine pulses in a command log.  Only an accepted action starts the
    turbine, once, so the count tells how many actions were accepted. *)
Fixpoint spins (log : list Output) : nat :=
  match log with
  | [] => O
  | SetWindmill true :: rest => S (spins rest)
  | _ :: rest => spins rest
  end.

(** The world after [n] answers were taken from the clock. *)
Definition drop_clock (n : nat) (w : World) : World :=
  mkWorld (game w)
    (mkEnv (sensor_tape (env w)) (button_tape (env w))
       (skipn n (clock_tape (env w))) (random_tape (env w)))
    (out w).

(** The world after [n] button readings were taken. *)
Definition drop_buttons (n : nat) (w : World) : World :=
  mkWorld (game w)
    (mkEnv (sensor_tape (env w)) (skipn n (button_tape (env w)))
       (clock_tape (env w)) (random_tape (env w)))
    (out w).

(** The world after further commands were issued. *)
Definition log_more (l : list Output) (w : World) : World :=
  mkWorld (game w) (env w) (out w ++ l).

(** The world with the score zeroed. *)
Definition zero_score (w : World) : World :=
  mkWorld
    (mkGame 0 (actions (game w)) (soc (game w)) (last_sensor (game w))
       (last_action_ts (game w)) (led_values (game w)))
    (env w) (out w).

(** The colour shown for a random draw: 1 is green, 0 is red. *)
Definition led_color (draw : bool) : Color := if draw then green else red.

(** The commands of [idle] before its polling loop. *)
Definition idle_commands (s : Z) : list Output :=
  [SetLed 0 off false; SetLed 1 off false; SetLed 2 off false;
   SetLed 3 off false; SetButtonLed charge false;
   SetButtonLed discharge false; SetWindmill false; UpdateScoreDisplay s].

(** The world a finished run ends in. *)
Definition after {A} (o : Outcome A) (w : World) : World :=
  match o with
  | Done _ w' => w'
  | _ => w
  end.

(** ** Sample worlds *)

(** Mid-round: score 20 after three actions, the last one on sensor 2;
    the buttons are found released at the first look. *)
Definition sample_world : World :=
  mkWorld (mkGame 20 3 5 (Some 2%nat) [0; 0; 0; 0]%Q [0; 1; 0; 1])
    (mkEnv [] [false; false] [100%Q] [true; false; false; true]) [].

(** A full battery, with a red LED on sensor 0. *)
Definition full_world : World :=
  mkWorld (mkGame 0 1 10 None [0; 0; 0; 0]%Q [0; 1; 0; 1])
    (mkEnv [] [false; false] [100%Q] [true; false; false; true]) [].

(** A fresh game before its first round, with green LEDs to come and
    the buttons never found pressed. *)
Definition round_world : World :=
  mkWorld Gamepi.__init__
    (mkEnv [] (repeat false 6) [100; 101; 102]%Q (repeat true 16)) [].

Definition round_actions : list (nat * Button) :=
  [(0%nat, charge); (1%nat, charge); (2%nat, charge)].

(** A fresh game whose first poll finds sensor 0 active and the charge
    button alone pressed, released right after the action. *)
Definition play_world : World :=
  mkWorld Gamepi.__init__
    (mkEnv [true] [true; false; true; false; false] [100%Q]
       (repeat true 8)) [].

Definition play_world_started : World :=
  after (Gamepi._start_new_round play_world) play_world.

Definition play_world_polled : World :=
  after (Gamepi.step (Playing None) play_world_started) play_world_started.

(** Mid-round, no sensor active; three polls in a row find both buttons
    pressed, at 100 s, 101.5 s and 103 s. *)
Definition combo_world : World :=
  mkWorld (mkGame 155 4 6 (Some 1%nat) [90; 95; 0; 0]%Q [0; 1; 1; 0])
    (mkEnv (repeat false 12) (repeat true 6) [100; 101.5; 103]%Q []) [].

Definition combo_world_1 : World :=
  after (Gamepi.step (Playing None) combo_world) combo_world.

Definition combo_world_2 : World :=
  after (Gamepi.step (Playing (Some 100%Q)) combo_world_1) combo_world_1.

(** Round just started, red LED on sensor 0.  Sensor 0 is active and both
    buttons are down when polled; they are up after the action. *)
Definition both_world : World :=
  mkWorld (mkGame 0 0 5 None [0; 0; 0; 0]%Q [0; 1; 0; 1])
    (mkEnv [true] [true; true; true; false; false] [100; 100.001]%Q
       [true; true; false; false]) [].

Definition both_world_sensed : World :=
  after (Gamepi._get_active_sensor both_world) both_world.

(** A fresh game: the round starts with a red LED on sensor 0, and the
    first action leaves a green LED on sensor 1. *)
Definition trace_world : World :=
  mkWorld Gamepi.__init__
    (mkEnv [] (repeat false 4) [100; 102]%Q
       [false; true; false; true; false; true; true; false;
        true; true; true; true]) [].

Definition trace_world_0 : World :=
  after (Gamepi._start_new_round trace_world) trace_world.

Definition trace_world_1 : World :=
  after (Gamepi._handle_action 0 discharge trace_world_0) trace_world_0.

Definition trace_world_2 : World :=
  after (Gamepi._handle_action 1 charge trace_world_1) trace_world_1.

(** A whole round from power-up: a press of charge starts it; then ten
    polls, two seconds apart, each find sensor 0 active and the discharge
    button alone pressed. *)
Definition whole_round_world : World :=
  mkWorld Gamepi.__init__
    (mkEnv (repeat true 10)
       ([true; false; false]
        ++ concat (repeat [false; false; true; false; false] 10))
       [100; 102; 104; 106; 108; 110; 112; 114; 116; 118]%Q
       (repeat true 44))
    [].

(** Relations between the world before and after a computation. *)

Definition keeps_game (w w' : World) : Prop := game w' = game w.

Definition keeps_log (w w' : World) : Prop := out w' = out w.

(** Everything but the LED values. *)
Definition keeps_round (w w' : World) : Prop :=
  score (game w') = score (game w) /\
  actions (game w') = actions (game w) /\
  soc (game w') = soc (game w) /\
  last_sensor (game w') = last_sensor (game w) /\
  last_action_ts (game w') = last_action_ts (game w).

Definition keeps_spins (w w' : World) : Prop :=
  spins (out w') = spins (out w).

(** The same world with another [last_sensor]. *)
Definition set_last_sensor (l : option nat) (w : World) : World :=
  mkWorld
    (mkGame (score (game w)) (actions (game w)) (soc (game w)) l
       (last_action_ts (game w)) (led_values (game w)))
    (env w) (out w).

(** Nothing changes but the sensor readings taken. *)
Definition keeps_but_sensors (w w' : World) : Prop :=
  game w' = game w /\ out w' = out w /\
  button_tape (env w') = button_tape (env w) /\
  clock_tape (env w') = clock_tape (env w) /\
  random_tape (env w') = random_tape (env w).

(** What one iteration of the play loop may do to the game: nothing, or
    one accepted action. *)
Definition untouched (w w' : World) : Prop :=
  game w' = game w /\ spins (out w') = spins (out w).

Definition one_action (w w' : World) : Prop :=
  actions (game w') = actions (game w) + 1 /\
  spins (out w') = S (spins (out w)) /\
  (score (game w') = score (game w) + 5 \/
   score (game w') = score (game w) + 50 \/
   score (game w') = score (game w) + 100) /\
  0 <= soc (game w') <= Gamepi.SOC_LEVELS.

(** The states of one round: those reached from its start by iterations
    of the play loop that stay in the loop. *)
Inductive in_round (w0 : World) : option Q -> World -> Prop :=
| round_start : in_round w0 None w0
| round_poll since w since' w' :
    in_round w0 since w ->
    Gamepi.step (Playing since) w = Done (Playing since') w' ->
    in_round w0 since' w'.



(** A computation respects a relation between the world before and the
    world after when every finished run does. *)
Definition respects {A} (R : World -> World -> Prop) (m : M A) : Prop :=
  forall w a w', m w = Done a w' -> R w w'.

(** A sequence of actions, each on a sensor with a button. *)
Fixpoint perform (acts : list (nat * Button)) : M unit :=
  match acts with
  | [] => ret tt
  | (sensor_idx, button) :: rest =>
      Gamepi._handle_action sensor_idx button ;; perform rest
  end.

(** * Further vocabulary *)

(** What a run may end in: a result that satisfies [Q], or a wait for
    input that never comes; never an exception. *)
Definition post {A} (o : Outcome A) (Q : A -> World -> Prop) : Prop :=
  match o with
  | Done a w => Q a w
  | Starved => True
  | Raised _ => False
  end.

Definition never_raises {A} (m : M A) : Prop :=
  forall w e, m w <> Raised e.

(** The shape every reachable game has. *)
Definition game_ok (g : Game) : Prop :=
  0 <= score g /\
  (5 | score g) /\
  0 <= actions g <= Gamepi.MAX_ACTIONS /\
  0 <= soc g <= Gamepi.SOC_LEVELS /\
  length (last_action_ts g) = Gamepi.NUM_SENSORS /\
  length (led_values g) = Gamepi.NUM_SENSORS /\
  Forall binary (led_values g) /\
  match last_sensor g with
  | Some l => (l < Gamepi.NUM_SENSORS)%nat
  | None => True
  end.

(** One pass of the release-wait loop that found a button down: charge
    was down, or charge was up and discharge down. *)
Definition held_pass (readings : list bool) : Prop :=
  readings = [true] \/ readings = [false; true].

(** What the player sees: the last command each output device was given. *)
Record Panel : Set := mkPanel {
  sensor_leds : list (Color * bool);   (* colour and on-flag, per sensor *)
  charge_led : bool;
  discharge_led : bool;
  windmill : bool;
  score_shown : option Z;
  soc_shown : option Z
}.

(** Before any command: dark, still, nothing displayed. *)
Definition blank_panel : Panel :=
  mkPanel (repeat (off, false) Gamepi.NUM_SENSORS) false false false None None.

Definition command (p : Panel) (o : Output) : Panel :=
  match o with
  | SetLed index color on =>
      mkPanel (setitem (sensor_leds p) index (color, on)) (charge_led p)
        (discharge_led p) (windmill p) (score_shown p) (soc_shown p)
  | SetButtonLed charge on =>
      mkPanel (sensor_leds p) on (discharge_led p) (windmill p)
        (score_shown p) (soc_shown p)
  | SetButtonLed discharge on =>
      mkPanel (sensor_leds p) (charge_led p) on (windmill p)
        (score_shown p) (soc_shown p)
  | SetWindmill on =>
      mkPanel (sensor_leds p) (charge_led p) (discharge_led p) on
        (score_shown p) (soc_shown p)
  | UpdateScoreDisplay s =>
      mkPanel (sensor_leds p) (charge_led p) (discharge_led p) (windmill p)
        (Some s) (soc_shown p)
  | UpdateSocDisplay level =>
      mkPanel (sensor_leds p) (charge_led p) (discharge_led p) (windmill p)
        (score_shown p) (Some level)
  | Sleep _ => p
  end.

Definition panel (log : list Output) : Panel :=
  fold_left command log blank_panel.

(** The LED command that shows an LED value: red for 0, green otherwise. *)
Definition led_shows (led_value : Z) : Color * bool :=
  (if led_value =? 0 then red else green, true).

(** The panel agrees with the game: the turbine stands still and the
    score display shows the score; in Idle the sensor LEDs and the button
    LEDs are dark; while playing every sensor LED shows the LED value the
    scoring will use and the SoC display shows the SoC. *)
Definition panel_ok (p : Phase) (w : World) : Prop :=
  windmill (panel (out w)) = false /\
  score_shown (panel (out w)) = Some (score (game w)) /\
  match p with
  | Idle =>
      sensor_leds (panel (out w)) = repeat (off, false) Gamepi.NUM_SENSORS /\
      charge_led (panel (out w)) = false /\
      discharge_led (panel (out w)) = false
  | Playing _ =>
      sensor_leds (panel (out w)) = map led_shows (led_values (game w)) /\
      soc_shown (panel (out w)) = Some (soc (game w))
  end.

Definition keeps_panel (w w' : World) : Prop :=
  panel (out w') = panel (out w).

(** Game and panel alike. *)
Definition keeps_view (w w' : World) : Prop :=
  game w' = game w /\ panel (out w') = panel (out w).

(** The engine from power-up: [main] builds the game and enters [idle];
    then [n] steps. *)
Definition power_up (n : nat) (e : Env) : Outcome Phase :=
  (Gamepi.idle_enter ;; Gamepi.run n Idle) (mkWorld Gamepi.__init__ e []).

(** What holds of every state the engine reaches, in the phase it is in. *)
Definition reach_ok (p : Phase) (w : World) : Prop :=
  game_ok (game w) /\ panel_ok p w.

(** A world whose release wait sees charge held twice, then discharge
    alone, before both buttons are up. *)
Definition holding_world : World :=
  mkWorld (mkGame 30 2 7 (Some 1%nat) [0; 50; 0; 0]%Q [1; 0; 0; 1])
    (mkEnv [true; false] [true; true; false; true; false; false; true]
       [100%Q] [true; true; false; false])
    [UpdateScoreDisplay 30].

(** Idle, with a press of discharge that is held for one more look. *)
Definition idle_world : World :=
  mkWorld (mkGame 75 10 3 (Some 2%nat) [0; 0; 98; 0]%Q [1; 0; 0; 1])
    (mkEnv [true] [false; true; false; true; false; false; true]
       [100%Q] [false; true; true; false; true])
    (idle_commands 75).

(** The commands of an accepted action, after the displays. *)
Definition action_feedback (r0 r1 r2 r3 : bool) (k : nat) : list Output :=
  [SetWindmill true; Sleep 0.2; SetWindmill false;
   SetLed 0 (led_color r0) true; SetLed 1 (led_color r1) true;
   SetLed 2 (led_color r2) true; SetLed 3 (led_color r3) true]
  ++ repeat (Sleep 0.01) k.

(** * The hardware abstraction layers, as written

    For the game the stubs of the hardware abstraction layer are reads of
    the tapes and entries of the log.  Here are the stubs at the top of
    [gamepi.py] and of [moonshot.py] themselves, with Python's arguments:
    an index is an integer, a colour and a button name are strings.  What
    they do is a sequence of calls on the devices ([led_controller] and
    gpiozero, both outside the repository) and on the display. *)

(** Methods of the display object. *)
Inductive GuiCall : Set :=
| SetScore (value : Z)
| SetSoc (level : Z)
| HighlightLaden (active : bool)
| HighlightEntladen (active : bool).

Inductive Call : Set :=
| led (fn : Color) (n : nat)       (* offN(), rN(), gN() of led_controller *)
| pin (name : Button) (on : bool)  (* led_charge / led_discharge .on() .off() *)
| servo (spin : bool)              (* windmill.max() / windmill.detach() *)
| gui_now (c : GuiCall)            (* display.method(...), in the caller *)
| gui_later (c : GuiCall).         (* display.after(0, ...): for the GUI thread *)

(** What the layers and the display raise; ListIndexError is the
    IndexError of a list subscript. *)
Inductive Error : Set :=
| ValueError | NameError | ListIndexError | ZeroDivisionError.

(** The calls made so far, and how the function ended. *)
Inductive Result (A : Type) : Type :=
| Fine (a : A) (calls : list Call)
| Failed (e : Error) (calls : list Call).

Arguments Fine {A} a calls.
Arguments Failed {A} e calls.

Definition Hw (A : Type) : Type := list Call -> Result A.

Definition hret {A} (a : A) : Hw A := fun calls => Fine a calls.

Definition hbind {A B} (m : Hw A) (k : A -> Hw B) : Hw B :=
  fun calls =>
    match m calls with
    | Fine a calls' => k a calls'
    | Failed e calls' => Failed e calls'
    end.

Definition hraise {A} (e : Error) : Hw A := fun calls => Failed e calls.

Definition call (c : Call) : Hw unit := fun calls => Fine tt (calls ++ [c]).

Declare Scope hw_scope.
Delimit Scope hw_scope with hw.
Notation "x <- c1 ;; c2" := (hbind c1 (fun x => c2))
  (at level 61, c1 at next level, right associativity) : hw_scope.
Notation "c1 ;; c2" := (hbind c1 (fun _ => c2))
  (at level 61, right associativity) : hw_scope.

(** The [is_pressed] of the six gpiozero buttons at one moment. *)
Record Pins : Set := mkPins {
  btn_charge : bool;
  btn_discharge : bool;
  park_office : bool;
  park_home : bool;
  park_shop : bool;
  park_charge : bool
}.

(** What a read function returns: a bool, or None when it falls off its
    last [elif]. *)
Inductive Answer : Set := Pressed (b : bool) | PyNone.

(** Python's truth value, as tested by [if read_sensor(idx)]. *)
Definition truthy (a : Answer) : bool :=
  match a with
  | Pressed b => b
  | PyNone => false
  end.

(** [l[i]] on a list: negative indices count from the end; None stands
    for IndexError. *)
Definition py_index {A} (l : list A) (i : Z) : option A :=
  if (0 <=? i) && (i <? Z.of_nat (length l)) then nth_error l (Z.to_nat i)
  else if (- Z.of_nat (length l) <=? i) && (i <? 0)
       then nth_error l (Z.to_nat (Z.of_nat (length l) + i))
       else None.

(** The strings the game passes. *)
Definition color_name (c : Color) : String.string :=
  match c with
  | red => "red"%string
  | green => "green"%string
  | off => "off"%string
  end.

Definition button_name (b : Button) : String.string :=
  match b with
  | charge => "charge"%string
  | discharge => "discharge"%string
  end.

Module GamepiIO.

Local Open Scope hw_scope.

(** [gamepi.py] imports [ScoreGUI] but never assigns [display]: looking
    the name up raises NameError. *)
Definition display : Hw unit := hraise NameError.

Definition read_sensor (pins : Pins) (index : Z) : Answer :=
  if index =? 0 then Pressed (park_office pins)
  else if index =? 1 then Pressed (park_home pins)
  else if index =? 2 then Pressed (park_shop pins)
  else if index =? 3 then Pressed (park_charge pins)
  else PyNone.

Definition set_led (index : Z) (color : String.string) (on : bool) : Hw unit :=
  (if index =? 0 then call (led off 1)
   else if index =? 1 then call (led off 2)
   else if index =? 2 then call (led off 3)
   else if index =? 3 then call (led off 4)
   else hraise ValueError) ;;
  if on then
    if String.eqb color "red"%string then
      if index =? 0 then call (led red 1)
      else if index =? 1 then call (led red 2)
      else if index =? 2 then call (led red 3)
      else if index =? 3 then call (led red 4)
      else hraise ValueError
    else if String.eqb color "green"%string then
      if index =? 0 then call (led green 1)
      else if index =? 1 then call (led green 2)
      else if index =? 2 then call (led green 3)
      else if index =? 3 then call (led green 4)
      else hraise ValueError
    else hret tt
  else hret tt.

Definition read_button (pins : Pins) (name : String.string) : Answer :=
  if String.eqb name "charge"%string then Pressed (btn_charge pins)
  else if String.eqb name "discharge"%string then Pressed (btn_discharge pins)
  else PyNone.

Definition set_button_led (name : String.string) (on : bool) : Hw unit :=
  if String.eqb name "charge"%string then
    if on then call (pin charge true) ;; display ;;
               call (gui_now (HighlightLaden true))
    else call (pin charge false) ;; display ;;
         call (gui_now (HighlightLaden false))
  else if String.eqb name "discharge"%string then
    if on then call (pin discharge true) ;; display ;;
               call (gui_now (HighlightEntladen true))
    else call (pin discharge false) ;; display ;;
         call (gui_now (HighlightEntladen false))
  else hret tt.

Definition set_windmill (on : bool) : Hw unit :=
  if on then call (servo true) else call (servo false).

Definition update_score_display (score : Z) : Hw unit :=
  display ;; call (gui_now (SetScore score)).

Definition update_soc_display (level : Z) : Hw unit :=
  display ;; call (gui_now (SetSoc level)).

(** The call each command of the game stands for. *)
Definition drive (o : Output) : Hw unit :=
  match o with
  | SetLed index color on => set_led (Z.of_nat index) (color_name color) on
  | SetButtonLed name on => set_button_led (button_name name) on
  | SetWindmill on => set_windmill on
  | UpdateScoreDisplay s => update_score_display s
  | UpdateSocDisplay level => update_soc_display level
  | Sleep _ => hret tt
  end.

Fixpoint drive_all (log : list Output) : Hw unit :=
  match log with
  | [] => hret tt
  | o :: rest => drive o ;; drive_all rest
  end.

End GamepiIO.

Module MoonshotIO.

Local Open Scope hw_scope.

(** Schedule a method of [display] to run in the GUI thread. *)
Definition _gui_call (c : GuiCall) : Hw unit := call (gui_later c).

Definition read_sensor (pins : Pins) (index : Z) : option bool :=
  py_index [park_office pins; park_home pins; park_shop pins;
            park_charge pins] index.

Definition set_led (index : Z) (color : String.string) (on : bool) : Hw unit :=
  let off_funcs := [led off 1; led off 2; led off 3; led off 4] in
  let on_funcs_red := [led red 1; led red 2; led red 3; led red 4] in
  let on_funcs_green :=
    [led green 1; led green 2; led green 3; led green 4] in
  match py_index off_funcs index with        (* always blank first *)
  | Some f => call f
  | None => hraise ListIndexError
  end ;;
  if on then
    match py_index (if String.eqb color "red"%string then on_funcs_red
                    else on_funcs_green) index with
    | Some f => call f
    | None => hraise ListIndexError
    end
  else hret tt.

Definition read_button (pins : Pins) (name : String.string) : bool :=
  if String.eqb name "charge"%string then btn_charge pins else btn_discharge pins.

Definition set_button_led (name : String.string) (on : bool) : Hw unit :=
  if String.eqb name "charge"%string then
    call (pin charge on) ;; _gui_call (HighlightLaden on)
  else
    call (pin discharge on) ;; _gui_call (HighlightEntladen on).

Definition set_windmill (on : bool) : Hw unit :=
  if on then call (servo true) else call (servo false).

Definition update_score_display (score : Z) : Hw unit :=
  _gui_call (SetScore score).

Definition update_soc_display (level : Z) : Hw unit :=
  _gui_call (SetSoc level).

Definition drive (o : Output) : Hw unit :=
  match o with
  | SetLed index color on => set_led (Z.of_nat index) (color_name color) on
  | SetButtonLed name on => set_button_led (button_name name) on
  | SetWindmill on => set_windmill on
  | UpdateScoreDisplay s => update_score_display s
  | UpdateSocDisplay level => update_soc_display level
  | Sleep _ => hret tt
  end.

Fixpoint drive_all (log : list Output) : Hw unit :=
  match log with
  | [] => hret tt
  | o :: rest => drive o ;; drive_all rest
  end.

End MoonshotIO.

(** ** The commands of the game and the layers *)

(** A command the layers are wired for: an LED command names one of the
    four sensor LEDs and lights it, if at all, red or green. *)
Definition wired (o : Output) : Prop :=
  match o with
  | SetLed index color on =>
      (index < Gamepi.NUM_SENSORS)%nat /\ (on = true -> color <> off)
  | _ => True
  end.

(** The computation only adds wired commands to the log. *)
Definition appends (w w' : World) : Prop :=
  exists l, out w' = out w ++ l /\ Forall wired l.

(** [main] of [moonshot.py]'s worker: a fresh game, [idle], [n] steps. *)
Definition moonshot_power_up (n : nat) (e : Env) : Outcome Phase :=
  (Moonshot.idle_enter ;; Moonshot.run n Idle) (mkWorld Moonshot.__init__ e []).

(** The display is only reached through [display.after]. *)
Definition marshalled (c : Call) : Prop :=
  match c with
  | gui_now _ => False
  | _ => True
  end.

(** * The display classes

    [gui.py] and [moonshot.py] each define [BatteryCanvas] and [ScoreGUI].
    A widget is a record of the options and attributes the methods read
    and write.  Canvas coordinates are given as exact rationals where
    Python rounds to floating point; nothing below is stated about them. *)

Record Label : Set := mkLabel {
  fg : String.string;
  background : String.string;
  relief : String.string;
  highlightbackground : String.string;
  highlightcolor : String.string;
  highlightthickness : Z
}.

(** A canvas rectangle: corners, outline width and fill colour. *)
Record Item : Set := rectangle {
  corner_x0 : Q; corner_y0 : Q; corner_x1 : Q; corner_y1 : Q;
  width : Z;
  fill : String.string
}.

Record BatteryCanvas : Set := mkBatteryCanvas {
  segments : Z;
  level : Z;
  winfo_width : Z;
  winfo_height : Z;
  items : list Item
}.

Record ScoreGUI : Set := mkScoreGUI {
  battery : BatteryCanvas;
  _score_var : String.string;
  laden_lbl : Label;
  entl_lbl : Label
}.

(** ** The format [f"{value:04d}"] *)

Definition digit (d : Z) : Ascii.ascii := Ascii.ascii_of_nat (48 + Z.to_nat d).

(** The decimal digits of [n], most significant first, put before [acc]. *)
Fixpoint digits_of (fuel : nat) (n : Z) (acc : String.string) : String.string :=
  match fuel with
  | O => acc
  | S fuel' =>
      let acc' := String.String (digit (n mod 10)) acc in
      if n <? 10 then acc' else digits_of fuel' (n / 10) acc'
  end.

(** A number has no more decimal digits than binary ones. *)
Definition decimal (n : Z) : String.string :=
  digits_of (S (Z.to_nat (Z.log2 n))) n String.EmptyString.

Fixpoint zeros (k : nat) : String.string :=
  match k with
  | O => String.EmptyString
  | S k' => String.String (digit 0) (zeros k')
  end.

(** Sign, then zeros up to a total width of 4, then the digits. *)
Definition format_04d (value : Z) : String.string :=
  let sign := if value <? 0 then "-"%string else ""%string in
  let body := decimal (Z.abs value) in
  String.append sign
    (String.append (zeros (4 - String.length sign - String.length body)) body).

(** The number a string of digits denotes, continuing from [v]. *)
Fixpoint number (s : String.string) (v : Z) : Z :=
  match s with
  | String.EmptyString => v
  | String.String c rest =>
      number rest (10 * v + (Z.of_nat (Ascii.nat_of_ascii c) - 48))
  end.

Fixpoint all_digits (s : String.string) : bool :=
  match s with
  | String.EmptyString => true
  | String.String c rest =>
      (48 <=? Ascii.nat_of_ascii c)%nat && (Ascii.nat_of_ascii c <=? 57)%nat
      && all_digits rest
  end.

Module GuiPy.

(** [BatteryCanvas._redraw] *)
Definition _redraw (c : BatteryCanvas) : BatteryCanvas * option Error :=
  let w := winfo_width c in
  let h := winfo_height c in
  let draw l := mkBatteryCanvas (segments c) (level c) w h l in
  (* self.delete("all") *)
  if (w <=? 1) || (h <=? 1) then (draw [], None)   (* geometry not yet calculated *)
  else
    let body_margin := (inject_Z (Z.min w h) * 0.05)%Q in
    let body_h := (inject_Z h * 0.9)%Q in
    let body_w := (inject_Z w * 0.8)%Q in
    let tip_h := (inject_Z h * 0.03)%Q in
    let x0 := ((inject_Z w - body_w) / 2)%Q in
    let y0 := ((inject_Z h - body_h) / 2)%Q in
    let x1 := (x0 + body_w)%Q in
    let y1 := (y0 + body_h)%Q in
    (* battery outline *)
    let outline := rectangle x0 y0 x1 y1 3 ""%string in
    (* battery tip *)
    let tip_w := (body_w * 0.4)%Q in
    let tip_x0 := ((inject_Z w - tip_w) / 2)%Q in
    let tip := rectangle tip_x0 y0 (tip_x0 + tip_w)%Q (y0 - tip_h)%Q 3
                 ""%string in
    (* segments, bottom-up *)
    if segments c =? 0 then (draw [outline; tip], Some ZeroDivisionError)
    else
      let seg_h := (body_h / inject_Z (segments c))%Q in
      let segment (i : nat) :=
        let seg_y0 := (y1 - seg_h * (inject_Z (Z.of_nat i) + 1))%Q in
        let seg_y1 := (y1 - seg_h * inject_Z (Z.of_nat i))%Q in
        let fill_colour :=
          if Z.of_nat i <? level c then "#22aa22"%string else ""%string in
        rectangle (x0 + 4)%Q (seg_y0 + 4)%Q (x1 - 4)%Q (seg_y1 - 4)%Q 0
          fill_colour in
      (draw ([outline; tip] ++ map segment (seq 0 (Z.to_nat (segments c)))),
       None).

(** Clamp level to 0...segments and refresh the drawing. *)
Definition set_level (c : BatteryCanvas) (lvl : Z)
  : BatteryCanvas * option Error :=
  _redraw (mkBatteryCanvas (segments c) (Z.max 0 (Z.min lvl (segments c)))
             (winfo_width c) (winfo_height c) (items c)).

(** Update 4-digit, zero-padded score. *)
Definition set_score (g : ScoreGUI) (value : Z) : ScoreGUI :=
  mkScoreGUI (battery g) (format_04d value) (laden_lbl g) (entl_lbl g).

(** Update state-of-charge (0-10). *)
Definition set_soc (g : ScoreGUI) (lvl : Z) : ScoreGUI * option Error :=
  let r := set_level (battery g) lvl in
  (mkScoreGUI (fst r) (_score_var g) (laden_lbl g) (entl_lbl g), snd r).

(** Apply or remove a border around the label as the highlight. *)
Definition _set_highlight (label : Label) (active : bool) : Label :=
  if active then
    mkLabel (fg label) (background label) "flat"%string (fg label) (fg label) 2
  else
    mkLabel (fg label) (background label) "flat"%string (background label)
      (background label) 2.

Definition highlight_laden (g : ScoreGUI) (active : bool) : ScoreGUI :=
  mkScoreGUI (battery g) (_score_var g) (_set_highlight (laden_lbl g) active)
    (entl_lbl g).

Definition highlight_entladen (g : ScoreGUI) (active : bool) : ScoreGUI :=
  let g := mkScoreGUI (battery g) (_score_var g) (laden_lbl g)
             (_set_highlight (entl_lbl g) active) in
  if active then highlight_laden g false else g.

End GuiPy.

Module MoonshotGui.

Definition _redraw (c : BatteryCanvas) : BatteryCanvas * option Error :=
  let w := winfo_width c in
  let h := winfo_height c in
  let draw l := mkBatteryCanvas (segments c) (level c) w h l in
  if (w <=? 1) || (h <=? 1) then (draw [], None)   (* geometry not yet available *)
  else
    let body_margin := (inject_Z (Z.min w h) * 0.05)%Q in
    let body_h := (inject_Z h * 0.9)%Q in
    let body_w := (inject_Z w * 0.8)%Q in
    let tip_h := (inject_Z h * 0.03)%Q in
    let x0 := ((inject_Z w - body_w) / 2)%Q in
    let y0 := ((inject_Z h - body_h) / 2)%Q in
    let x1 := (x0 + body_w)%Q in
    let y1 := (y0 + body_h)%Q in
    let outline := rectangle x0 y0 x1 y1 3 ""%string in
    let tip_w := (body_w * 0.4)%Q in
    let tip_x0 := ((inject_Z w - tip_w) / 2)%Q in
    let tip := rectangle tip_x0 y0 (tip_x0 + tip_w)%Q (y0 - tip_h)%Q 3
                 ""%string in
    if segments c =? 0 then (draw [outline; tip], Some ZeroDivisionError)
    else
      let seg_h := (body_h / inject_Z (segments c))%Q in
      let segment (i : nat) :=
        let seg_y0 := (y1 - seg_h * (inject_Z (Z.of_nat i) + 1))%Q in
        let seg_y1 := (y1 - seg_h * inject_Z (Z.of_nat i))%Q in
        let fill_colour :=
          if Z.of_nat i <? level c then "#22aa22"%string else ""%string in
        rectangle (x0 + 4)%Q (seg_y0 + 4)%Q (x1 - 4)%Q (seg_y1 - 4)%Q 0
          fill_colour in
      (draw ([outline; tip] ++ map segment (seq 0 (Z.to_nat (segments c)))),
       None).

Definition set_level (c : BatteryCanvas) (lvl : Z)
  : BatteryCanvas * option Error :=
  _redraw (mkBatteryCanvas (segments c) (Z.max 0 (Z.min lvl (segments c)))
             (winfo_width c) (winfo_height c) (items c)).

Definition set_score (g : ScoreGUI) (value : Z) : ScoreGUI :=
  mkScoreGUI (battery g) (format_04d value) (laden_lbl g) (entl_lbl g).

Definition set_soc (g : ScoreGUI) (lvl : Z) : ScoreGUI * option Error :=
  let r := set_level (battery g) lvl in
  (mkScoreGUI (fst r) (_score_var g) (laden_lbl g) (entl_lbl g), snd r).

(** The [cfg] dictionary passed to [label.config]. *)
Definition _set_highlight (label : Label) (active : bool) : Label :=
  mkLabel (fg label) (background label) "flat"%string
    (if active then fg label else background label)
    (if active then fg label else background label)
    (if active then 2 else 2).

Definition highlight_laden (g : ScoreGUI) (active : bool) : ScoreGUI :=
  mkScoreGUI (battery g) (_score_var g) (_set_highlight (laden_lbl g) active)
    (entl_lbl g).

Definition highlight_entladen (g : ScoreGUI) (active : bool) : ScoreGUI :=
  mkScoreGUI (battery g) (_score_var g) (laden_lbl g)
    (_set_highlight (entl_lbl g) active).

(** A method call on the display.  An exception in a callback is reported
    by Tk and the event loop goes on, with the attributes as they are. *)
Definition perform_call (g : ScoreGUI) (c : GuiCall) : ScoreGUI :=
  match c with
  | SetScore value => set_score g value
  | SetSoc lvl => fst (set_soc g lvl)
  | HighlightLaden active => highlight_laden g active
  | HighlightEntladen active => highlight_entladen g active
  end.

(** The GUI thread runs the scheduled calls in the order of scheduling. *)
Fixpoint run_gui (calls : list Call) (g : ScoreGUI) : ScoreGUI :=
  match calls with
  | [] => g
  | gui_later c :: rest => run_gui rest (perform_call g c)
  | _ :: rest => run_gui rest g
  end.

End MoonshotGui.

(** ** What the calls leave behind *)

(** The LED function called last for LED [n]: off, r or g. *)
Definition last_led (n : nat) (calls : list Call) : option Color :=
  fold_left (fun acc c =>
               match c with
               | led fn m => if Nat.eqb m n then Some fn else acc
               | _ => acc
               end) calls None.

(** Whether the LED of button [name] was last switched on or off. *)
Definition last_pin (name : Button) (calls : list Call) : option bool :=
  fold_left (fun acc c =>
               match c, name with
               | pin charge on, charge => Some on
               | pin discharge on, discharge => Some on
               | _, _ => acc
               end) calls None.

(** Whether the servo was last told to spin. *)
Definition last_servo (calls : list Call) : option bool :=
  fold_left (fun acc c =>
               match c with
               | servo spin => Some spin
               | _ => acc
               end) calls None.

(** What an LED command leaves lit. *)
Definition lit (command : Color * bool) : Color :=
  if snd command then fst command else off.

(** A label carries its highlight: the border has the text colour. *)
Definition highlighted (label : Label) : bool :=
  String.eqb (highlightbackground label) (fg label).

(** The calls and the display reflect a panel. *)
Definition mirrors (p : Panel) (calls : list Call) (g : ScoreGUI) : Prop :=
  (forall i, (i < Gamepi.NUM_SENSORS)%nat ->
     last_led (S i) calls = Some (lit (nth i (sensor_leds p) (off, false)))) /\
  last_pin charge calls = Some (charge_led p) /\
  last_pin discharge calls = Some (discharge_led p) /\
  last_servo calls = Some (windmill p) /\
  (forall s, score_shown p = Some s -> _score_var g = format_04d s) /\
  (forall l, soc_shown p = Some l ->
     level (battery g) = Z.max 0 (Z.min l (segments (battery g)))) /\
  highlightbackground (laden_lbl g)
  = (if charge_led p then fg (laden_lbl g) else background (laden_lbl g)) /\
  highlightbackground (entl_lbl g)
  = (if discharge_led p then fg (entl_lbl g) else background (entl_lbl g)).

(** A display as [ScoreGUI.__init__] of [moonshot.py] leaves it, on a
    screen where the battery canvas is 160 by 240 and the default
    background is grey. *)
Definition sample_gui : ScoreGUI :=
  mkScoreGUI (mkBatteryCanvas 10 0 160 240 []) "0000"%string
    (mkLabel "#1976d2"%string "#d9d9d9"%string "flat"%string
       "#d9d9d9"%string "black"%string 0)
    (mkLabel "#cc9900"%string "#d9d9d9"%string "flat"%string
       "#d9d9d9"%string "black"%string 0).

(** ** Leaving the game *)

(** The [except KeyboardInterrupt] block of [main] in [gamepi.py], up to
    its last call, [cleanup()] of [led_controller]. *)
Definition gamepi_tidy_up : M unit :=
  for_range 0 Gamepi.NUM_SENSORS (fun idx => set_led idx off false) ;;
  set_button_led charge false ;;
  set_button_led discharge false ;;
  set_windmill false.

(** The [finally] block of [_game_worker] in [moonshot.py], up to its last
    call, [cleanup()] of [led_controller]. *)
Definition moonshot_tidy_up : M unit :=
  for_range 0 Moonshot.NUM_SENSORS (fun i => set_led i off false) ;;
  set_button_led charge false ;;
  set_button_led discharge false ;;
  set_windmill false.

(** ** A long evening

    Ten rounds in a row.  A round is started with a press of charge; in
    each of its ten polls sensor 0 is active and discharge is pressed and
    released; the clock is read once per action, two seconds after the
    last reading; every LED is drawn red. *)
Definition long_game_env : Env :=
  mkEnv (repeat true 100)
    (concat (repeat ([true; false; false]
                     ++ concat (repeat [false; false; true; false; false] 10))
               10))
    (map (fun k => inject_Z (Z.of_nat k) * 2 + 10)%Q (seq 0 100))
    (repeat false 440).

(** ** The Python stack

    The phase machine runs the methods without their frames.  In Python
    [idle] calls [_start_new_round], which calls [_play_round], which ends
    by calling [idle], directly or through [_full_reset].  Each call is
    the last thing its caller does, but Python keeps the caller's frame
    until the callee returns, and the innermost [idle] loops until it
    makes the next call.  Here is the step of the phase machine again,
    with the frames its calls push, innermost first. *)

Inductive Method : Set :=
| in_idle | in_start_new_round | in_play_round | in_full_reset.

Definition step_stack (p : Phase) (stack : list Method)
  : M (Phase * list Method) :=
  match p with
  | Idle =>
      started <- Gamepi.idle_poll ;;
      if started then
        Gamepi._start_new_round ;;
        ret (Playing None, in_play_round :: in_start_new_round :: stack)
      else ret (Idle, stack)
  | Playing since =>
      n <- gets actions ;;
      if n <? Gamepi.MAX_ACTIONS then
        flow <- Gamepi.play_iteration since ;;
        match flow with
        | Next since' => ret (Playing since', stack)
        | Return => ret (Idle, in_idle :: in_full_reset :: stack)
        end
      else
        Gamepi.idle_enter ;; ret (Idle, in_idle :: stack)
  end.

Fixpoint run_stack (n : nat) (p : Phase) (stack : list Method)
  : M (Phase * list Method) :=
  match n with
  | O => ret (p, stack)
  | S n' => r <- step_stack p stack ;; run_stack n' (fst r) (snd r)
  end.

(** [main] calls [idle] on a fresh game. *)
Definition power_up_stack (n : nat) (e : Env) : Outcome (Phase * list Method) :=
  (Gamepi.idle_enter ;; run_stack n Idle [in_idle])
    (mkWorld Gamepi.__init__ e []).

(** Rounds that are reset: a press and release of charge starts the
    round; no sensor is active; both buttons are found down in the first
    poll and, three seconds later, in the second.  Round [j] reads the
    clock at 6 j and at 6 j + 3 seconds. *)
Definition reset_round_clock (j : nat) : list Q :=
  [inject_Z (Z.of_nat j) * 6; inject_Z (Z.of_nat j) * 6 + 3]%Q.

Definition reset_rounds_env (first rounds : nat) : Env :=
  mkEnv (concat (repeat (repeat false 8) rounds))
    (concat (repeat [true; false; false; true; true; true; true] rounds))
    (flat_map reset_round_clock (seq first rounds))
    (concat (repeat (repeat false 4) rounds)).

(** ** Clock readings and the room for calls *)

(** A clock reading as [time.time()] returns it these decades, or the 0.0
    of a fresh timestamp: a multiple of 2^-22 s (the spacing of binary64
    between 2^30 and 2^31) below 2^31 s.  The difference of two such
    readings is exact in binary64, and so are the tests against 1.0 and
    3.0, which on them decide as the tests on rationals do. *)
Definition clock_reading (t : Q) : bool :=
  (0 <=? Qnum t)
  && ((Qnum t * 2 ^ 22) mod Z.pos (Qden t) =? 0)
  && (Qnum t * 2 ^ 22 / Z.pos (Qden t) <? 2 ^ 53).

(** What a step comes to when calls can run out of room. *)
Inductive Limited (A : Type) : Type :=
| Within (o : Outcome A)
| TooDeep.

Arguments Within {A} o.
Arguments TooDeep {A}.

(** Python raises RecursionError on a call that finds too many calls
    open.  Let [limit] calls of the four methods be able to be open with
    room left for every call they make in turn.  A step that ends with at
    most [limit] of them open runs as [step_stack] says; of a step that
    would end with more, nothing is said: RecursionError is raised
    somewhere inside it. *)
Definition step_limited (limit : nat) (p : Phase) (stack : list Method)
  : World -> Limited (Phase * list Method) :=
  fun w =>
    match step_stack p stack w with
    | Done r w' =>
        if (length (snd r) <=? limit)%nat then Within (Done r w') else TooDeep
    | Starved => Within Starved
    | Raised e => Within (Raised e)
    end.

(** ** The calls of a round *)









(** ** Counting the accepted actions of a round *)







(** ** The combo check *)


(** The world in which the combo check of the poll from [w] runs: after
    the sensor scan and the two button LED commands. *)
Definition at_combo_check (w : World) : option (option nat * World) :=
  match Gamepi._get_active_sensor w with
  | Done active w1 =>
      let any_active := match active with Some _ => true | None => false end in
      Some (active, log_more [SetButtonLed charge any_active;
                              SetButtonLed discharge any_active] w1)
  | _ => None
  end.






(** What the frame rules ask of a relation. *)
Class Frame (R : World -> World -> Prop) : Prop := {
  frame_refl : forall w, R w w;
  frame_trans : forall w1 w2 w3, R w1 w2 -> R w2 w3 -> R w1 w3
}.

(** * Reasoning about computations *)

Lemma bind_Done {A B} (m : M A) (k : A -> M B) w b w' :
  bind m k w = Done b w' ->
  exists a w1, m w = Done a w1 /\ k a w1 = Done b w'.
Proof.
  unfold bind. destruct (m w) as [a w1| |e]; try discriminate.
  intros H. exists a, w1. split; [reflexivity | exact H].
Qed.

Lemma bind_eq {A B} (m : M A) (k : A -> M B) w a w1 :
  m w = Done a w1 -> bind m k w = k a w1.
Proof. unfold bind. intros ->. reflexivity. Qed.

Lemma Qltb_lt x y : Qltb x y = true <-> (x < y)%Q.
Proof.
  unfold Qltb. rewrite negb_true_iff. split; intros H.
  - apply Qnot_le_lt. intros Hle. apply Qle_bool_iff in Hle. congruence.
  - destruct (Qle_bool y x) eqn:E; [|reflexivity].
    apply Qle_bool_iff in E. exfalso. exact (Qlt_not_le _ _ H E).
Qed.

Lemma Qltb_ge x y : Qltb x y = false <-> (y <= x)%Q.
Proof.
  unfold Qltb. rewrite negb_false_iff. apply Qle_bool_iff.
Qed.

(** ** Frame rules *)

Section Frames.

Context (R : World -> World -> Prop) `{FR : Frame R}.

Lemma respects_ret {A} (a : A) : respects R (ret a).
Proof. intros w a' w' H. inversion H. subst. apply frame_refl. Qed.

Lemma respects_raise {A} e : respects R (@raise A e).
Proof. intros w a w' H. discriminate. Qed.

Lemma respects_bind {A B} (m : M A) (k : A -> M B) :
  respects R m -> (forall a, respects R (k a)) -> respects R (bind m k).
Proof.
  intros Hm Hk w b w' H.
  apply bind_Done in H. destruct H as (a & w1 & H1 & H2).
  eapply frame_trans; [eapply Hm | eapply Hk]; eassumption.
Qed.

Lemma respects_gets {A} (f : Game -> A) : respects R (gets f).
Proof. intros w a w' H. inversion H. subst. apply frame_refl. Qed.

Lemma respects_getitem {A} (l : list A) i : respects R (getitem l i).
Proof.
  unfold getitem. destruct (nth_error l i).
  - apply respects_ret.
  - apply respects_raise.
Qed.

Lemma respects_if {A} (c : bool) (m1 m2 : M A) :
  respects R m1 -> respects R m2 -> respects R (if c then m1 else m2).
Proof. destruct c; auto. Qed.

Lemma respects_LED_COLOR v : respects R (Gamepi.LED_COLOR v).
Proof.
  unfold Gamepi.LED_COLOR.
  repeat apply respects_if; auto using respects_ret, @respects_raise.
Qed.

Lemma respects_for_range body :
  (forall i, respects R (body i)) ->
  forall n start, respects R (for_range start n body).
Proof.
  intros Hb. induction n as [|n IH]; intros start; simpl.
  - apply respects_ret.
  - apply respects_bind; auto.
Qed.

Lemma respects_for_enumerate {A} (body : nat -> A -> M unit) :
  (forall i x, respects R (body i x)) ->
  forall l idx, respects R (for_enumerate idx l body).
Proof.
  intros Hb. induction l as [|x l IH]; intros idx; simpl.
  - apply respects_ret.
  - apply respects_bind; auto.
Qed.

Lemma respects_comprehension {A} (elem : M A) :
  respects R elem -> forall n, respects R (comprehension n elem).
Proof.
  intros He. induction n as [|n IH]; simpl.
  - apply respects_ret.
  - apply respects_bind; [assumption|]. intros x.
    apply respects_bind; [assumption|]. intros xs. apply respects_ret.
Qed.

Lemma respects_wait_release_loop :
  (forall n, respects R (read_button n)) ->
  respects R (time_sleep 0.01) ->
  forall fuel, respects R (wait_release_loop fuel).
Proof.
  intros Hr Hs. induction fuel as [|fuel IH]; simpl.
  - intros w a w' H. discriminate.
  - apply respects_bind; [apply Hr|]. intros c.
    apply respects_bind.
    + destruct c; [apply respects_ret | apply Hr].
    + intros held. destruct held; [|apply respects_ret].
      apply respects_bind; auto.
Qed.

Lemma respects_wait_release :
  (forall n, respects R (read_button n)) ->
  respects R (time_sleep 0.01) -> respects R wait_release.
Proof.
  intros Hr Hs w a w' H. unfold wait_release in H.
  eapply respects_wait_release_loop; eassumption.
Qed.

End Frames.

(** ** The relations in use *)

Lemma spins_app l1 l2 : spins (l1 ++ l2) = (spins l1 + spins l2)%nat.
Proof.
  induction l1 as [|o l1 IH]; simpl; [reflexivity|].
  destruct o as [| |[|]| | |]; simpl; rewrite IH; reflexivity.
Qed.

#[export] Instance keeps_game_frame : Frame keeps_game.
Proof. split; unfold keeps_game; intros; congruence. Qed.

#[export] Instance keeps_log_frame : Frame keeps_log.
Proof. split; unfold keeps_log; intros; congruence. Qed.

#[export] Instance keeps_round_frame : Frame keeps_round.
Proof.
  split; unfold keeps_round.
  - intros w. repeat split; reflexivity.
  - intros w1 w2 w3 (A1 & A2 & A3 & A4 & A5) (B1 & B2 & B3 & B4 & B5).
    repeat split; congruence.
Qed.

#[export] Instance keeps_spins_frame : Frame keeps_spins.
Proof. split; unfold keeps_spins; intros; congruence. Qed.

(** A primitive is checked by running it. *)
Ltac run_primitive :=
  let H := fresh "H" in
  intros [[? ? ? ? ? ?] [? ? ? ?] ?] ? ? H;
  unfold set_led, set_button_led, set_windmill, update_score_display,
    update_soc_display, time_sleep, emit, modify, read_sensor, read_button,
    time_time, random_randint_0_1 in H;
  simpl in H;
  repeat match type of H with
         | context [match ?l with _ => _ end] => destruct l; try discriminate
         end;
  inversion H; subst; clear H;
  unfold keeps_game, keeps_log, keeps_round, keeps_spins;
  simpl; rewrite ?spins_app; simpl; auto with arith.

Ltac frame :=
  lazymatch goal with
  | |- respects ?R ?m =>
      let F := constr:(_ : Frame R) in
      lazymatch m with
      | bind _ _ => apply (@respects_bind R F); [frame | intros ?; frame]
      | ret _ => apply (@respects_ret R F)
      | raise _ => apply (@respects_raise R)
      | gets _ => apply (@respects_gets R F)
      | getitem _ _ => apply (@respects_getitem R F)
      | Gamepi.LED_COLOR _ => apply (@respects_LED_COLOR R F)
      | for_range _ _ _ =>
          apply (@respects_for_range R F); intros ?; frame
      | for_enumerate _ _ _ =>
          apply (@respects_for_enumerate R F); intros ? ?; frame
      | comprehension _ _ => apply (@respects_comprehension R F); frame
      | wait_release =>
          apply (@respects_wait_release R F); [intros ?; frame | frame]
      | (if ?c then _ else _) => destruct c; frame
      | (match ?x with _ => _ end) => destruct x; frame
      | _ => first [solve [auto] | solve [run_primitive]]
      end
  end.

(** ** Frames of the methods of [gamepi.py] *)

Lemma first_active_respects R `{Frame R} :
  (forall i, respects R (read_sensor i)) ->
  forall n idx, respects R (Gamepi.first_active idx n).
Proof.
  intros Hr. induction n as [|n IH]; intros idx; simpl; frame.
Qed.

Lemma get_active_sensor_respects R `{Frame R} :
  (forall i, respects R (read_sensor i)) ->
  respects R Gamepi._get_active_sensor.
Proof. intros Hr. apply first_active_respects; assumption. Qed.

Lemma wait_release_game : respects keeps_game wait_release.
Proof. frame. Qed.

Lemma wait_release_spins : respects keeps_spins wait_release.
Proof. frame. Qed.

Lemma randomise_leds_round : respects keeps_round Gamepi._randomise_leds.
Proof. unfold Gamepi._randomise_leds. frame. Qed.

Lemma randomise_leds_spins : respects keeps_spins Gamepi._randomise_leds.
Proof. unfold Gamepi._randomise_leds. frame. Qed.

Lemma comprehension_randint_binary n :
  forall w vals w',
    comprehension n random_randint_0_1 w = Done vals w' ->
    Forall binary vals /\ length vals = n.
Proof.
  induction n as [|n IH]; simpl; intros w vals w' H.
  - inversion H. split; [constructor | reflexivity].
  - apply bind_Done in H. destruct H as (x & w1 & Hx & H).
    apply bind_Done in H. destruct H as (xs & w2 & Hxs & H).
    inversion H; subst. apply IH in Hxs. destruct Hxs as [Hb Hl].
    split; [|simpl; congruence].
    constructor; [|assumption].
    unfold random_randint_0_1 in Hx.
    destruct (random_tape (env w)) as [|[|] r]; inversion Hx;
      [right | left]; reflexivity.
Qed.

Lemma randomise_leds_binary w w' :
  Gamepi._randomise_leds w = Done tt w' ->
  Forall binary (led_values (game w')).
Proof.
  unfold Gamepi._randomise_leds. intros H.
  apply bind_Done in H. destruct H as (vals & w1 & Hv & H).
  apply bind_Done in H. destruct H as ([] & w2 & Hm & H).
  apply comprehension_randint_binary in Hv.
  assert (K : respects keeps_game
                (for_enumerate 0 vals
                   (fun idx val =>
                      color <- Gamepi.LED_COLOR val ;; set_led idx color true)))
    by frame.
  apply K in H. red in H. rewrite H.
  unfold modify in Hm. inversion Hm. simpl. tauto.
Qed.

Lemma spin_windmill_briefly_run w :
  Gamepi._spin_windmill_briefly w =
  Done tt (mkWorld (game w) (env w)
             (out w ++ [SetWindmill true; Sleep 0.2; SetWindmill false])).
Proof.
  destruct w as [g e o]. unfold Gamepi._spin_windmill_briefly.
  unfold bind, set_windmill, time_sleep, emit; simpl.
  rewrite <- !app_assoc. reflexivity.
Qed.

(** The tail of an accepted action: feedback, fresh LEDs, release wait. *)
Lemma action_tail w w' :
  (Gamepi._spin_windmill_briefly ;; Gamepi._randomise_leds ;; wait_release) w
  = Done tt w' ->
  keeps_round w w' /\
  Forall binary (led_values (game w')) /\
  spins (out w') = S (spins (out w)).
Proof.
  intros H. rewrite (bind_eq _ _ _ _ _ (spin_windmill_briefly_run w)) in H.
  apply bind_Done in H. destruct H as ([] & w1 & Hr & Hw).
  pose proof (randomise_leds_round _ _ _ Hr) as R1.
  pose proof (randomise_leds_spins _ _ _ Hr) as S1.
  pose proof (randomise_leds_binary _ _ Hr) as B1.
  pose proof (wait_release_game _ _ _ Hw) as G2.
  pose proof (wait_release_spins _ _ _ Hw) as S2.
  red in G2, S1, S2. simpl in S1. rewrite spins_app in S1. simpl in S1.
  split; [|split].
  - destruct R1 as (A1 & A2 & A3 & A4 & A5). simpl in *.
    red. rewrite G2. tauto.
  - rewrite G2. assumption.
  - rewrite S2, S1. lia.
Qed.

Arguments Gamepi._randomise_leds : simpl never.
Arguments Gamepi._spin_windmill_briefly : simpl never.
Arguments wait_release : simpl never.
Arguments Qltb : simpl never.
Arguments Qle_bool : simpl never.
Arguments Qminus : simpl never.
Arguments Z.add : simpl never.
Arguments Z.sub : simpl never.
Arguments Z.min : simpl never.
Arguments Z.max : simpl never.
Arguments Z.ltb : simpl never.

(** The same-sensor cooldown: the call returns at once. *)
Lemma handle_action_rejected sensor_idx button w now rest last_ts :
  clock_tape (env w) = now :: rest ->
  nth_error (last_action_ts (game w)) sensor_idx = Some last_ts ->
  (now - last_ts < 1)%Q ->
  Gamepi._handle_action sensor_idx button w = Done tt (drop_clock 1 w).
Proof.
  destruct w as [[sc ac so ls ts leds] [st bt ct rt] o]; simpl.
  intros -> Hts Hlt.
  unfold Gamepi._handle_action, drop_clock; simpl.
  unfold bind at 1; simpl. unfold bind at 1; simpl.
  unfold bind at 1, getitem at 1; simpl. rewrite Hts; simpl.
  assert (E : Qltb (now - last_ts) 1.0 = true)
    by (apply Qltb_lt; lra).
  rewrite E. reflexivity.
Qed.

(** An action that passes the cooldown. *)
Lemma handle_action_accepted sensor_idx button w now rest last_ts w' :
  clock_tape (env w) = now :: rest ->
  nth_error (last_action_ts (game w)) sensor_idx = Some last_ts ->
  (1 <= now - last_ts)%Q ->
  Gamepi._handle_action sensor_idx button w = Done tt w' ->
  exists led_value score_delta soc_change,
    nth_error (led_values (game w)) sensor_idx = Some led_value /\
    delta_table (if led_value =? 0 then 0 else 1) button sensor_idx
      = Some (score_delta, soc_change) /\
    score (game w') = score (game w) + score_delta /\
    actions (game w') = actions (game w) + 1 /\
    soc (game w') =
      clamp (soc (game w) + soc_change
             - switch_penalty (last_sensor (game w)) sensor_idx)
        0 Gamepi.SOC_LEVELS /\
    last_sensor (game w') = Some sensor_idx /\
    last_action_ts (game w') =
      setitem (last_action_ts (game w)) sensor_idx now /\
    Forall binary (led_values (game w')) /\
    spins (out w') = S (spins (out w)).
Proof.
  destruct w as [[sc ac so ls ts leds] [st bt ct rt] o]; simpl.
  intros -> Hts Hge H.
  unfold Gamepi._handle_action in H; simpl in H.
  unfold bind at 1 in H; simpl in H. unfold bind at 1 in H; simpl in H.
  unfold bind at 1, getitem at 1 in H; simpl in H. rewrite Hts in H;
    simpl in H.
  assert (E : Qltb (now - last_ts) 1.0 = false)
    by (apply Qltb_ge; lra).
  rewrite E in H.
  unfold bind at 1 in H; simpl in H. unfold bind at 1 in H; simpl in H.
  unfold bind at 1, getitem at 1 in H; simpl in H.
  destruct (nth_error leds sensor_idx) as [led_value|] eqn:Hled;
    [|discriminate].
  simpl in H.
  assert (T : forall score_delta soc_change,
    (last <- gets last_sensor ;;
     modify (fun g => mkGame (score g) (actions g) (soc g) (Some sensor_idx)
                             (last_action_ts g) (led_values g)) ;;
     modify (fun g => mkGame (score g) (actions g + 1) (soc g)
                             (last_sensor g) (last_action_ts g)
                             (led_values g)) ;;
     modify (fun g => mkGame (score g + score_delta) (actions g) (soc g)
                             (last_sensor g) (last_action_ts g)
                             (led_values g)) ;;
     modify (fun g => mkGame (score g) (actions g)
               (Z.max 0 (Z.min Gamepi.SOC_LEVELS (soc g +
                  match last with
                  | Some l => if Nat.eqb l sensor_idx then soc_change
                              else soc_change - 1
                  | None => soc_change
                  end)))
               (last_sensor g) (last_action_ts g) (led_values g)) ;;
     s <- gets score ;; update_score_display s ;;
     c <- gets soc ;; update_soc_display c ;;
     Gamepi._spin_windmill_briefly ;; Gamepi._randomise_leds ;;
     wait_release)
      (mkWorld (mkGame sc ac so ls (setitem ts sensor_idx now) leds)
         (mkEnv st bt rest rt) o) = Done tt w' ->
    score (game w') = sc + score_delta /\
    actions (game w') = ac + 1 /\
    soc (game w') =
      clamp (so + soc_change - switch_penalty ls sensor_idx) 0 Gamepi.SOC_LEVELS /\
    last_sensor (game w') = Some sensor_idx /\
    last_action_ts (game w') = setitem ts sensor_idx now /\
    Forall binary (led_values (game w')) /\
    spins (out w') = S (spins o)).
  { intros score_delta soc_change K.
    unfold bind at 1 in K; simpl in K.
    do 8 (unfold bind at 1 in K; simpl in K).
    apply action_tail in K. destruct K as ((A1 & A2 & A3 & A4 & A5) & B & S).
    simpl in *. rewrite !spins_app in S. simpl in S.
    rewrite A1, A2, A3, A4, A5. repeat split; try assumption.
    - unfold clamp, switch_penalty. f_equal. f_equal.
      destruct ls as [l|]; [destruct (Nat.eqb l sensor_idx)|]; lia.
    - lia. }
  exists led_value.
  unfold bind at 1 in H.
  destruct (led_value =? 0) eqn:Ez; destruct button; simpl in H.
  all: unfold delta_table.
  all: try (unfold bind at 1, getitem at 1 in H; unfold Gamepi.SOC_INCREMENT in H;
            destruct (nth_error [2; 3; 4; 2] sensor_idx) as [inc|] eqn:Hinc;
            [|discriminate]; simpl in H).
  - exists 5, inc. split; [reflexivity|]. split; [reflexivity|].
    apply T. exact H.
  - exists 100, (-1). split; [reflexivity|]. split; [reflexivity|].
    apply T. exact H.
  - exists 50, inc. split; [reflexivity|]. split; [reflexivity|].
    apply T. exact H.
  - exists 5, 0. split; [reflexivity|]. split; [reflexivity|].
    apply T. exact H.
Qed.

#[export] Instance keeps_but_sensors_frame : Frame keeps_but_sensors.
Proof.
  split; unfold keeps_but_sensors.
  - intros w. repeat split; reflexivity.
  - intros w1 w2 w3 (A1 & A2 & A3 & A4 & A5) (B1 & B2 & B3 & B4 & B5).
    repeat split; congruence.
Qed.

Lemma get_active_sensor_only_sensors :
  respects keeps_but_sensors Gamepi._get_active_sensor.
Proof.
  apply get_active_sensor_respects; [typeclasses eauto|].
  intros i [g [st bt ct rt] o] a w'. unfold read_sensor; simpl.
  destruct st; [discriminate|]. intros H. inversion H.
  unfold keeps_but_sensors; simpl. repeat split; reflexivity.
Qed.

(** Four sensor readings are all a poll can take. *)
Lemma first_active_returns n :
  forall idx w, (n <= length (sensor_tape (env w)))%nat ->
    exists a w', Gamepi.first_active idx n w = Done a w'.
Proof.
  induction n as [|n IH]; intros idx [g [st bt ct rt] o]; simpl; intros Hl.
  - eexists _, _. reflexivity.
  - destruct st as [|b st]; simpl in Hl; [lia|].
    unfold bind at 1, read_sensor; simpl.
    destruct b; [eexists _, _; reflexivity|].
    apply IH. simpl. lia.
Qed.

Lemma get_active_sensor_returns w :
  (4 <= length (sensor_tape (env w)))%nat ->
  exists a w', Gamepi._get_active_sensor w = Done a w'.
Proof. apply first_active_returns. Qed.

Lemma idle_enter_run w :
  Gamepi.idle_enter w =
  Done tt (log_more (idle_commands (score (game w))) w).
Proof.
  destruct w as [g e o]. unfold Gamepi.idle_enter, log_more, idle_commands.
  unfold bind, set_led, set_button_led, set_windmill, update_score_display,
    gets, emit; simpl.
  rewrite <- !app_assoc. reflexivity.
Qed.

Lemma full_reset_run w :
  Gamepi._full_reset w = Done tt (log_more (idle_commands 0) (zero_score w)).
Proof.
  unfold Gamepi._full_reset. unfold bind at 1, modify.
  rewrite idle_enter_run. reflexivity.
Qed.

(** ** Actions *)

Lemma handle_action_cases sensor_idx button w w' :
  Gamepi._handle_action sensor_idx button w = Done tt w' ->
  exists now rest last_ts,
    clock_tape (env w) = now :: rest /\
    nth_error (last_action_ts (game w)) sensor_idx = Some last_ts /\
    ((now - last_ts < 1)%Q \/ (1 <= now - last_ts)%Q).
Proof.
  intros H. unfold Gamepi._handle_action in H.
  apply bind_Done in H. destruct H as (now & w1 & Hn & H).
  apply bind_Done in H. destruct H as (ts & w2 & Hts & H).
  apply bind_Done in H. destruct H as (last_ts & w3 & Hl & _).
  unfold time_time in Hn.
  destruct (clock_tape (env w)) as [|t rest] eqn:Hc; [discriminate|].
  inversion Hn; subst. unfold gets in Hts. inversion Hts; subst.
  simpl in Hl. unfold getitem in Hl.
  destruct (nth_error (last_action_ts (game w)) sensor_idx) as [x|] eqn:E;
    [|discriminate].
  exists now, rest, x. repeat split; try reflexivity.
  destruct (Qlt_le_dec (now - x) 1); [left | right]; assumption.
Qed.

Lemma delta_table_scores led button sensor_idx score_delta soc_change :
  delta_table led button sensor_idx = Some (score_delta, soc_change) ->
  score_delta = 5 \/ score_delta = 50 \/ score_delta = 100.
Proof.
  unfold delta_table.
  destruct led as [|[| |]|]; destruct button; try discriminate;
    try (destruct (nth_error [2; 3; 4; 2] sensor_idx); simpl;
         try discriminate);
    intros H; inversion H; auto.
Qed.

Lemma clamp_bounds x lo hi : lo <= hi -> lo <= clamp x lo hi <= hi.
Proof. unfold clamp. lia. Qed.

Lemma handle_action_effect sensor_idx button w w' :
  Gamepi._handle_action sensor_idx button w = Done tt w' ->
  untouched w w' \/ one_action w w'.
Proof.
  intros H. destruct (handle_action_cases _ _ _ _ H)
    as (now & rest & last_ts & Hc & Hts & [Hlt | Hge]).
  - left. rewrite (handle_action_rejected _ _ _ _ _ _ Hc Hts Hlt) in H.
    inversion H. split; reflexivity.
  - right.
    destruct (handle_action_accepted _ _ _ _ _ _ _ Hc Hts Hge H)
      as (led & sd & cd & _ & Ht & Hs & Ha & Hso & _ & _ & _ & Hsp).
    unfold one_action. repeat split; try assumption.
    + rewrite Hs. apply delta_table_scores in Ht.
      destruct Ht as [-> | [-> | ->]]; auto.
    + rewrite Hso. apply clamp_bounds. unfold Gamepi.SOC_LEVELS. lia.
    + rewrite Hso. apply clamp_bounds. unfold Gamepi.SOC_LEVELS. lia.
Qed.

Lemma untouched_after_reads w1 w2 w3 :
  keeps_game w1 w2 -> keeps_log w1 w2 ->
  untouched w2 w3 \/ one_action w2 w3 ->
  untouched w1 w3 \/ one_action w1 w3.
Proof.
  unfold keeps_game, keeps_log, untouched, one_action.
  intros G L. rewrite G, L. tauto.
Qed.

Lemma read_button_game name : respects keeps_game (read_button name).
Proof. frame. Qed.

Lemma read_button_log name : respects keeps_log (read_button name).
Proof. frame. Qed.

Lemma user_action_effect active w w' :
  Gamepi.user_action active w = Done tt w' ->
  untouched w w' \/ one_action w w'.
Proof.
  unfold Gamepi.user_action. destruct active as [a|].
  - intros H. apply bind_Done in H. destruct H as (c & w1 & Hc & H).
    pose proof (read_button_game _ _ _ _ Hc) as G1.
    pose proof (read_button_log _ _ _ _ Hc) as L1.
    destruct c.
    + eapply untouched_after_reads; eauto using handle_action_effect.
    + apply bind_Done in H. destruct H as (d & w2 & Hd & H).
      pose proof (read_button_game _ _ _ _ Hd) as G2.
      pose proof (read_button_log _ _ _ _ Hd) as L2.
      eapply untouched_after_reads; [eassumption..|].
      eapply untouched_after_reads; [eassumption..|].
      destruct d.
      * eauto using handle_action_effect.
      * inversion H. left. split; reflexivity.
  - intros H. inversion H. left. split; reflexivity.
Qed.

(** ** The reset combo *)

Lemma reset_combo_started w bt t ct :
  button_tape (env w) = true :: true :: bt ->
  clock_tape (env w) = t :: ct ->
  Gamepi.reset_combo None w
  = Done (Next (Some t)) (drop_clock 1 (drop_buttons 2 w)).
Proof.
  destruct w as [g [st b c rt] o]; simpl. intros -> ->. reflexivity.
Qed.

Lemma reset_combo_running w bt t ct since :
  button_tape (env w) = true :: true :: bt ->
  clock_tape (env w) = t :: ct ->
  (t - since < 3)%Q ->
  Gamepi.reset_combo (Some since) w
  = Done (Next (Some since)) (drop_clock 1 (drop_buttons 2 w)).
Proof.
  destruct w as [g [st b c rt] o]; simpl. intros -> -> Hlt.
  unfold Gamepi.reset_combo, drop_clock, drop_buttons; simpl.
  unfold bind at 1, read_button; simpl.
  unfold bind at 1; simpl. unfold bind at 1, time_time; simpl.
  assert (E : Qle_bool 3.0 (t - since) = false).
  { destruct (Qle_bool 3.0 (t - since)) eqn:E; [|reflexivity].
    apply Qle_bool_iff in E. lra. }
  rewrite E. reflexivity.
Qed.

Lemma reset_combo_expired w bt t ct since :
  button_tape (env w) = true :: true :: bt ->
  clock_tape (env w) = t :: ct ->
  (3 <= t - since)%Q ->
  Gamepi.reset_combo (Some since) w
  = Done Return
      (log_more (idle_commands 0)
         (zero_score (drop_clock 1 (drop_buttons 2 w)))).
Proof.
  destruct w as [g [st b c rt] o]; simpl. intros -> -> Hge.
  unfold Gamepi.reset_combo, drop_clock, drop_buttons; simpl.
  unfold bind at 1, read_button; simpl.
  unfold bind at 1; simpl. unfold bind at 1, time_time; simpl.
  assert (E : Qle_bool 3.0 (t - since) = true)
    by (apply Qle_bool_iff; lra).
  rewrite E. unfold bind at 1. rewrite full_reset_run. reflexivity.
Qed.


(** Whatever the readings, a combo check that falls through leaves the
    game and the log alone; one that returns has reset the score after
    3 s of both buttons. *)
Lemma reset_combo_inv since w flow w' :
  Gamepi.reset_combo since w = Done flow w' ->
  match flow with
  | Next since' => game w' = game w /\ out w' = out w
  | Return =>
      exists s bt t ct,
        since = Some s /\
        button_tape (env w) = true :: true :: bt /\
        clock_tape (env w) = t :: ct /\
        (3 <= t - s)%Q /\
        w' = log_more (idle_commands 0)
               (zero_score (drop_clock 1 (drop_buttons 2 w)))
  end.
Proof.
  destruct w as [g [st b c rt] o].
  destruct b as [|[|] [|[|] bt]].
  1-2, 4-7: intros H; vm_compute in H; try discriminate;
    inversion H; subst; split; reflexivity.
  destruct c as [|t ct]; [destruct since; intros H; vm_compute in H; discriminate|].
  destruct since as [s|].
  - destruct (Qlt_le_dec (t - s) 3) as [Hlt | Hge].
    + erewrite reset_combo_running by (try reflexivity; assumption).
      intros H. inversion H; subst. split; reflexivity.
    + erewrite reset_combo_expired by (try reflexivity; assumption).
      intros H. inversion H; subst.
      exists s, bt, t, ct. repeat split; try reflexivity. assumption.
  - erewrite reset_combo_started by reflexivity.
    intros H. inversion H; subst. split; reflexivity.
Qed.

(** ** One iteration of the play loop *)

Lemma play_iteration_eq since w active w1 :
  Gamepi._get_active_sensor w = Done active w1 ->
  Gamepi.play_iteration since w =
  (flow <- Gamepi.reset_combo since ;;
   match flow with
   | Return => ret Return
   | Next since' =>
       Gamepi.user_action active ;; time_sleep 0.01 ;; ret (Next since')
   end)
    (log_more
       [SetButtonLed charge (match active with Some _ => true | None => false end);
        SetButtonLed discharge (match active with Some _ => true | None => false end)]
       w1).
Proof.
  intros Ha. unfold Gamepi.play_iteration.
  rewrite (bind_eq _ _ _ _ _ Ha).
  destruct w1 as [g e o]. unfold log_more; simpl.
  unfold bind at 1, set_button_led, emit; simpl.
  unfold bind at 1; simpl. rewrite <- app_assoc. reflexivity.
Qed.

Lemma play_iteration_inv since w flow w' :
  Gamepi.play_iteration since w = Done flow w' ->
  exists active w1 w2 fl w3,
    Gamepi._get_active_sensor w = Done active w1 /\
    keeps_but_sensors w w1 /\
    game w2 = game w /\ spins (out w2) = spins (out w) /\
    button_tape (env w2) = button_tape (env w) /\
    clock_tape (env w2) = clock_tape (env w) /\
    Gamepi.reset_combo since w2 = Done fl w3 /\
    match fl with
    | Return => flow = Return /\ w' = w3
    | Next since' =>
        flow = Next since' /\
        exists w4, Gamepi.user_action active w3 = Done tt w4 /\
                   w' = log_more [Sleep 0.01] w4
    end.
Proof.
  intros H.
  destruct (Gamepi._get_active_sensor w) as [active w1| |] eqn:Ha;
    try (unfold Gamepi.play_iteration, bind in H; rewrite Ha in H;
         discriminate).
  rewrite (play_iteration_eq _ _ _ _ Ha) in H.
  pose proof (get_active_sensor_only_sensors _ _ _ Ha) as K.
  apply bind_Done in H. destruct H as (fl & w3 & Hc & H).
  match type of Hc with
  | Gamepi.reset_combo _ ?w2 = _ => exists active, w1, w2, fl, w3
  end.
  split; [reflexivity|].
  split; [assumption|]. destruct K as (K1 & K2 & K3 & K4 & K5).
  split; [exact K1|]. split.
  { unfold log_more; simpl. rewrite spins_app, K2.
    destruct active; simpl; lia. }
  split; [exact K3|]. split; [exact K4|]. split; [exact Hc|].
  destruct fl as [since'|].
  - apply bind_Done in H. destruct H as ([] & w4 & Hu & H).
    split; [|exists w4; split; [assumption|]].
    + unfold bind, time_sleep, emit, ret in H. inversion H. reflexivity.
    + unfold bind, time_sleep, emit, ret in H. inversion H. reflexivity.
  - inversion H. split; reflexivity.
Qed.

(** ** Actions return when the inputs arrive *)

(** More fuel than button readings never changes the wait. *)
Lemma wait_release_loop_fuel n :
  forall m w,
    (length (button_tape (env w)) < n)%nat ->
    (length (button_tape (env w)) < m)%nat ->
    wait_release_loop n w = wait_release_loop m w.
Proof.
  induction n as [|n IH]; intros m w Hn Hm; [lia|].
  destruct m as [|m]; [lia|].
  destruct w as [g [st bt ct rt] o]; simpl in Hn, Hm.
  cbn [wait_release_loop]. unfold bind, read_button, ret, time_sleep, emit.
  cbn [button_tape env game out sensor_tape clock_tape random_tape].
  destruct bt as [|c bt]; [reflexivity|]. simpl in Hn, Hm.
  destruct c.
  - apply IH; simpl; lia.
  - cbn [button_tape env game out sensor_tape clock_tape random_tape].
    destruct bt as [|d bt]; [reflexivity|]. simpl in Hn, Hm.
    destruct d; [|reflexivity].
    apply IH; simpl; lia.
Qed.

Lemma wait_release_fuel n w :
  (length (button_tape (env w)) < n)%nat ->
  wait_release_loop n w = wait_release w.
Proof.
  intros Hn. unfold wait_release. apply wait_release_loop_fuel; [exact Hn | lia].
Qed.


Lemma randomise_leds_run g st b c r0 r1 r2 r3 rt o :
  Gamepi._randomise_leds (mkWorld g (mkEnv st b c (r0 :: r1 :: r2 :: r3 :: rt)) o)
  = Done tt
      (mkWorld
         (mkGame (score g) (actions g) (soc g) (last_sensor g)
            (last_action_ts g) [Z.b2z r0; Z.b2z r1; Z.b2z r2; Z.b2z r3])
         (mkEnv st b c rt)
         (o ++ [SetLed 0 (led_color r0) true; SetLed 1 (led_color r1) true;
                SetLed 2 (led_color r2) true; SetLed 3 (led_color r3) true])).
Proof.
  unfold Gamepi._randomise_leds, Gamepi.NUM_SENSORS.
  unfold bind at 1. unfold comprehension, bind, random_randint_0_1, ret.
  cbn [random_tape env game out sensor_tape button_tape clock_tape].
  unfold modify, for_enumerate, set_led, emit, ret.
  cbn [random_tape env game out sensor_tape button_tape clock_tape].
  destruct r0, r1, r2, r3;
    cbn [Gamepi.LED_COLOR Z.b2z Z.eqb Pos.eqb ret raise led_color
         game env out];
    unfold bind; cbn [game env out];
    rewrite <- !app_assoc; reflexivity.
Qed.




Lemma nth_error_setitem {A} (l : list A) i x y :
  nth_error l i = Some y -> nth_error (setitem l i x) i = Some x.
Proof.
  revert i. induction l as [|h t IH]; intros [|i]; simpl;
    try discriminate; auto.
Qed.

(** The timestamp a sensor's cooldown is measured from is the clock
    reading of its last accepted action. *)
Lemma cooldown_after_accepted_action
    sensor_idx button button' w0 now0 rest0 ts0 w now rest :
  clock_tape (env w0) = now0 :: rest0 ->
  nth_error (last_action_ts (game w0)) sensor_idx = Some ts0 ->
  (1 <= now0 - ts0)%Q ->
  Gamepi._handle_action sensor_idx button w0 = Done tt w ->
  clock_tape (env w) = now :: rest ->
  (now - now0 < 1)%Q ->
  Gamepi._handle_action sensor_idx button' w = Done tt (drop_clock 1 w).
Proof.
  intros Hc0 Hts0 Hge H Hc Hlt.
  destruct (handle_action_accepted _ _ _ _ _ _ _ Hc0 Hts0 Hge H)
    as (_ & _ & _ & _ & _ & _ & _ & _ & _ & T & _).
  eapply handle_action_rejected; try eassumption.
  rewrite T. eapply nth_error_setitem. exact Hts0.
Qed.

(** * The claims *)



(** A finished action leaves a SoC within bounds behind. *)
Lemma handle_action_soc_bounds sensor_idx button w w' :
  0 <= soc (game w) <= Gamepi.SOC_LEVELS ->
  Gamepi._handle_action sensor_idx button w = Done tt w' ->
  0 <= soc (game w') <= Gamepi.SOC_LEVELS.
Proof.
  intros Hb H. destruct (handle_action_effect _ _ _ _ H) as [[G _] | K].
  - rewrite G. exact Hb.
  - destruct K as (_ & _ & _ & K). exact K.
Qed.

Lemma perform_soc_bounds acts :
  forall w w',
    0 <= soc (game w) <= Gamepi.SOC_LEVELS ->
    perform acts w = Done tt w' ->
    0 <= soc (game w') <= Gamepi.SOC_LEVELS.
Proof.
  induction acts as [|[sensor_idx button] acts IH]; simpl; intros w w' Hb H.
  - inversion H; subst. exact Hb.
  - apply bind_Done in H. destruct H as ([] & w1 & H1 & H2).
    eapply IH; [|exact H2]. eapply handle_action_soc_bounds; eassumption.
Qed.

Lemma start_new_round_fields w w' :
  Gamepi._start_new_round w = Done tt w' ->
  score (game w') = score (game w) /\
  actions (game w') = 0 /\
  soc (game w') = 5 /\
  last_sensor (game w') = None /\
  last_action_ts (game w') = [0; 0; 0; 0]%Q /\
  spins (out w') = spins (out w).
Proof.
  intros H. unfold Gamepi._start_new_round in H.
  do 4 (unfold bind at 1 in H; simpl in H).
  apply bind_Done in H. destruct H as ([] & w1 & Hr & H).
  unfold bind, gets, update_soc_display, emit in H. inversion H; subst; clear H.
  pose proof (randomise_leds_round _ _ _ Hr) as (A1 & A2 & A3 & A4 & A5).
  pose proof (randomise_leds_spins _ _ _ Hr) as S1. red in S1.
  simpl in *. rewrite spins_app. simpl.
  repeat split; try assumption. lia.
Qed.

(** C2.  In a round started by [_start_new_round], the SoC lies between 0
    and 10 after any sequence of actions, whichever sensors and buttons
    they use and whether or not the cooldown lets them pass. *)
Theorem C2_soc_within_bounds :
  forall acts w w0 w',
    Gamepi._start_new_round w = Done tt w0 ->
    perform acts w0 = Done tt w' ->
    soc (game w0) = 5 /\ 0 <= soc (game w') <= 10.
Proof.
  intros acts w w0 w' Hs Hp.
  destruct (start_new_round_fields _ _ Hs) as (_ & _ & H5 & _).
  split; [exact H5|].
  change 10 with Gamepi.SOC_LEVELS.
  eapply perform_soc_bounds; [|exact Hp]. rewrite H5.
  unfold Gamepi.SOC_LEVELS. lia.
Qed.

Lemma C2_soc_within_bounds_witness :
  soc (game (after (Gamepi._start_new_round round_world) round_world)) = 5 /\
  0 <= soc (game (after (perform round_actions
                           (after (Gamepi._start_new_round round_world)
                                  round_world))
                        round_world)) <= 10.
Proof.
  apply (C2_soc_within_bounds round_actions round_world).
  - vm_compute. reflexivity.
  - vm_compute. reflexivity.
Defined.

(** C3, as claimed, fails where the clamp bites.  On a full battery a
    charge on sensor 0 ends at 10 both when sensor 0 repeats and when it
    follows sensor 1: the switch costs nothing. *)
Lemma C3_switch_costs_one_counterexample :
  exists w_same w_switch,
    Gamepi._handle_action 0 charge (set_last_sensor (Some 0%nat) full_world)
    = Done tt w_same /\
    Gamepi._handle_action 0 charge (set_last_sensor (Some 1%nat) full_world)
    = Done tt w_switch /\
    soc (game w_same) = 10 /\
    soc (game w_switch) = 10 /\
    soc (game w_switch) <> soc (game w_same) - 1.
Proof.
  eexists _, _. split; [vm_compute; reflexivity|].
  split; [vm_compute; reflexivity|].
  simpl. repeat split. discriminate.
Qed.

(** C3, amended.  Take an accepted action on a sensor, once with
    [last_sensor] equal to that sensor and once with [last_sensor] set to
    another one, all else equal.  With [socDelta] the table value, the
    first run ends at clamp (soc + socDelta) and the second at
    clamp (soc + socDelta - 1): the switch costs exactly one point before
    clamping.  The resulting SoC is 1 lower when soc + socDelta lies in
    1..SOC_LEVELS, and the same when it lies outside. *)
Theorem C3_switch_costs_one_before_clamp :
  forall sensor_idx other button w now rest last_ts w_same w_switch,
    other <> sensor_idx ->
    clock_tape (env w) = now :: rest ->
    nth_error (last_action_ts (game w)) sensor_idx = Some last_ts ->
    (1 <= now - last_ts)%Q ->
    Gamepi._handle_action sensor_idx button
      (set_last_sensor (Some sensor_idx) w) = Done tt w_same ->
    Gamepi._handle_action sensor_idx button
      (set_last_sensor (Some other) w) = Done tt w_switch ->
    exists led_value scoreDelta socDelta,
      nth_error (led_values (game w)) sensor_idx = Some led_value /\
      delta_table (if led_value =? 0 then 0 else 1) button sensor_idx
        = Some (scoreDelta, socDelta) /\
      soc (game w_same)
        = clamp (soc (game w) + socDelta) 0 Gamepi.SOC_LEVELS /\
      soc (game w_switch)
        = clamp (soc (game w) + socDelta - 1) 0 Gamepi.SOC_LEVELS /\
      (1 <= soc (game w) + socDelta <= Gamepi.SOC_LEVELS ->
       soc (game w_switch) = soc (game w_same) - 1) /\
      (soc (game w) + socDelta < 1 \/
       Gamepi.SOC_LEVELS < soc (game w) + socDelta ->
       soc (game w_switch) = soc (game w_same)).
Proof.
  intros sensor_idx other button w now rest last_ts w_same w_switch
    Hne Hc Hts Hge Hsame Hswitch.
  destruct (handle_action_accepted _ _ (set_last_sensor (Some sensor_idx) w)
              _ _ _ _ Hc Hts Hge Hsame)
    as (led & sd & cd & Hled & Ht & _ & _ & Hso & _).
  destruct (handle_action_accepted _ _ (set_last_sensor (Some other) w)
              _ _ _ _ Hc Hts Hge Hswitch)
    as (led' & sd' & cd' & Hled' & Ht' & _ & _ & Hso' & _).
  simpl in Hled, Hled', Hso, Hso'.
  rewrite Hled in Hled'. inversion Hled'; subst led'.
  rewrite Ht in Ht'. inversion Ht'; subst sd' cd'.
  rewrite Nat.eqb_refl in Hso.
  apply Nat.eqb_neq in Hne. rewrite Hne in Hso'.
  replace (soc (game w) + cd - 0) with (soc (game w) + cd) in Hso by lia.
  exists led, sd, cd. split; [exact Hled|]. split; [exact Ht|].
  split; [exact Hso|]. split; [exact Hso'|].
  rewrite Hso, Hso'. unfold clamp, Gamepi.SOC_LEVELS. split; lia.
Qed.

Lemma C3_switch_costs_one_before_clamp_witness :
  exists led_value scoreDelta socDelta,
    nth_error (led_values (game sample_world)) 0 = Some led_value /\
    delta_table (if led_value =? 0 then 0 else 1) discharge 0
      = Some (scoreDelta, socDelta) /\
    soc (game (after (Gamepi._handle_action 0 discharge
                        (set_last_sensor (Some 0%nat) sample_world))
                     sample_world))
      = clamp (soc (game sample_world) + socDelta) 0 Gamepi.SOC_LEVELS /\
    soc (game (after (Gamepi._handle_action 0 discharge
                        (set_last_sensor (Some 3%nat) sample_world))
                     sample_world))
      = clamp (soc (game sample_world) + socDelta - 1) 0 Gamepi.SOC_LEVELS /\
    (1 <= soc (game sample_world) + socDelta <= Gamepi.SOC_LEVELS ->
     soc (game (after (Gamepi._handle_action 0 discharge
                         (set_last_sensor (Some 3%nat) sample_world))
                      sample_world))
     = soc (game (after (Gamepi._handle_action 0 discharge
                           (set_last_sensor (Some 0%nat) sample_world))
                        sample_world)) - 1) /\
    (soc (game sample_world) + socDelta < 1 \/
     Gamepi.SOC_LEVELS < soc (game sample_world) + socDelta ->
     soc (game (after (Gamepi._handle_action 0 discharge
                         (set_last_sensor (Some 3%nat) sample_world))
                      sample_world))
     = soc (game (after (Gamepi._handle_action 0 discharge
                           (set_last_sensor (Some 0%nat) sample_world))
                        sample_world))).
Proof.
  apply (C3_switch_costs_one_before_clamp 0%nat 3%nat discharge sample_world
           100%Q [] 0%Q).
  - discriminate.
  - reflexivity.
  - reflexivity.
  - vm_compute. discriminate.
  - vm_compute. reflexivity.
  - vm_compute. reflexivity.
Defined.

(** ** The play loop *)

Lemma play_iteration_effect since w flow w' :
  Gamepi.play_iteration since w = Done flow w' ->
  match flow with
  | Next _ => untouched w w' \/ one_action w w'
  | Return => game w' = game (zero_score w) /\ spins (out w') = spins (out w)
  end.
Proof.
  intros H. apply play_iteration_inv in H.
  destruct H as (active & w1 & w2 & fl & w3 & _ & _ & G2 & S2 & _ & _ & Hc & H).
  apply reset_combo_inv in Hc. destruct fl as [since'|].
  - destruct H as (-> & w4 & Hu & ->). destruct Hc as [G3 L3].
    apply user_action_effect in Hu.
    unfold untouched, one_action in *. simpl. rewrite spins_app. simpl.
    rewrite Nat.add_0_r. rewrite G3, L3, G2, S2 in Hu. exact Hu.
  - destruct H as (-> & ->).
    destruct Hc as (s & bt & t & ct & _ & _ & _ & _ & ->).
    simpl. rewrite spins_app, G2, S2. simpl. split; [reflexivity | lia].
Qed.

Lemma step_playing_inv since w p w' :
  Gamepi.step (Playing since) w = Done p w' ->
  (actions (game w) < Gamepi.MAX_ACTIONS /\
   exists flow,
     Gamepi.play_iteration since w = Done flow w' /\
     p = match flow with Next s => Playing s | Return => Idle end) \/
  (Gamepi.MAX_ACTIONS <= actions (game w) /\
   p = Idle /\ w' = log_more (idle_commands (score (game w))) w).
Proof.
  unfold Gamepi.step. unfold bind at 1, gets.
  destruct (Z.ltb_spec (actions (game w)) Gamepi.MAX_ACTIONS) as [Hlt | Hge];
    intros H.
  - left. split; [assumption|].
    apply bind_Done in H. destruct H as (flow & w1 & Hp & H).
    exists flow. destruct flow; inversion H; subst; split; auto.
  - right. split; [assumption|].
    unfold bind in H. rewrite idle_enter_run in H. inversion H.
    split; reflexivity.
Qed.


(** Along a round the action counter follows the turbine pulses and never
    passes [MAX_ACTIONS]. *)
Lemma in_round_counts w0 since w :
  in_round w0 since w ->
  actions (game w0) = 0 ->
  Z.of_nat (spins (out w)) = Z.of_nat (spins (out w0)) + actions (game w) /\
  0 <= actions (game w) <= Gamepi.MAX_ACTIONS.
Proof.
  intros Hr H0. induction Hr as [|since w since' w' Hr IH Hstep].
  - rewrite H0. unfold Gamepi.MAX_ACTIONS. lia.
  - destruct IH as [IH1 IH2].
    apply step_playing_inv in Hstep.
    destruct Hstep as [(Hlt & flow & Hp & Hf) | (_ & Hf & _)];
      [|discriminate].
    destruct flow as [s|]; [|discriminate].
    apply play_iteration_effect in Hp.
    destruct Hp as [[G S] | (A & S & _)].
    + rewrite G, S. tauto.
    + rewrite A, S. lia.
Qed.

(** ** The combo timer along the polls *)




Lemma step_playing_eq since w :
  actions (game w) < Gamepi.MAX_ACTIONS ->
  Gamepi.step (Playing since) w =
  (flow <- Gamepi.play_iteration since ;;
   match flow with
   | Next since' => ret (Playing since')
   | Return => ret Idle
   end) w.
Proof.
  intros Hlt. unfold Gamepi.step. unfold bind at 1, gets.
  destruct (Z.ltb_spec (actions (game w)) Gamepi.MAX_ACTIONS); [|lia].
  reflexivity.
Qed.

(** C7, as claimed, fails.  With sensor 0 active and both buttons read as
    pressed for the first time (the combo has lasted 0 s), the poll goes
    on to the dispatch, reads the charge button as pressed and runs
    [_handle_action] on sensor 0 with charge: one action is counted, the
    score grows by 5 and the turbine spins. *)
Lemma C7_no_action_while_both_held_counterexample :
  exists w',
    button_tape (env both_world) = [true; true; true; false; false] /\
    Gamepi._get_active_sensor both_world = Done (Some 0%nat) both_world_sensed /\
    Gamepi.play_iteration None both_world = Done (Next (Some 100%Q)) w' /\
    actions (game w') = actions (game both_world) + 1 /\
    score (game w') = score (game both_world) + 5 /\
    spins (out w') = S (spins (out both_world)).
Proof.
  eexists. split; [reflexivity|].
  split; [vm_compute; reflexivity|].
  split; [vm_compute; reflexivity|].
  simpl. repeat split.
Qed.

(** C7, amended.  On a poll where both buttons are read as pressed and
    the combo has lasted less than 3 s, the reset check only starts or
    keeps the combo timer, and the poll goes on to the action dispatch as
    on any other poll.  With no active sensor nothing is dispatched.
    With an active sensor whose dispatch reads the charge button as
    pressed again, [_handle_action] runs on that sensor with charge. *)
Theorem C7_both_held_dispatches_charge :
  forall since w active w1 bt t ct,
    Gamepi._get_active_sensor w = Done active w1 ->
    button_tape (env w) = true :: true :: bt ->
    clock_tape (env w) = t :: ct ->
    match since with Some s => (t - s < 3)%Q | None => True end ->
    let any_active := match active with Some _ => true | None => false end in
    let since' := match since with Some s => Some s | None => Some t end in
    let w2 := drop_clock 1
                (drop_buttons 2
                   (log_more [SetButtonLed charge any_active;
                              SetButtonLed discharge any_active] w1)) in
    Gamepi.play_iteration since w
    = (Gamepi.user_action active ;; time_sleep 0.01 ;; ret (Next since')) w2 /\
    (active = None ->
     Gamepi.play_iteration since w
     = Done (Next since') (log_more [Sleep 0.01] w2)) /\
    (forall a bt',
       active = Some a -> bt = true :: bt' ->
       Gamepi.play_iteration since w
       = (Gamepi._handle_action a charge ;; time_sleep 0.01 ;;
          ret (Next since')) (drop_buttons 1 w2)).
Proof.
  intros since w active w1 bt t ct Ha Hb Hc Hlt any_active since' w2.
  pose proof (get_active_sensor_only_sensors _ _ _ Ha)
    as (K1 & K2 & K3 & K4 & K5).
  assert (E : Gamepi.play_iteration since w
              = (Gamepi.user_action active ;; time_sleep 0.01 ;;
                 ret (Next since')) w2).
  { rewrite (play_iteration_eq _ _ _ _ Ha). subst since'.
    destruct since as [s|].
    - erewrite bind_eq;
        [|eapply reset_combo_running;
          [simpl; rewrite K3; exact Hb | simpl; rewrite K4; exact Hc
          | exact Hlt]].
      reflexivity.
    - erewrite bind_eq;
        [|eapply reset_combo_started;
          [simpl; rewrite K3; exact Hb | simpl; rewrite K4; exact Hc]].
      reflexivity. }
  split; [exact E|]. split.
  - intros ->. rewrite E. reflexivity.
  - intros a bt' -> ->. rewrite E.
    unfold Gamepi.user_action. unfold bind at 1 2.
    assert (R : read_button charge w2 = Done true (drop_buttons 1 w2)).
    { subst w2. destruct w1 as [g [st b c rt] o]. simpl in K3. subst b.
      rewrite Hb. reflexivity. }
    rewrite R. reflexivity.
Qed.

Lemma C7_both_held_dispatches_charge_witness :
  let w2 := drop_clock 1
              (drop_buttons 2
                 (log_more [SetButtonLed charge true;
                            SetButtonLed discharge true] both_world_sensed)) in
  Gamepi.play_iteration None both_world
  = (Gamepi.user_action (Some 0%nat) ;; time_sleep 0.01 ;;
     ret (Next (Some 100%Q))) w2 /\
  (Some 0%nat = None ->
   Gamepi.play_iteration None both_world
   = Done (Next (Some 100%Q)) (log_more [Sleep 0.01] w2)) /\
  (forall a bt',
     Some 0%nat = Some a -> [true; false; false] = true :: bt' ->
     Gamepi.play_iteration None both_world
     = (Gamepi._handle_action a charge ;; time_sleep 0.01 ;;
        ret (Next (Some 100%Q))) (drop_buttons 1 w2)).
Proof.
  apply (C7_both_held_dispatches_charge None both_world (Some 0%nat)
           both_world_sensed [true; false; false] 100%Q [100.001%Q]).
  - vm_compute. reflexivity.
  - reflexivity.
  - reflexivity.
  - exact I.
Defined.

(** C8.  The trace of the specification: a round starts with soc 5; an
    accepted discharge on sensor 0 under a red LED adds 100 to the score,
    leaves soc 4 and one action; an accepted charge on sensor 1 under a
    green LED then adds 50 more, leaves soc 6 (4 + 3 - 1) and two
    actions. *)
Theorem C8_example_trace :
  forall w w0 now1 rest1 w1 now2 rest2 w2,
    Gamepi._start_new_round w = Done tt w0 ->
    nth_error (led_values (game w0)) 0 = Some 0 ->
    clock_tape (env w0) = now1 :: rest1 ->
    (1 <= now1)%Q ->
    Gamepi._handle_action 0 discharge w0 = Done tt w1 ->
    nth_error (led_values (game w1)) 1 = Some 1 ->
    clock_tape (env w1) = now2 :: rest2 ->
    (1 <= now2)%Q ->
    Gamepi._handle_action 1 charge w1 = Done tt w2 ->
    soc (game w0) = 5 /\
    score (game w1) = score (game w) + 100 /\
    soc (game w1) = 4 /\
    actions (game w1) = 1 /\
    score (game w2) = score (game w) + 150 /\
    soc (game w2) = 6 /\
    actions (game w2) = 2.
Proof.
  intros w w0 now1 rest1 w1 now2 rest2 w2 Hs Hl0 Hc1 Hn1 H1 Hl1 Hc2 Hn2 H2.
  destruct (start_new_round_fields _ _ Hs) as (S0 & A0 & C0 & L0 & T0 & _).
  assert (Hts0 : nth_error (last_action_ts (game w0)) 0 = Some 0%Q)
    by (rewrite T0; reflexivity).
  assert (Hge1 : (1 <= now1 - 0)%Q) by lra.
  destruct (handle_action_accepted _ _ _ _ _ _ _ Hc1 Hts0 Hge1 H1)
    as (led1 & sd1 & cd1 & Hled1 & Ht1 & S1 & A1 & C1 & L1 & T1 & _).
  rewrite Hl0 in Hled1. inversion Hled1; subst led1.
  simpl in Ht1. inversion Ht1; subst sd1 cd1.
  assert (Hts1 : nth_error (last_action_ts (game w1)) 1 = Some 0%Q)
    by (rewrite T1, T0; reflexivity).
  assert (Hge2 : (1 <= now2 - 0)%Q) by lra.
  destruct (handle_action_accepted _ _ _ _ _ _ _ Hc2 Hts1 Hge2 H2)
    as (led2 & sd2 & cd2 & Hled2 & Ht2 & S2 & A2 & C2 & _).
  rewrite Hl1 in Hled2. inversion Hled2; subst led2.
  simpl in Ht2. inversion Ht2; subst sd2 cd2.
  rewrite L0 in C1. rewrite L1 in C2. simpl in C1, C2.
  rewrite C0 in C1. unfold clamp, Gamepi.SOC_LEVELS in C1, C2.
  split; [exact C0|]. split; [lia|]. split; [lia|]. split; [lia|].
  split; [lia|]. split; lia.
Qed.

Lemma C8_example_trace_witness :
  soc (game trace_world_0) = 5 /\
  score (game trace_world_1) = score (game trace_world) + 100 /\
  soc (game trace_world_1) = 4 /\
  actions (game trace_world_1) = 1 /\
  score (game trace_world_2) = score (game trace_world) + 150 /\
  soc (game trace_world_2) = 6 /\
  actions (game trace_world_2) = 2.
Proof.
  apply (C8_example_trace trace_world trace_world_0 100%Q [102%Q]
           trace_world_1 102%Q [] trace_world_2).
  - vm_compute. reflexivity.
  - vm_compute. reflexivity.
  - vm_compute. reflexivity.
  - vm_compute. discriminate.
  - vm_compute. reflexivity.
  - vm_compute. reflexivity.
  - vm_compute. reflexivity.
  - vm_compute. discriminate.
  - vm_compute. reflexivity.
Defined.

(** ** What happens to the score *)

Lemma play_iteration_return since w w' :
  Gamepi.play_iteration since w = Done Return w' ->
  exists s bt t ct,
    since = Some s /\
    button_tape (env w) = true :: true :: bt /\
    clock_tape (env w) = t :: ct /\
    (3 <= t - s)%Q /\
    score (game w') = 0.
Proof.
  intros H. apply play_iteration_inv in H.
  destruct H as (active & w1 & w2 & fl & w3 & _ & _ & _ & _ & B2 & C2 & Hc & H).
  destruct fl as [since'|]; [destruct H as [H _]; discriminate|].
  destruct H as [_ ->]. apply reset_combo_inv in Hc.
  destruct Hc as (s & bt & t & ct & -> & Hb & Hk & Hge & ->).
  exists s, bt, t, ct. rewrite <- B2, <- C2. repeat split; assumption.
Qed.

Lemma idle_poll_game : respects keeps_game Gamepi.idle_poll.
Proof. unfold Gamepi.idle_poll. frame. Qed.

Lemma step_idle_score p w w' :
  Gamepi.step Idle w = Done p w' -> score (game w') = score (game w).
Proof.
  unfold Gamepi.step. intros H.
  apply bind_Done in H. destruct H as (started & w1 & Hp & H).
  pose proof (idle_poll_game _ _ _ Hp) as G. red in G.
  destruct started.
  - apply bind_Done in H. destruct H as ([] & w2 & Hs & H).
    inversion H; subst. apply start_new_round_fields in Hs.
    destruct Hs as (S & _). rewrite S, G. reflexivity.
  - inversion H; subst. rewrite G. reflexivity.
Qed.

(** * The two files *)

Lemma run_agree n :
  forall p w, Moonshot.run n p w = Gamepi.run n p w.
Proof.
  induction n as [|n IH]; intros p w; simpl; [reflexivity|].
  unfold bind. change (Moonshot.step p w) with (Gamepi.step p w).
  destruct (Gamepi.step p w); auto.
Qed.

(** * A whole round *)

(** Ten accepted actions end the round: after the press that starts it
    and ten polls the engine is still in the play loop with ten actions
    counted, and the next step enters Idle with the score kept. *)
Example whole_round :
  (exists w, Gamepi.run 11 Idle whole_round_world = Done (Playing None) w /\
             actions (game w) = 10 /\ spins (out w) = 10%nat) /\
  (exists w, Gamepi.run 12 Idle whole_round_world = Done Idle w /\
             actions (game w) = 10 /\ score (game w) = 50 /\
             soc (game w) = 5).
Proof.
  split.
  - exists (after (Gamepi.run 11 Idle whole_round_world) whole_round_world).
    vm_compute. repeat split.
  - exists (after (Gamepi.run 12 Idle whole_round_world) whole_round_world).
    vm_compute. repeat split.
Qed.

(** * Runs that end well *)

Lemma post_bind {A B} (m : M A) (k : A -> M B) w Q :
  post (m w) (fun a w1 => post (k a w1) Q) -> post (bind m k w) Q.
Proof. unfold bind. destruct (m w); simpl; auto. Qed.

Lemma post_mono {A} (o : Outcome A) (Q Q' : A -> World -> Prop) :
  post o Q -> (forall a w, Q a w -> Q' a w) -> post o Q'.
Proof. destruct o; simpl; auto. Qed.

Lemma post_of_respects {A} (R : World -> World -> Prop) (m : M A) w :
  respects R m -> never_raises m -> post (m w) (fun _ w' => R w w').
Proof.
  intros Hr Hn. destruct (m w) as [a w'| |e] eqn:E; simpl; auto.
  - eapply Hr. exact E.
  - exact (Hn w e E).
Qed.

Lemma post_Done {A} (m : M A) w a w' Q :
  post (m w) Q -> m w = Done a w' -> Q a w'.
Proof. intros H E. rewrite E in H. exact H. Qed.

Lemma never_raises_ret {A} (a : A) : never_raises (ret a).
Proof. intros w e. discriminate. Qed.

Lemma never_raises_bind {A B} (m : M A) (k : A -> M B) :
  never_raises m -> (forall a, never_raises (k a)) -> never_raises (bind m k).
Proof.
  intros Hm Hk w e. unfold bind.
  destruct (m w) as [a w1| |e1] eqn:E; [apply Hk | discriminate |].
  intros _. exact (Hm w e1 E).
Qed.

Lemma never_raises_gets {A} (f : Game -> A) : never_raises (gets f).
Proof. intros w e. discriminate. Qed.

Lemma never_raises_modify f : never_raises (modify f).
Proof. intros w e. discriminate. Qed.

Lemma never_raises_emit o : never_raises (emit o).
Proof. intros w e. discriminate. Qed.

Lemma never_raises_read_sensor i : never_raises (read_sensor i).
Proof.
  intros w e. unfold read_sensor. destruct (sensor_tape (env w)); discriminate.
Qed.

Lemma never_raises_read_button n : never_raises (read_button n).
Proof.
  intros w e. unfold read_button. destruct (button_tape (env w)); discriminate.
Qed.

Lemma never_raises_time_time : never_raises time_time.
Proof.
  intros w e. unfold time_time. destruct (clock_tape (env w)); discriminate.
Qed.

Lemma never_raises_randint : never_raises random_randint_0_1.
Proof.
  intros w e. unfold random_randint_0_1.
  destruct (random_tape (env w)); discriminate.
Qed.

Lemma never_raises_for_range body :
  (forall i, never_raises (body i)) ->
  forall n start, never_raises (for_range start n body).
Proof.
  intros Hb. induction n as [|n IH]; intros start; simpl.
  - apply never_raises_ret.
  - apply never_raises_bind; auto.
Qed.

Lemma never_raises_wait_release_loop fuel :
  never_raises (wait_release_loop fuel).
Proof.
  induction fuel as [|fuel IH]; simpl.
  - intros w e. discriminate.
  - apply never_raises_bind; [apply never_raises_read_button|]. intros c.
    apply never_raises_bind.
    + destruct c; [apply never_raises_ret | apply never_raises_read_button].
    + intros held. destruct held; [|apply never_raises_ret].
      apply never_raises_bind; [apply never_raises_emit | auto].
Qed.

Lemma never_raises_wait_release : never_raises wait_release.
Proof. intros w e. apply never_raises_wait_release_loop. Qed.

Lemma never_raises_randomise_leds : never_raises Gamepi._randomise_leds.
Proof.
  intros [g [st b c rt] o] e.
  destruct rt as [|r0 [|r1 [|r2 [|r3 rt]]]];
    try (rewrite randomise_leds_run; discriminate);
    cbv; discriminate.
Qed.

Lemma never_raises_spin : never_raises Gamepi._spin_windmill_briefly.
Proof. intros w e. rewrite spin_windmill_briefly_run. discriminate. Qed.

(** Computations built from the safe primitives. *)
Ltac safe :=
  lazymatch goal with
  | |- never_raises ?m =>
      lazymatch m with
      | bind _ _ => apply never_raises_bind; [safe | intros ?; safe]
      | ret _ => apply never_raises_ret
      | gets _ => apply never_raises_gets
      | modify _ => apply never_raises_modify
      | emit _ => apply never_raises_emit
      | set_led _ _ _ => apply never_raises_emit
      | set_button_led _ _ => apply never_raises_emit
      | set_windmill _ => apply never_raises_emit
      | update_score_display _ => apply never_raises_emit
      | update_soc_display _ => apply never_raises_emit
      | time_sleep _ => apply never_raises_emit
      | read_sensor _ => apply never_raises_read_sensor
      | read_button _ => apply never_raises_read_button
      | time_time => apply never_raises_time_time
      | random_randint_0_1 => apply never_raises_randint
      | wait_release => apply never_raises_wait_release
      | Gamepi._randomise_leds => apply never_raises_randomise_leds
      | Gamepi._spin_windmill_briefly => apply never_raises_spin
      | for_range _ _ _ => apply never_raises_for_range; intros ?; safe
      | (if ?c then _ else _) => destruct c; safe
      | (match ?x with _ => _ end) => destruct x; safe
      | _ => solve [auto]
      end
  end.

Lemma never_raises_first_active n :
  forall idx, never_raises (Gamepi.first_active idx n).
Proof. induction n as [|n IH]; intros idx; simpl; safe. Qed.

Lemma never_raises_get_active_sensor : never_raises Gamepi._get_active_sensor.
Proof. apply never_raises_first_active. Qed.

Lemma never_raises_idle_enter : never_raises Gamepi.idle_enter.
Proof. unfold Gamepi.idle_enter. safe. Qed.

Lemma never_raises_idle_poll : never_raises Gamepi.idle_poll.
Proof. unfold Gamepi.idle_poll. safe. Qed.

Lemma never_raises_start_new_round : never_raises Gamepi._start_new_round.
Proof. unfold Gamepi._start_new_round. safe. Qed.

Lemma never_raises_full_reset : never_raises Gamepi._full_reset.
Proof.
  pose proof never_raises_idle_enter.
  unfold Gamepi._full_reset. safe.
Qed.

Lemma never_raises_reset_combo since : never_raises (Gamepi.reset_combo since).
Proof.
  pose proof never_raises_full_reset.
  unfold Gamepi.reset_combo. safe.
Qed.

(** * What the methods leave behind, command by command *)

Lemma repeat_snoc {A} (x : A) n : repeat x n ++ [x] = x :: repeat x n.
Proof. induction n as [|n IH]; simpl; [reflexivity | rewrite IH; reflexivity]. Qed.

Lemma wait_release_loop_inv fuel :
  forall w w',
    wait_release_loop fuel w = Done tt w' ->
    exists passes bt',
      Forall held_pass passes /\
      button_tape (env w) = concat passes ++ false :: false :: bt' /\
      w' = mkWorld (game w)
             (mkEnv (sensor_tape (env w)) bt'
                (clock_tape (env w)) (random_tape (env w)))
             (out w ++ repeat (Sleep 0.01) (length passes)).
Proof.
  induction fuel as [|fuel IH]; intros [g [st bt ct rt] o] w'; simpl;
    [discriminate|].
  unfold bind at 1, read_button; simpl.
  destruct bt as [|c bt]; [discriminate|].
  destruct c.
  - unfold bind at 1; simpl. unfold bind at 1, time_sleep, emit; simpl.
    intros H. apply IH in H. simpl in H.
    destruct H as (passes & bt' & Hp & Hb & ->).
    exists ([true] :: passes), bt'.
    split; [constructor; [left; reflexivity | exact Hp]|].
    simpl. split; [rewrite Hb; reflexivity|].
    rewrite <- app_assoc. simpl. reflexivity.
  - unfold bind at 1, read_button; simpl.
    destruct bt as [|d bt]; [discriminate|].
    destruct d.
    + unfold bind at 1, time_sleep, emit; simpl.
      intros H. apply IH in H. simpl in H.
      destruct H as (passes & bt' & Hp & Hb & ->).
      exists ([false; true] :: passes), bt'.
      split; [constructor; [right; reflexivity | exact Hp]|].
      simpl. split; [rewrite Hb; reflexivity|].
      rewrite <- app_assoc. simpl. reflexivity.
    + intros H. inversion H; subst. exists [], bt. simpl.
      split; [constructor|]. split; [reflexivity|].
      rewrite app_nil_r. reflexivity.
Qed.

Lemma wait_release_inv w w' :
  wait_release w = Done tt w' ->
  exists passes bt',
    Forall held_pass passes /\
    button_tape (env w) = concat passes ++ false :: false :: bt' /\
    w' = mkWorld (game w)
           (mkEnv (sensor_tape (env w)) bt'
              (clock_tape (env w)) (random_tape (env w)))
           (out w ++ repeat (Sleep 0.01) (length passes)).
Proof. apply wait_release_loop_inv. Qed.

Lemma randomise_leds_inv w w' :
  Gamepi._randomise_leds w = Done tt w' ->
  exists r0 r1 r2 r3 rt',
    random_tape (env w) = r0 :: r1 :: r2 :: r3 :: rt' /\
    w' = mkWorld
           (mkGame (score (game w)) (actions (game w)) (soc (game w))
              (last_sensor (game w)) (last_action_ts (game w))
              [Z.b2z r0; Z.b2z r1; Z.b2z r2; Z.b2z r3])
           (mkEnv (sensor_tape (env w)) (button_tape (env w))
              (clock_tape (env w)) rt')
           (out w ++ [SetLed 0 (led_color r0) true;
                      SetLed 1 (led_color r1) true;
                      SetLed 2 (led_color r2) true;
                      SetLed 3 (led_color r3) true]).
Proof.
  destruct w as [g [st b c rt] o].
  destruct rt as [|r0 [|r1 [|r2 [|r3 rt]]]];
    try (intros H; cbv in H; discriminate).
  rewrite randomise_leds_run. intros H. inversion H; subst; clear H.
  exists r0, r1, r2, r3, rt. simpl. split; reflexivity.
Qed.

Lemma action_tail_inv w w' :
  (Gamepi._spin_windmill_briefly ;; Gamepi._randomise_leds ;; wait_release) w
  = Done tt w' ->
  exists r0 r1 r2 r3 rt' passes bt',
    random_tape (env w) = r0 :: r1 :: r2 :: r3 :: rt' /\
    Forall held_pass passes /\
    button_tape (env w) = concat passes ++ false :: false :: bt' /\
    w' = mkWorld
           (mkGame (score (game w)) (actions (game w)) (soc (game w))
              (last_sensor (game w)) (last_action_ts (game w))
              [Z.b2z r0; Z.b2z r1; Z.b2z r2; Z.b2z r3])
           (mkEnv (sensor_tape (env w)) bt' (clock_tape (env w)) rt')
           (out w ++ action_feedback r0 r1 r2 r3 (length passes)).
Proof.
  intros H. rewrite (bind_eq _ _ _ _ _ (spin_windmill_briefly_run w)) in H.
  apply bind_Done in H. destruct H as ([] & w1 & Hr & Hw).
  apply randomise_leds_inv in Hr.
  destruct Hr as (r0 & r1 & r2 & r3 & rt' & Hrt & ->).
  apply wait_release_inv in Hw. destruct Hw as (passes & bt' & Hp & Hb & ->).
  simpl in *. exists r0, r1, r2, r3, rt', passes, bt'.
  split; [exact Hrt|]. split; [exact Hp|]. split; [exact Hb|].
  unfold action_feedback. rewrite <- !app_assoc. reflexivity.
Qed.

(** An accepted action, in full. *)
Lemma handle_action_accepted_full sensor_idx button w now rest last_ts w' :
  clock_tape (env w) = now :: rest ->
  nth_error (last_action_ts (game w)) sensor_idx = Some last_ts ->
  (1 <= now - last_ts)%Q ->
  Gamepi._handle_action sensor_idx button w = Done tt w' ->
  exists led_value score_delta soc_change r0 r1 r2 r3 rt' passes bt',
    nth_error (led_values (game w)) sensor_idx = Some led_value /\
    delta_table (if led_value =? 0 then 0 else 1) button sensor_idx
      = Some (score_delta, soc_change) /\
    random_tape (env w) = r0 :: r1 :: r2 :: r3 :: rt' /\
    Forall held_pass passes /\
    button_tape (env w) = concat passes ++ false :: false :: bt' /\
    env w' = mkEnv (sensor_tape (env w)) bt' rest rt' /\
    game w' =
      mkGame (score (game w) + score_delta) (actions (game w) + 1)
        (clamp (soc (game w) + soc_change
                - switch_penalty (last_sensor (game w)) sensor_idx)
           0 Gamepi.SOC_LEVELS)
        (Some sensor_idx)
        (setitem (last_action_ts (game w)) sensor_idx now)
        [Z.b2z r0; Z.b2z r1; Z.b2z r2; Z.b2z r3] /\
    out w' =
      out w
      ++ [UpdateScoreDisplay (score (game w) + score_delta);
          UpdateSocDisplay
            (clamp (soc (game w) + soc_change
                    - switch_penalty (last_sensor (game w)) sensor_idx)
               0 Gamepi.SOC_LEVELS)]
      ++ action_feedback r0 r1 r2 r3 (length passes).
Proof.
  destruct w as [[sc ac so ls ts leds] [st bt ct rt] o]; simpl.
  intros -> Hts Hge H.
  unfold Gamepi._handle_action in H; simpl in H.
  unfold bind at 1 in H; simpl in H. unfold bind at 1 in H; simpl in H.
  unfold bind at 1, getitem at 1 in H; simpl in H. rewrite Hts in H;
    simpl in H.
  assert (E : Qltb (now - last_ts) 1.0 = false)
    by (apply Qltb_ge; lra).
  rewrite E in H.
  unfold bind at 1 in H; simpl in H. unfold bind at 1 in H; simpl in H.
  unfold bind at 1, getitem at 1 in H; simpl in H.
  destruct (nth_error leds sensor_idx) as [led_value|] eqn:Hled;
    [|discriminate].
  simpl in H.
  assert (T : forall score_delta soc_change,
    (last <- gets last_sensor ;;
     modify (fun g => mkGame (score g) (actions g) (soc g) (Some sensor_idx)
                             (last_action_ts g) (led_values g)) ;;
     modify (fun g => mkGame (score g) (actions g + 1) (soc g)
                             (last_sensor g) (last_action_ts g)
                             (led_values g)) ;;
     modify (fun g => mkGame (score g + score_delta) (actions g) (soc g)
                             (last_sensor g) (last_action_ts g)
                             (led_values g)) ;;
     modify (fun g => mkGame (score g) (actions g)
               (Z.max 0 (Z.min Gamepi.SOC_LEVELS (soc g +
                  match last with
                  | Some l => if Nat.eqb l sensor_idx then soc_change
                              else soc_change - 1
                  | None => soc_change
                  end)))
               (last_sensor g) (last_action_ts g) (led_values g)) ;;
     s <- gets score ;; update_score_display s ;;
     c <- gets soc ;; update_soc_display c ;;
     Gamepi._spin_windmill_briefly ;; Gamepi._randomise_leds ;;
     wait_release)
      (mkWorld (mkGame sc ac so ls (setitem ts sensor_idx now) leds)
         (mkEnv st bt rest rt) o) = Done tt w' ->
    exists r0 r1 r2 r3 rt' passes bt',
      rt = r0 :: r1 :: r2 :: r3 :: rt' /\
      Forall held_pass passes /\
      bt = concat passes ++ false :: false :: bt' /\
      env w' = mkEnv st bt' rest rt' /\
      game w' =
        mkGame (sc + score_delta) (ac + 1)
          (clamp (so + soc_change - switch_penalty ls sensor_idx)
             0 Gamepi.SOC_LEVELS)
          (Some sensor_idx) (setitem ts sensor_idx now)
          [Z.b2z r0; Z.b2z r1; Z.b2z r2; Z.b2z r3] /\
      out w' =
        o ++ [UpdateScoreDisplay (sc + score_delta);
              UpdateSocDisplay
                (clamp (so + soc_change - switch_penalty ls sensor_idx)
                   0 Gamepi.SOC_LEVELS)]
          ++ action_feedback r0 r1 r2 r3 (length passes)).
  { intros score_delta soc_change K.
    unfold bind at 1 in K; simpl in K.
    do 8 (unfold bind at 1 in K; simpl in K).
    apply action_tail_inv in K.
    destruct K as (r0 & r1 & r2 & r3 & rt' & passes & bt' & Hrt & Hp & Hb & ->).
    simpl in *. exists r0, r1, r2, r3, rt', passes, bt'.
    assert (C : Z.max 0 (Z.min Gamepi.SOC_LEVELS (so +
                  match ls with
                  | Some l => if Nat.eqb l sensor_idx then soc_change
                              else soc_change - 1
                  | None => soc_change
                  end))
                = clamp (so + soc_change - switch_penalty ls sensor_idx)
                    0 Gamepi.SOC_LEVELS).
    { unfold clamp, switch_penalty. f_equal. f_equal.
      destruct ls as [l|]; [destruct (Nat.eqb l sensor_idx)|]; lia. }
    rewrite C. repeat split; try assumption; try reflexivity.
    rewrite <- !app_assoc. reflexivity. }
  exists led_value.
  unfold bind at 1 in H.
  destruct (led_value =? 0) eqn:Ez; destruct button; simpl in H.
  all: unfold delta_table.
  all: try (unfold bind at 1, getitem at 1 in H; unfold Gamepi.SOC_INCREMENT in H;
            destruct (nth_error [2; 3; 4; 2] sensor_idx) as [inc|] eqn:Hinc;
            [|discriminate]; simpl in H).
  - destruct (T 5 inc H) as (r0 & r1 & r2 & r3 & rt' & passes & bt' & K).
    exists 5, inc, r0, r1, r2, r3, rt', passes, bt'.
    split; [reflexivity|]. split; [reflexivity|]. exact K.
  - destruct (T 100 (-1) H) as (r0 & r1 & r2 & r3 & rt' & passes & bt' & K).
    exists 100, (-1), r0, r1, r2, r3, rt', passes, bt'.
    split; [reflexivity|]. split; [reflexivity|]. exact K.
  - destruct (T 50 inc H) as (r0 & r1 & r2 & r3 & rt' & passes & bt' & K).
    exists 50, inc, r0, r1, r2, r3, rt', passes, bt'.
    split; [reflexivity|]. split; [reflexivity|]. exact K.
  - destruct (T 5 0 H) as (r0 & r1 & r2 & r3 & rt' & passes & bt' & K).
    exists 5, 0, r0, r1, r2, r3, rt', passes, bt'.
    split; [reflexivity|]. split; [reflexivity|]. exact K.
Qed.

(** * The panel *)

Lemma panel_app l1 l2 : panel (l1 ++ l2) = fold_left command l2 (panel l1).
Proof. unfold panel. apply fold_left_app. Qed.

Lemma fold_sleeps q k p : fold_left command (repeat (Sleep q) k) p = p.
Proof. induction k as [|k IH]; simpl; [reflexivity | exact IH]. Qed.

#[export] Instance keeps_panel_frame : Frame keeps_panel.
Proof. split; unfold keeps_panel; intros; congruence. Qed.

#[export] Instance keeps_view_frame : Frame keeps_view.
Proof.
  split; unfold keeps_view.
  - intros w. split; reflexivity.
  - intros w1 w2 w3 [A1 A2] [B1 B2]. split; congruence.
Qed.

Lemma read_sensor_view i : respects keeps_view (read_sensor i).
Proof.
  intros [g [st bt ct rt] o] a w'. unfold read_sensor; simpl.
  destruct st; [discriminate|]. intros H. inversion H. split; reflexivity.
Qed.

Lemma read_button_view n : respects keeps_view (read_button n).
Proof.
  intros [g [st bt ct rt] o] a w'. unfold read_button; simpl.
  destruct bt; [discriminate|]. intros H. inversion H. split; reflexivity.
Qed.

Lemma time_sleep_view q : respects keeps_view (time_sleep q).
Proof.
  intros [g e o] a w' H. inversion H. split; [reflexivity|].
  simpl. rewrite panel_app. reflexivity.
Qed.

Lemma wait_release_view : respects keeps_view wait_release.
Proof.
  pose proof read_button_view. pose proof time_sleep_view.
  apply respects_wait_release; auto. typeclasses eauto.
Qed.

Lemma get_active_sensor_view : respects keeps_view Gamepi._get_active_sensor.
Proof.
  apply get_active_sensor_respects; [typeclasses eauto|].
  apply read_sensor_view.
Qed.

Lemma idle_poll_view : respects keeps_view Gamepi.idle_poll.
Proof.
  pose proof read_button_view. pose proof time_sleep_view.
  pose proof wait_release_view.
  unfold Gamepi.idle_poll.
  apply respects_bind; [typeclasses eauto | auto |]. intros c.
  apply respects_bind; [typeclasses eauto | |].
  - destruct c; [apply respects_ret; typeclasses eauto | auto].
  - intros pressed. destruct pressed.
    + apply respects_bind; [typeclasses eauto | auto |]. intros _.
      apply respects_ret; typeclasses eauto.
    + apply respects_bind; [typeclasses eauto | auto |]. intros _.
      apply respects_ret; typeclasses eauto.
Qed.

(** * One step, inside out *)

Lemma no_raise_bind {A B} (m : M A) (k : A -> M B) w :
  (forall e, m w <> Raised e) ->
  (forall a w1, m w = Done a w1 -> forall e, k a w1 <> Raised e) ->
  forall e, bind m k w <> Raised e.
Proof.
  intros Hm Hk e. unfold bind.
  destruct (m w) as [a w1| |e1] eqn:E.
  - apply (Hk a w1 eq_refl).
  - discriminate.
  - exfalso. exact (Hm e1 eq_refl).
Qed.

Lemma length_setitem {A} (l : list A) i x : length (setitem l i x) = length l.
Proof.
  revert i. induction l as [|h t IH]; intros [|i]; simpl; auto.
Qed.

Lemma nth_error_setitem_other {A} (l : list A) i j x :
  i <> j -> nth_error (setitem l i x) j = nth_error l j.
Proof.
  revert i j. induction l as [|h t IH]; intros [|i] [|j] Hne; simpl;
    try reflexivity; try congruence.
  apply IH. congruence.
Qed.

Lemma set_four {A} (l : list A) x0 x1 x2 x3 :
  length l = 4%nat ->
  setitem (setitem (setitem (setitem l 0 x0) 1 x1) 2 x2) 3 x3
  = [x0; x1; x2; x3].
Proof.
  destruct l as [|a [|b [|c [|d [|e l]]]]]; simpl; try discriminate.
  reflexivity.
Qed.

Lemma led_shows_draw r : led_shows (Z.b2z r) = (led_color r, true).
Proof. destruct r; reflexivity. Qed.

Lemma first_active_range n :
  forall idx w a w',
    Gamepi.first_active idx n w = Done (Some a) w' ->
    (idx <= a < idx + n)%nat.
Proof.
  induction n as [|n IH]; intros idx w a w'; simpl; [discriminate|].
  intros H. apply bind_Done in H. destruct H as (b & w1 & _ & H).
  destruct b.
  - inversion H; subst. lia.
  - apply IH in H. lia.
Qed.

Lemma get_active_sensor_range w a w' :
  Gamepi._get_active_sensor w = Done (Some a) w' ->
  (a < Gamepi.NUM_SENSORS)%nat.
Proof.
  intros H. apply first_active_range in H.
  unfold Gamepi.NUM_SENSORS in *. lia.
Qed.

Lemma start_new_round_inv w w' :
  Gamepi._start_new_round w = Done tt w' ->
  exists r0 r1 r2 r3 rt',
    random_tape (env w) = r0 :: r1 :: r2 :: r3 :: rt' /\
    w' = mkWorld
           (mkGame (score (game w)) 0 5 None (repeat 0%Q Gamepi.NUM_SENSORS)
              [Z.b2z r0; Z.b2z r1; Z.b2z r2; Z.b2z r3])
           (mkEnv (sensor_tape (env w)) (button_tape (env w))
              (clock_tape (env w)) rt')
           (out w ++ [SetLed 0 (led_color r0) true;
                      SetLed 1 (led_color r1) true;
                      SetLed 2 (led_color r2) true;
                      SetLed 3 (led_color r3) true;
                      UpdateSocDisplay 5]).
Proof.
  intros H. unfold Gamepi._start_new_round in H.
  do 4 (unfold bind at 1 in H; simpl in H).
  apply bind_Done in H. destruct H as ([] & w1 & Hr & H).
  apply randomise_leds_inv in Hr.
  destruct Hr as (r0 & r1 & r2 & r3 & rt' & Hrt & ->).
  unfold bind, gets, update_soc_display, emit in H. simpl in H.
  inversion H; subst; clear H. simpl in Hrt.
  exists r0, r1, r2, r3, rt'. split; [exact Hrt|].
  rewrite <- app_assoc. reflexivity.
Qed.

(** The dispatch either does nothing to game and log, or runs an action
    that passes the cooldown. *)
Lemma user_action_inv active w w' :
  Gamepi.user_action active w = Done tt w' ->
  (game w' = game w /\ out w' = out w) \/
  exists a button w1 now rest last_ts,
    active = Some a /\
    game w1 = game w /\ out w1 = out w /\
    clock_tape (env w1) = now :: rest /\
    nth_error (last_action_ts (game w1)) a = Some last_ts /\
    (1 <= now - last_ts)%Q /\
    Gamepi._handle_action a button w1 = Done tt w'.
Proof.
  assert (K : forall a button w1,
    game w1 = game w -> out w1 = out w ->
    Gamepi._handle_action a button w1 = Done tt w' ->
    active = Some a ->
    (game w' = game w /\ out w' = out w) \/
    exists a button w1 now rest last_ts,
      active = Some a /\
      game w1 = game w /\ out w1 = out w /\
      clock_tape (env w1) = now :: rest /\
      nth_error (last_action_ts (game w1)) a = Some last_ts /\
      (1 <= now - last_ts)%Q /\
      Gamepi._handle_action a button w1 = Done tt w').
  { intros a button w1 G L H Ha.
    destruct (handle_action_cases _ _ _ _ H)
      as (now & rest & last_ts & Hc & Hts & [Hlt | Hge]).
    - left. rewrite (handle_action_rejected _ _ _ _ _ _ Hc Hts Hlt) in H.
      inversion H. simpl. split; assumption.
    - right. exists a, button, w1, now, rest, last_ts. repeat split; assumption. }
  unfold Gamepi.user_action. destruct active as [a|].
  - intros H. apply bind_Done in H. destruct H as (c & w1 & Hc & H).
    pose proof (read_button_game _ _ _ _ Hc) as G1.
    pose proof (read_button_log _ _ _ _ Hc) as L1. red in G1, L1.
    destruct c.
    + eapply K; eauto.
    + apply bind_Done in H. destruct H as (d & w2 & Hd & H).
      pose proof (read_button_game _ _ _ _ Hd) as G2.
      pose proof (read_button_log _ _ _ _ Hd) as L2. red in G2, L2.
      destruct d.
      * eapply K; [| |exact H|reflexivity]; congruence.
      * inversion H; subst. left. split; congruence.
  - intros H. inversion H. left. split; reflexivity.
Qed.

Lemma play_iteration_steps since w flow w' :
  Gamepi.play_iteration since w = Done flow w' ->
  exists active w1 fl w3,
    Gamepi._get_active_sensor w = Done active w1 /\
    Gamepi.reset_combo since
      (log_more
         [SetButtonLed charge
            (match active with Some _ => true | None => false end);
          SetButtonLed discharge
            (match active with Some _ => true | None => false end)] w1)
    = Done fl w3 /\
    match fl with
    | Return => flow = Return /\ w' = w3
    | Next since' =>
        flow = Next since' /\
        exists w4, Gamepi.user_action active w3 = Done tt w4 /\
                   w' = log_more [Sleep 0.01] w4
    end.
Proof.
  intros H.
  destruct (Gamepi._get_active_sensor w) as [active w1| |] eqn:Ha;
    try (unfold Gamepi.play_iteration, bind in H; rewrite Ha in H;
         discriminate).
  rewrite (play_iteration_eq _ _ _ _ Ha) in H.
  apply bind_Done in H. destruct H as (fl & w3 & Hc & H).
  exists active, w1, fl, w3. split; [reflexivity|]. split; [exact Hc|].
  destruct fl as [since'|].
  - apply bind_Done in H. destruct H as ([] & w4 & Hu & H).
    unfold bind, time_sleep, emit, ret in H. inversion H.
    split; [reflexivity|]. exists w4. split; [assumption | reflexivity].
  - inversion H. split; reflexivity.
Qed.

(** ** No exception *)

Lemma handle_action_never_raises sensor_idx button w :
  (sensor_idx < Gamepi.NUM_SENSORS)%nat ->
  length (last_action_ts (game w)) = Gamepi.NUM_SENSORS ->
  length (led_values (game w)) = Gamepi.NUM_SENSORS ->
  forall e, Gamepi._handle_action sensor_idx button w <> Raised e.
Proof.
  unfold Gamepi.NUM_SENSORS. intros Hidx Hts Hleds.
  assert (Ets : exists t, nth_error (last_action_ts (game w)) sensor_idx = Some t).
  { destruct (nth_error (last_action_ts (game w)) sensor_idx) eqn:E; eauto.
    apply nth_error_None in E. lia. }
  assert (Eleds : exists v, nth_error (led_values (game w)) sensor_idx = Some v).
  { destruct (nth_error (led_values (game w)) sensor_idx) eqn:E; eauto.
    apply nth_error_None in E. lia. }
  assert (Einc : exists inc, nth_error Gamepi.SOC_INCREMENT sensor_idx = Some inc).
  { destruct sensor_idx as [|[|[|[|n]]]]; simpl; eauto. lia. }
  destruct Ets as [t Et]. destruct Eleds as [v Ev]. destruct Einc as [inc Einc].
  unfold Gamepi._handle_action.
  apply no_raise_bind; [apply never_raises_time_time|]. intros now w1 Hn.
  assert (G1 : game w1 = game w).
  { unfold time_time in Hn. destruct (clock_tape (env w)); [discriminate|].
    inversion Hn. reflexivity. }
  apply no_raise_bind; [apply never_raises_gets|]. intros ts w2 Hg.
  unfold gets in Hg. inversion Hg; subst ts w2; clear Hg.
  rewrite G1. unfold getitem at 1. rewrite Et.
  apply no_raise_bind; [apply never_raises_ret|]. intros last_ts w2 Hr.
  inversion Hr; subst last_ts w2; clear Hr.
  destruct (Qltb (now - t) 1.0); [discriminate|].
  apply no_raise_bind; [apply never_raises_modify|]. intros [] w2 Hm.
  unfold modify in Hm. inversion Hm; subst w2; clear Hm.
  apply no_raise_bind; [apply never_raises_gets|]. intros leds w3 Hg.
  unfold gets in Hg. inversion Hg; subst leds w3; clear Hg. simpl.
  rewrite G1. unfold getitem at 1. rewrite Ev.
  apply no_raise_bind; [apply never_raises_ret|]. intros led w3 _.
  apply no_raise_bind.
  - intros e. destruct (led =? 0); destruct button;
      try (unfold getitem; rewrite Einc); cbv; discriminate.
  - intros deltas w4 _. cbv zeta.
    assert (S : never_raises
      (last <- gets last_sensor ;;
       modify (fun g => mkGame (score g) (actions g) (soc g) (Some sensor_idx)
                               (last_action_ts g) (led_values g)) ;;
       modify (fun g => mkGame (score g) (actions g + 1) (soc g)
                               (last_sensor g) (last_action_ts g)
                               (led_values g)) ;;
       modify (fun g => mkGame (score g + fst deltas) (actions g) (soc g)
                               (last_sensor g) (last_action_ts g)
                               (led_values g)) ;;
       modify (fun g => mkGame (score g) (actions g)
                 (Z.max 0 (Z.min Gamepi.SOC_LEVELS (soc g +
                    match last with
                    | Some l => if Nat.eqb l sensor_idx then snd deltas
                                else snd deltas - 1
                    | None => snd deltas
                    end)))
                 (last_sensor g) (last_action_ts g) (led_values g)) ;;
       s <- gets score ;; update_score_display s ;;
       c <- gets soc ;; update_soc_display c ;;
       Gamepi._spin_windmill_briefly ;; Gamepi._randomise_leds ;;
       wait_release)) by safe.
    apply S.
Qed.

Lemma user_action_never_raises active w :
  (forall a, active = Some a -> (a < Gamepi.NUM_SENSORS)%nat) ->
  length (last_action_ts (game w)) = Gamepi.NUM_SENSORS ->
  length (led_values (game w)) = Gamepi.NUM_SENSORS ->
  forall e, Gamepi.user_action active w <> Raised e.
Proof.
  intros Ha Hts Hleds. unfold Gamepi.user_action.
  destruct active as [a|]; [|discriminate].
  specialize (Ha a eq_refl).
  apply no_raise_bind; [apply never_raises_read_button|]. intros c w1 Hc.
  pose proof (read_button_game _ _ _ _ Hc) as G1. red in G1.
  destruct c.
  - apply handle_action_never_raises; rewrite ?G1; assumption.
  - apply no_raise_bind; [apply never_raises_read_button|]. intros d w2 Hd.
    pose proof (read_button_game _ _ _ _ Hd) as G2. red in G2.
    destruct d; [|discriminate].
    apply handle_action_never_raises; rewrite ?G2, ?G1; assumption.
Qed.

Lemma play_iteration_never_raises since w :
  length (last_action_ts (game w)) = Gamepi.NUM_SENSORS ->
  length (led_values (game w)) = Gamepi.NUM_SENSORS ->
  forall e, Gamepi.play_iteration since w <> Raised e.
Proof.
  intros Hts Hleds e.
  destruct (Gamepi._get_active_sensor w) as [active w1| |e1] eqn:Ha.
  - rewrite (play_iteration_eq _ _ _ _ Ha).
    pose proof (get_active_sensor_only_sensors _ _ _ Ha) as (G1 & _).
    apply no_raise_bind; [apply never_raises_reset_combo|].
    intros fl w3 Hc. destruct fl as [since'|]; [|discriminate].
    apply reset_combo_inv in Hc. destruct Hc as [G3 _]. simpl in G3.
    apply no_raise_bind.
    + apply user_action_never_raises; rewrite ?G3, ?G1; try assumption.
      intros a ->. eapply get_active_sensor_range. exact Ha.
    + intros [] w4 _. discriminate.
  - unfold Gamepi.play_iteration, bind. rewrite Ha. discriminate.
  - exfalso. exact (never_raises_get_active_sensor w e1 Ha).
Qed.

Lemma step_never_raises p w :
  length (last_action_ts (game w)) = Gamepi.NUM_SENSORS ->
  length (led_values (game w)) = Gamepi.NUM_SENSORS ->
  forall e, Gamepi.step p w <> Raised e.
Proof.
  intros Hts Hleds. destruct p as [|since].
  - assert (S : never_raises (Gamepi.step Idle)).
    { pose proof never_raises_idle_poll.
      pose proof never_raises_start_new_round.
      unfold Gamepi.step. safe. }
    apply S.
  - unfold Gamepi.step.
    apply no_raise_bind; [apply never_raises_gets|]. intros n w1 Hg.
    unfold gets in Hg. inversion Hg; subst n w1; clear Hg.
    destruct (actions (game w) <? Gamepi.MAX_ACTIONS).
    + apply no_raise_bind; [apply play_iteration_never_raises; assumption|].
      intros flow w2 _. destruct flow; discriminate.
    + apply no_raise_bind; [apply never_raises_idle_enter|].
      intros [] w2 _. discriminate.
Qed.

(** ** The panel after each group of commands *)

Lemma panel_sleep log q : panel (log ++ [Sleep q]) = panel log.
Proof. rewrite panel_app. reflexivity. Qed.

Lemma panel_idle_commands log s :
  length (sensor_leds (panel log)) = 4%nat ->
  panel (log ++ idle_commands s)
  = mkPanel (repeat (off, false) 4) false false false (Some s)
      (soc_shown (panel log)).
Proof.
  intros Hl. rewrite panel_app. unfold idle_commands. simpl.
  rewrite (set_four _ _ _ _ _ Hl). reflexivity.
Qed.

Lemma panel_button_leds log b :
  panel (log ++ [SetButtonLed charge b; SetButtonLed discharge b])
  = mkPanel (sensor_leds (panel log)) b b (windmill (panel log))
      (score_shown (panel log)) (soc_shown (panel log)).
Proof. rewrite panel_app. reflexivity. Qed.

Lemma panel_round_start log r0 r1 r2 r3 c :
  length (sensor_leds (panel log)) = 4%nat ->
  panel (log ++ [SetLed 0 (led_color r0) true; SetLed 1 (led_color r1) true;
                 SetLed 2 (led_color r2) true; SetLed 3 (led_color r3) true;
                 UpdateSocDisplay c])
  = mkPanel (map led_shows [Z.b2z r0; Z.b2z r1; Z.b2z r2; Z.b2z r3])
      (charge_led (panel log)) (discharge_led (panel log))
      (windmill (panel log)) (score_shown (panel log)) (Some c).
Proof.
  intros Hl. rewrite panel_app. simpl.
  rewrite (set_four _ _ _ _ _ Hl), !led_shows_draw. reflexivity.
Qed.

Lemma panel_action log s c r0 r1 r2 r3 k :
  length (sensor_leds (panel log)) = 4%nat ->
  panel (log ++ [UpdateScoreDisplay s; UpdateSocDisplay c]
             ++ action_feedback r0 r1 r2 r3 k)
  = mkPanel (map led_shows [Z.b2z r0; Z.b2z r1; Z.b2z r2; Z.b2z r3])
      (charge_led (panel log)) (discharge_led (panel log))
      false (Some s) (Some c).
Proof.
  intros Hl. unfold action_feedback. rewrite !app_assoc.
  rewrite panel_app, fold_sleeps. rewrite <- app_assoc. rewrite panel_app.
  simpl. rewrite (set_four _ _ _ _ _ Hl), !led_shows_draw. reflexivity.
Qed.

Lemma panel_ok_leds p w :
  game_ok (game w) -> panel_ok p w ->
  length (sensor_leds (panel (out w))) = 4%nat.
Proof.
  intros (_ & _ & _ & _ & _ & Hl & _) (_ & _ & H).
  destruct p; destruct H as [-> _]; [reflexivity|].
  rewrite length_map. exact Hl.
Qed.

(** ** Every step keeps game and panel in shape *)

Lemma binary_draw r : binary (Z.b2z r).
Proof. destruct r; [right | left]; reflexivity. Qed.

Lemma game_ok_init : game_ok Gamepi.__init__.
Proof.
  unfold game_ok, Gamepi.__init__, Gamepi.MAX_ACTIONS, Gamepi.SOC_LEVELS,
    Gamepi.NUM_SENSORS; simpl.
  split; [lia|]. split; [exists 0; reflexivity|]. split; [lia|].
  split; [change (10 / 2) with 5; lia|].
  split; [reflexivity|]. split; [reflexivity|].
  split; [|exact I]. repeat constructor; left; reflexivity.
Qed.

Lemma game_ok_after_action g score_delta soc_change sensor_idx now r0 r1 r2 r3 :
  game_ok g ->
  actions g < Gamepi.MAX_ACTIONS ->
  (sensor_idx < Gamepi.NUM_SENSORS)%nat ->
  score_delta = 5 \/ score_delta = 50 \/ score_delta = 100 ->
  game_ok
    (mkGame (score g + score_delta) (actions g + 1)
       (clamp (soc g + soc_change - switch_penalty (last_sensor g) sensor_idx)
          0 Gamepi.SOC_LEVELS)
       (Some sensor_idx) (setitem (last_action_ts g) sensor_idx now)
       [Z.b2z r0; Z.b2z r1; Z.b2z r2; Z.b2z r3]).
Proof.
  intros (S0 & S5 & A & C & T & L & B & LS) Hlt Hidx Hd.
  unfold game_ok; simpl. split; [lia|]. split.
  { apply Z.divide_add_r; [exact S5|].
    destruct Hd as [-> | [-> | ->]];
      [exists 1 | exists 10 | exists 20]; reflexivity. }
  split; [lia|]. split; [apply clamp_bounds; unfold Gamepi.SOC_LEVELS; lia|].
  split; [rewrite length_setitem; exact T|]. split; [reflexivity|].
  split; [|exact Hidx].
  repeat (apply Forall_cons; [apply binary_draw|]); apply Forall_nil.
Qed.

Lemma step_keeps_reach p w p' w' :
  reach_ok p w ->
  Gamepi.step p w = Done p' w' ->
  reach_ok p' w'.
Proof.
  intros [Hg Hp] Hstep.
  pose proof (panel_ok_leds _ _ Hg Hp) as Hlen.
  destruct p as [|since].
  - (* the idle loop *)
    unfold Gamepi.step in Hstep.
    apply bind_Done in Hstep. destruct Hstep as (started & w1 & Hpoll & H).
    pose proof (idle_poll_view _ _ _ Hpoll) as [G1 P1].
    destruct Hp as (Hw & Hs & Hl & Hc & Hd).
    destruct started.
    + apply bind_Done in H. destruct H as ([] & w2 & Hstart & H).
      inversion H; subst p' w'; clear H.
      apply start_new_round_inv in Hstart.
      destruct Hstart as (r0 & r1 & r2 & r3 & rt' & _ & ->).
      destruct Hg as (S0 & S5 & A & C & T & L & B & LS).
      split.
      * unfold game_ok; simpl. rewrite G1.
        unfold Gamepi.MAX_ACTIONS, Gamepi.SOC_LEVELS.
        repeat split; try assumption; try lia.
        repeat (apply Forall_cons; [apply binary_draw|]); apply Forall_nil.
      * unfold panel_ok; simpl.
        rewrite panel_round_start by (rewrite P1; exact Hlen).
        simpl. rewrite P1, G1. repeat split; assumption.
    + inversion H; subst p' w'; clear H.
      split; [rewrite G1; exact Hg|].
      unfold panel_ok. rewrite P1, G1. repeat split; assumption.
  - (* the play loop *)
    apply step_playing_inv in Hstep.
    destruct Hstep as [(Hlt & flow & Hit & ->) | (_ & -> & ->)].
    + apply play_iteration_steps in Hit.
      destruct Hit as (active & w1 & fl & w3 & Ha & Hc & H).
      pose proof (get_active_sensor_only_sensors _ _ _ Ha) as (G1 & L1 & _).
      destruct Hp as (Hw & Hs & Hl & Hsoc).
      set (any := match active with Some _ => true | None => false end) in *.
      assert (P2 : panel (out w1 ++ [SetButtonLed charge any;
                                     SetButtonLed discharge any])
                   = mkPanel (sensor_leds (panel (out w))) any any
                       (windmill (panel (out w))) (score_shown (panel (out w)))
                       (soc_shown (panel (out w))))
        by (rewrite panel_button_leds, L1; reflexivity).
      apply reset_combo_inv in Hc. destruct fl as [since'|].
      * (* the poll goes on to the dispatch *)
        destruct Hc as [G3 L3]. simpl in G3, L3.
        destruct H as (-> & w4 & Hu & ->).
        apply user_action_inv in Hu.
        destruct Hu as [[G4 L4] | (a & button & wm & now & rest & last_ts
                                   & -> & Gm & Lm & Hck & Hts & Hge & Hact)].
        -- split; [simpl; rewrite G4, G3, G1; exact Hg|].
           unfold panel_ok; simpl.
           rewrite panel_sleep, L4, L3, P2, G4, G3, G1. simpl.
           repeat split; assumption.
        -- destruct (handle_action_accepted_full _ _ _ _ _ _ _ Hck Hts Hge Hact)
             as (led & sd & cd & r0 & r1 & r2 & r3 & rt' & passes & bt'
                 & _ & Htab & _ & _ & _ & _ & Gw & Lw).
           rewrite Gm, G3, G1 in Gw. rewrite Lm, L3 in Lw.
           split.
           ++ simpl. rewrite Gw. apply game_ok_after_action; try assumption.
              ** eapply get_active_sensor_range. exact Ha.
              ** eapply delta_table_scores. exact Htab.
           ++ unfold panel_ok; simpl. rewrite panel_sleep, Lw, Gw.
              rewrite panel_action by (rewrite P2; exact Hlen).
              simpl. rewrite Gm, G3, G1. repeat split.
      * (* the reset *)
        destruct Hc as (s & bt & t & ct & _ & _ & _ & _ & ->).
        destruct H as (-> & ->).
        destruct Hg as (S0 & S5 & A & C & T & L & B & LS).
        split.
        -- unfold game_ok; simpl. rewrite G1.
           repeat split; try assumption; try lia. exists 0. reflexivity.
        -- unfold panel_ok; simpl.
           rewrite panel_idle_commands by (rewrite P2; exact Hlen).
           simpl. repeat split.
    + (* the round is over *)
      split; [exact Hg|].
      destruct Hp as (Hw & Hs & Hl & Hsoc).
      unfold panel_ok; simpl.
      rewrite panel_idle_commands by exact Hlen.
      simpl. repeat split.
Qed.

Lemma run_keeps_reach n :
  forall p w,
    reach_ok p w ->
    post (Gamepi.run n p w) (fun p' w' => reach_ok p' w').
Proof.
  induction n as [|n IH]; intros p w Hr; simpl; [exact Hr|].
  apply post_bind.
  destruct (Gamepi.step p w) as [p1 w1| |e] eqn:E; simpl.
  - apply IH. eapply step_keeps_reach; eassumption.
  - exact I.
  - destruct Hr as [(_ & _ & _ & _ & T & L & _) _].
    exact (step_never_raises p w T L e E).
Qed.

Lemma power_up_reach n e :
  post (power_up n e) (fun p w => reach_ok p w).
Proof.
  unfold power_up. apply post_bind. rewrite idle_enter_run. simpl.
  apply run_keeps_reach. split; [exact game_ok_init|].
  unfold panel_ok; simpl. repeat split.
Qed.

(** * Further properties of the game logic *)

(** X1.  [_get_active_sensor] reads the sensors in index order and stops
    at the first active one: it returns index i exactly when the readings
    were i times inactive and then active, and None after four inactive
    readings.  It touches nothing but the sensor readings and never
    raises; it waits only if fewer than four readings, all inactive,
    are to come. *)
Theorem X1_get_active_sensor_lowest_wins :
  forall w,
    match Gamepi._get_active_sensor w with
    | Done active w' =>
        keeps_but_sensors w w' /\
        match active with
        | Some i =>
            (i < 4)%nat /\
            sensor_tape (env w) = repeat false i ++ true :: sensor_tape (env w')
        | None =>
            sensor_tape (env w) = repeat false 4 ++ sensor_tape (env w')
        end
    | Starved =>
        (length (sensor_tape (env w)) < 4)%nat /\
        sensor_tape (env w) = repeat false (length (sensor_tape (env w)))
    | Raised _ => False
    end.
Proof.
  intros [g [st bt ct rt] o].
  destruct st as [|[|] [|[|] [|[|] [|[|] st]]]];
    cbv [Gamepi._get_active_sensor Gamepi.NUM_SENSORS Gamepi.first_active
         bind read_sensor ret sensor_tape env game out button_tape
         clock_tape random_tape keeps_but_sensors];
    simpl; repeat split; lia.
Qed.

(** X2.  [_randomise_leds] takes four draws, stores them as the LED
    values and commands LED i red for a 0 and green for a 1, in index
    order, with nothing else changed; it never raises (no draw is a
    missing key of LED_COLOR) and waits only if fewer than four draws
    are to come. *)
Theorem X2_randomise_leds_shows_draws :
  forall w,
    match Gamepi._randomise_leds w with
    | Done _ w' =>
        exists r0 r1 r2 r3 rt',
          random_tape (env w) = r0 :: r1 :: r2 :: r3 :: rt' /\
          led_values (game w') = [Z.b2z r0; Z.b2z r1; Z.b2z r2; Z.b2z r3] /\
          out w' = out w ++ [SetLed 0 (fst (led_shows (Z.b2z r0))) true;
                             SetLed 1 (fst (led_shows (Z.b2z r1))) true;
                             SetLed 2 (fst (led_shows (Z.b2z r2))) true;
                             SetLed 3 (fst (led_shows (Z.b2z r3))) true] /\
          keeps_round w w' /\
          env w' = mkEnv (sensor_tape (env w)) (button_tape (env w))
                     (clock_tape (env w)) rt'
    | Starved => (length (random_tape (env w)) < 4)%nat
    | Raised _ => False
    end.
Proof.
  intros w.
  destruct (Gamepi._randomise_leds w) as [[] w'| |e] eqn:E.
  - pose proof (randomise_leds_round _ _ _ E) as Hr.
    apply randomise_leds_inv in E.
    destruct E as (r0 & r1 & r2 & r3 & rt' & Hrt & ->).
    exists r0, r1, r2, r3, rt'. rewrite !led_shows_draw. simpl.
    repeat split; try assumption; apply Hr.
  - destruct w as [g [st b c rt] o]. simpl.
    destruct rt as [|r0 [|r1 [|r2 [|r3 rt]]]]; simpl; try lia.
    rewrite randomise_leds_run in E. discriminate.
  - exact (never_raises_randomise_leds w e E).
Qed.

(** X3.  An action that passes the cooldown issues, in this order: the
    new score to the score display, the new SoC to the SoC display, the
    turbine on, a 0.2 s sleep, the turbine off, the four fresh LED
    colours, and then nothing but 0.01 s sleeps while it waits for the
    buttons to be released. *)
Theorem X3_accepted_action_commands :
  forall sensor_idx button w now rest last_ts w',
    clock_tape (env w) = now :: rest ->
    nth_error (last_action_ts (game w)) sensor_idx = Some last_ts ->
    (1 <= now - last_ts)%Q ->
    Gamepi._handle_action sensor_idx button w = Done tt w' ->
    exists v0 v1 v2 v3 k,
      led_values (game w') = [v0; v1; v2; v3] /\
      out w' =
        out w
        ++ [UpdateScoreDisplay (score (game w'));
            UpdateSocDisplay (soc (game w'));
            SetWindmill true; Sleep 0.2; SetWindmill false;
            SetLed 0 (fst (led_shows v0)) true;
            SetLed 1 (fst (led_shows v1)) true;
            SetLed 2 (fst (led_shows v2)) true;
            SetLed 3 (fst (led_shows v3)) true]
        ++ repeat (Sleep 0.01) k.
Proof.
  intros sensor_idx button w now rest last_ts w' Hc Hts Hge H.
  destruct (handle_action_accepted_full _ _ _ _ _ _ _ Hc Hts Hge H)
    as (led & sd & cd & r0 & r1 & r2 & r3 & rt' & passes & bt'
        & _ & _ & _ & _ & _ & _ & Gw & Lw).
  exists (Z.b2z r0), (Z.b2z r1), (Z.b2z r2), (Z.b2z r3), (length passes).
  rewrite Lw, Gw, !led_shows_draw. simpl. split; reflexivity.
Qed.

Lemma X3_accepted_action_commands_witness :
  exists v0 v1 v2 v3 k,
    led_values (game (after (Gamepi._handle_action 1 charge holding_world)
                        holding_world)) = [v0; v1; v2; v3] /\
    out (after (Gamepi._handle_action 1 charge holding_world) holding_world) =
      out holding_world
      ++ [UpdateScoreDisplay
            (score (game (after (Gamepi._handle_action 1 charge holding_world)
                            holding_world)));
          UpdateSocDisplay
            (soc (game (after (Gamepi._handle_action 1 charge holding_world)
                          holding_world)));
          SetWindmill true; Sleep 0.2; SetWindmill false;
          SetLed 0 (fst (led_shows v0)) true;
          SetLed 1 (fst (led_shows v1)) true;
          SetLed 2 (fst (led_shows v2)) true;
          SetLed 3 (fst (led_shows v3)) true]
      ++ repeat (Sleep 0.01) k.
Proof.
  apply (X3_accepted_action_commands 1%nat charge holding_world 100%Q []
           50%Q).
  - reflexivity.
  - reflexivity.
  - vm_compute. discriminate.
  - vm_compute. reflexivity.
Defined.

(** X4.  An action that passes the cooldown stamps the clock reading on
    its own sensor and leaves the timestamps of all other sensors, and
    their number, as they were. *)
Theorem X4_action_stamps_own_sensor_only :
  forall sensor_idx button w now rest last_ts w',
    clock_tape (env w) = now :: rest ->
    nth_error (last_action_ts (game w)) sensor_idx = Some last_ts ->
    (1 <= now - last_ts)%Q ->
    Gamepi._handle_action sensor_idx button w = Done tt w' ->
    nth_error (last_action_ts (game w')) sensor_idx = Some now /\
    length (last_action_ts (game w')) = length (last_action_ts (game w)) /\
    forall other,
      other <> sensor_idx ->
      nth_error (last_action_ts (game w')) other
      = nth_error (last_action_ts (game w)) other.
Proof.
  intros sensor_idx button w now rest last_ts w' Hc Hts Hge H.
  destruct (handle_action_accepted _ _ _ _ _ _ _ Hc Hts Hge H)
    as (_ & _ & _ & _ & _ & _ & _ & _ & _ & T & _).
  rewrite T. split; [eapply nth_error_setitem; exact Hts|].
  split; [apply length_setitem|].
  intros other Hne. apply nth_error_setitem_other. congruence.
Qed.

Lemma X4_action_stamps_own_sensor_only_witness :
  nth_error (last_action_ts
               (game (after (Gamepi._handle_action 1 charge holding_world)
                        holding_world))) 1 = Some 100%Q /\
  length (last_action_ts
            (game (after (Gamepi._handle_action 1 charge holding_world)
                     holding_world)))
  = length (last_action_ts (game holding_world)) /\
  forall other,
    other <> 1%nat ->
    nth_error (last_action_ts
                 (game (after (Gamepi._handle_action 1 charge holding_world)
                          holding_world))) other
    = nth_error (last_action_ts (game holding_world)) other.
Proof.
  apply (X4_action_stamps_own_sensor_only 1%nat charge holding_world 100%Q []
           50%Q).
  - reflexivity.
  - reflexivity.
  - vm_compute. discriminate.
  - vm_compute. reflexivity.
Defined.

(** X5.  The release wait returns only after one pass has read both
    buttons as released.  Every earlier pass found a button down and
    slept 0.01 s; the game is untouched and nothing but these sleeps is
    issued. *)
Theorem X5_wait_release_until_both_up :
  forall w w',
    wait_release w = Done tt w' ->
    exists passes,
      Forall held_pass passes /\
      button_tape (env w)
      = concat passes ++ false :: false :: button_tape (env w') /\
      game w' = game w /\
      out w' = out w ++ repeat (Sleep 0.01) (length passes) /\
      sensor_tape (env w') = sensor_tape (env w) /\
      clock_tape (env w') = clock_tape (env w) /\
      random_tape (env w') = random_tape (env w).
Proof.
  intros w w' H. apply wait_release_inv in H.
  destruct H as (passes & bt' & Hp & Hb & ->).
  exists passes. simpl. repeat split; assumption.
Qed.

Lemma X5_wait_release_until_both_up_witness :
  exists passes,
    Forall held_pass passes /\
    button_tape (env holding_world)
    = concat passes ++ false :: false
        :: button_tape (env (after (wait_release holding_world) holding_world)) /\
    game (after (wait_release holding_world) holding_world)
    = game holding_world /\
    out (after (wait_release holding_world) holding_world)
    = out holding_world ++ repeat (Sleep 0.01) (length passes) /\
    sensor_tape (env (after (wait_release holding_world) holding_world))
    = sensor_tape (env holding_world) /\
    clock_tape (env (after (wait_release holding_world) holding_world))
    = clock_tape (env holding_world) /\
    random_tape (env (after (wait_release holding_world) holding_world))
    = random_tape (env holding_world).
Proof.
  apply (X5_wait_release_until_both_up holding_world).
  vm_compute. reflexivity.
Defined.

(** X6.  From power-up the engine never raises: whatever the sensors,
    buttons, clock and random draws answer, and however many steps it
    takes, no subscript is out of range and no LED value is a missing
    key. *)
Theorem X6_engine_never_raises :
  forall n e exn, power_up n e <> Raised exn.
Proof.
  intros n e exn H. pose proof (power_up_reach n e) as P.
  rewrite H in P. exact P.
Qed.

(** X7.  In every state the engine reaches from power-up the score is a
    non-negative multiple of 5, actions lies in 0..10, the SoC in 0..10,
    there are four timestamps and four LED values, each 0 or 1, and
    last_sensor, when set, is a sensor index below 4. *)
Theorem X7_reachable_games_are_well_formed :
  forall n e p w,
    power_up n e = Done p w ->
    game_ok (game w).
Proof.
  intros n e p w H. pose proof (power_up_reach n e) as P.
  rewrite H in P. exact (proj1 P).
Qed.

Lemma X7_reachable_games_are_well_formed_witness :
  game_ok (game (after (power_up 7 (env whole_round_world)) whole_round_world)).
Proof.
  apply (X7_reachable_games_are_well_formed 7 (env whole_round_world)
           (Playing None)).
  vm_compute. reflexivity.
Defined.

(** X8.  In every state the engine reaches from power-up the panel
    agrees with the game: the turbine is off and the score display shows
    the score; in Idle all sensor LEDs and both button LEDs are dark;
    while playing each sensor LED shows the colour of the LED value the
    next action on it will be scored with, and the SoC display shows the
    SoC. *)
Theorem X8_panel_agrees_with_game :
  forall n e p w,
    power_up n e = Done p w ->
    panel_ok p w.
Proof.
  intros n e p w H. pose proof (power_up_reach n e) as P.
  rewrite H in P. exact (proj2 P).
Qed.

Lemma X8_panel_agrees_with_game_witness :
  panel_ok (Playing None)
    (after (power_up 7 (env whole_round_world)) whole_round_world).
Proof.
  apply (X8_panel_agrees_with_game 7 (env whole_round_world)).
  vm_compute. reflexivity.
Defined.

(** X9.  With the SoC within 0..10, an accepted charge never lowers the
    SoC and raises it whenever it is below 10, switch penalty included; an
    accepted discharge never raises it. *)
Theorem X9_charge_raises_discharge_lowers :
  forall sensor_idx button w now rest last_ts w',
    clock_tape (env w) = now :: rest ->
    nth_error (last_action_ts (game w)) sensor_idx = Some last_ts ->
    (1 <= now - last_ts)%Q ->
    0 <= soc (game w) <= 10 ->
    Gamepi._handle_action sensor_idx button w = Done tt w' ->
    match button with
    | charge =>
        soc (game w) <= soc (game w') /\
        (soc (game w) < 10 -> soc (game w) < soc (game w'))
    | discharge => soc (game w') <= soc (game w)
    end.
Proof.
  intros sensor_idx button w now rest last_ts w' Hc Hts Hge Hb H.
  destruct (handle_action_accepted _ _ _ _ _ _ _ Hc Hts Hge H)
    as (led & sd & cd & _ & Ht & _ & _ & Hso & _).
  assert (Hp : 0 <= switch_penalty (last_sensor (game w)) sensor_idx <= 1).
  { unfold switch_penalty. destruct (last_sensor (game w)) as [l|];
      [destruct (Nat.eqb l sensor_idx)|]; lia. }
  rewrite Hso. unfold clamp, Gamepi.SOC_LEVELS.
  unfold delta_table in Ht.
  destruct button.
  - assert (Hinc : 2 <= cd).
    { destruct (led =? 0);
        destruct sensor_idx as [|[|[|[|[|n]]]]]; simpl in Ht;
        try discriminate; inversion Ht; lia. }
    lia.
  - assert (Hcd : cd <= 0).
    { destruct (led =? 0); inversion Ht; lia. }
    lia.
Qed.

Lemma X9_charge_raises_discharge_lowers_witness :
  soc (game holding_world)
  <= soc (game (after (Gamepi._handle_action 1 charge holding_world)
                  holding_world)) /\
  (soc (game holding_world) < 10 ->
   soc (game holding_world)
   < soc (game (after (Gamepi._handle_action 1 charge holding_world)
                  holding_world))).
Proof.
  apply (X9_charge_raises_discharge_lowers 1%nat charge holding_world 100%Q []
           50%Q).
  - reflexivity.
  - reflexivity.
  - vm_compute. discriminate.
  - vm_compute. split; discriminate.
  - vm_compute. reflexivity.
Defined.

Lemma in_round_score w0 since w :
  in_round w0 since w ->
  actions (game w0) = 0 ->
  score (game w0) + 5 * actions (game w) <= score (game w)
  <= score (game w0) + 100 * actions (game w).
Proof.
  intros Hr H0. induction Hr as [|since w since' w' Hr IH Hstep].
  - rewrite H0. lia.
  - apply step_playing_inv in Hstep.
    destruct Hstep as [(Hlt & flow & Hp & Hf) | (_ & Hf & _)];
      [|discriminate].
    destruct flow as [s|]; [|discriminate].
    apply play_iteration_effect in Hp.
    destruct Hp as [[G _] | (A & _ & S & _)].
    + rewrite G. exact IH.
    + rewrite A. lia.
Qed.

(** X10.  While a round lasts, every accepted action has added between 5
    and 100 points: the score lies between the score at round start plus
    5 times [actions] and that score plus 100 times [actions], hence at
    most 1000 above it. *)
Theorem X10_round_score_bounds :
  forall w w0 since w1,
    Gamepi._start_new_round w = Done tt w0 ->
    in_round w0 since w1 ->
    score (game w) + 5 * actions (game w1) <= score (game w1) /\
    score (game w1) <= score (game w) + 100 * actions (game w1) /\
    score (game w1) <= score (game w) + 1000.
Proof.
  intros w w0 since w1 Hs Hr.
  destruct (start_new_round_fields _ _ Hs) as (S0 & A0 & _).
  pose proof (in_round_score _ _ _ Hr A0) as B.
  destruct (in_round_counts _ _ _ Hr A0) as [_ Ha].
  unfold Gamepi.MAX_ACTIONS in Ha. rewrite S0 in B. lia.
Qed.

Lemma X10_round_score_bounds_witness :
  score (game play_world) + 5 * actions (game play_world_polled)
  <= score (game play_world_polled) /\
  score (game play_world_polled)
  <= score (game play_world) + 100 * actions (game play_world_polled) /\
  score (game play_world_polled) <= score (game play_world) + 1000.
Proof.
  apply (X10_round_score_bounds play_world play_world_started None
           play_world_polled).
  - vm_compute. reflexivity.
  - apply (round_poll play_world_started None play_world_started None).
    + apply round_start.
    + vm_compute. reflexivity.
Defined.

(** X11.  A step in Idle looks at the buttons only: sensors and clock
    are not read.  If the first pass reads both buttons as released, the
    engine sleeps 0.02 s and stays in Idle with the game untouched.
    Otherwise it waits until a pass reads both buttons as released and
    only then starts the round, with the combo timer unset. *)
Theorem X11_idle_waits_for_press_and_release :
  forall w p w',
    Gamepi.step Idle w = Done p w' ->
    sensor_tape (env w') = sensor_tape (env w) /\
    clock_tape (env w') = clock_tape (env w) /\
    ((p = Idle /\
      button_tape (env w) = false :: false :: button_tape (env w') /\
      game w' = game w /\
      out w' = out w ++ [Sleep 0.02] /\
      random_tape (env w') = random_tape (env w)) \/
     (p = Playing None /\
      exists first passes,
        held_pass first /\ Forall held_pass passes /\
        button_tape (env w)
        = first ++ concat passes ++ false :: false :: button_tape (env w') /\
        actions (game w') = 0 /\
        score (game w') = score (game w))).
Proof.
  intros [g [st bt ct rt] o] p w' H. unfold Gamepi.step, Gamepi.idle_poll in H.
  assert (Go : forall first bt1,
    held_pass first -> bt = first ++ bt1 ->
    (started <- (wait_release ;; ret true) ;;
     (if started then Gamepi._start_new_round ;; ret (Playing None)
      else ret Idle))
      (mkWorld g (mkEnv st bt1 ct rt) o) = Done p w' ->
    sensor_tape (env w') = st /\ clock_tape (env w') = ct /\
    ((p = Idle /\ bt = false :: false :: button_tape (env w') /\
      game w' = g /\ out w' = o ++ [Sleep 0.02] /\
      random_tape (env w') = rt) \/
     (p = Playing None /\
      exists first passes,
        held_pass first /\ Forall held_pass passes /\
        bt = first ++ concat passes ++ false :: false :: button_tape (env w') /\
        actions (game w') = 0 /\ score (game w') = score g))).
  { intros first bt1 Hf Hbt Hrun.
    apply bind_Done in Hrun. destruct Hrun as (started & w1 & Hw & Hrun).
    apply bind_Done in Hw. destruct Hw as ([] & w2 & Hw & Hret).
    inversion Hret; subst started w2; clear Hret.
    apply wait_release_inv in Hw. simpl in Hw.
    destruct Hw as (passes & bt' & Hp & Hb & ->).
    apply bind_Done in Hrun. destruct Hrun as ([] & w3 & Hs & Hret).
    inversion Hret; subst p w3; clear Hret.
    apply start_new_round_inv in Hs.
    destruct Hs as (r0 & r1 & r2 & r3 & rt' & _ & ->). simpl.
    split; [reflexivity|]. split; [reflexivity|]. right.
    split; [reflexivity|]. exists first, passes.
    repeat split; try assumption. rewrite Hbt, Hb. reflexivity. }
  destruct bt as [|c bt]; [discriminate|].
  destruct c.
  - unfold bind at 1 2 in H. unfold read_button at 1 in H. simpl in H.
    unfold bind at 1 in H. simpl in H.
    apply (Go [true] bt); [left; reflexivity | reflexivity | exact H].
  - destruct bt as [|d bt]; [discriminate|].
    destruct d.
    + unfold bind at 1 2 in H. unfold read_button at 1 in H. simpl in H.
      unfold bind at 1 in H. unfold read_button at 1 in H. simpl in H.
      apply (Go [false; true] bt); [right; reflexivity | reflexivity | exact H].
    + vm_compute in H. inversion H; subst. simpl.
      split; [reflexivity|]. split; [reflexivity|]. left.
      repeat split.
Qed.

Lemma X11_idle_waits_for_press_and_release_witness :
  sensor_tape (env (after (Gamepi.step Idle idle_world) idle_world))
  = sensor_tape (env idle_world) /\
  clock_tape (env (after (Gamepi.step Idle idle_world) idle_world))
  = clock_tape (env idle_world) /\
  ((Playing None = Idle /\
    button_tape (env idle_world)
    = false :: false
        :: button_tape (env (after (Gamepi.step Idle idle_world) idle_world)) /\
    game (after (Gamepi.step Idle idle_world) idle_world) = game idle_world /\
    out (after (Gamepi.step Idle idle_world) idle_world)
    = out idle_world ++ [Sleep 0.02] /\
    random_tape (env (after (Gamepi.step Idle idle_world) idle_world))
    = random_tape (env idle_world)) \/
   (Playing None = Playing None /\
    exists first passes,
      held_pass first /\ Forall held_pass passes /\
      button_tape (env idle_world)
      = first ++ concat passes ++ false :: false
          :: button_tape (env (after (Gamepi.step Idle idle_world) idle_world)) /\
      actions (game (after (Gamepi.step Idle idle_world) idle_world)) = 0 /\
      score (game (after (Gamepi.step Idle idle_world) idle_world))
      = score (game idle_world))).
Proof.
  apply (X11_idle_waits_for_press_and_release idle_world (Playing None)).
  vm_compute. reflexivity.
Defined.

(** * The hardware layers *)

Lemma in_range_cases index :
  0 <= index < 4 -> index = 0 \/ index = 1 \/ index = 2 \/ index = 3.
Proof. lia. Qed.

(** X12.  [set_led] of [gamepi.py] in closed form: an index outside 0..3
    raises ValueError before any LED function is called; otherwise off(N)
    is called for N = index + 1, followed by r(N) when [on] holds and the
    colour is "red", by g(N) when [on] holds and the colour is "green", and
    by nothing else.  The two inner [raise ValueError] are never reached. *)
Theorem X12_gamepi_set_led_closed_form :
  forall index color on prior,
    GamepiIO.set_led index color on prior =
    if (0 <=? index) && (index <? 4) then
      Fine tt
        (prior ++ led off (Z.to_nat index + 1) ::
           (if on && String.eqb color "red"%string
            then [led red (Z.to_nat index + 1)]
            else if on && String.eqb color "green"%string
                 then [led green (Z.to_nat index + 1)]
                 else []))
    else Failed ValueError prior.
Proof.
  intros index color on prior.
  destruct (Z.leb_spec 0 index) as [Hlo|Hlo];
    [destruct (Z.ltb_spec index 4) as [Hhi|Hhi]|]; cbn [andb].
  - destruct (in_range_cases index (conj Hlo Hhi)) as [-> | [-> | [-> | ->]]];
      destruct on; cbv -[app String.eqb];
      destruct (String.eqb color "red");
      try destruct (String.eqb color "green");
      rewrite <- ?app_assoc; reflexivity.
  - unfold GamepiIO.set_led, hbind, hraise.
    destruct (Z.eqb_spec index 0); [lia|].
    destruct (Z.eqb_spec index 1); [lia|].
    destruct (Z.eqb_spec index 2); [lia|].
    destruct (Z.eqb_spec index 3); [lia|]. reflexivity.
  - unfold GamepiIO.set_led, hbind, hraise.
    destruct (Z.eqb_spec index 0); [lia|].
    destruct (Z.eqb_spec index 1); [lia|].
    destruct (Z.eqb_spec index 2); [lia|].
    destruct (Z.eqb_spec index 3); [lia|]. reflexivity.
Qed.

Lemma wrap_cases index :
  -4 <= index < 0 ->
  index = -4 \/ index = -3 \/ index = -2 \/ index = -1.
Proof. lia. Qed.

Lemma py_index_outside {A} (l : list A) index :
  index < - Z.of_nat (length l) \/ Z.of_nat (length l) <= index ->
  py_index l index = None.
Proof.
  intros H. unfold py_index.
  destruct (Z.leb_spec 0 index); destruct (Z.ltb_spec index (Z.of_nat (length l)));
    cbn [andb]; try lia;
    destruct (Z.leb_spec (- Z.of_nat (length l)) index);
    destruct (Z.ltb_spec index 0); cbn [andb]; try lia; reflexivity.
Qed.

(** X13.  [set_led] of [moonshot.py] in closed form: the index is a list
    subscript, so -4..-1 address the LEDs from the end (index mod 4) and
    anything outside -4..3 raises IndexError before any LED function is
    called; otherwise off(N) is called and then, when [on] holds, r(N) for
    the colour "red" and g(N) for every other colour. *)
Theorem X13_moonshot_set_led_closed_form :
  forall index color on prior,
    MoonshotIO.set_led index color on prior =
    if (-4 <=? index) && (index <? 4) then
      Fine tt
        (prior ++ led off (Z.to_nat (index mod 4) + 1) ::
           (if on
            then [led (if String.eqb color "red"%string then red else green)
                    (Z.to_nat (index mod 4) + 1)]
            else []))
    else Failed ListIndexError prior.
Proof.
  intros index color on prior.
  destruct (Z.leb_spec (-4) index) as [Hlo|Hlo];
    [destruct (Z.ltb_spec index 4) as [Hhi|Hhi]|]; cbn [andb].
  - assert (C : -4 <= index < 0 \/ 0 <= index < 4) by lia.
    destruct C as [C|C];
      [destruct (wrap_cases index C) as [-> | [-> | [-> | ->]]]
      |destruct (in_range_cases index C) as [-> | [-> | [-> | ->]]]];
      destruct on; cbv -[app String.eqb];
      try destruct (String.eqb color "red");
      rewrite <- ?app_assoc; reflexivity.
  - unfold MoonshotIO.set_led, hbind, hraise.
    rewrite py_index_outside by (simpl; lia). reflexivity.
  - unfold MoonshotIO.set_led, hbind, hraise.
    rewrite py_index_outside by (simpl; lia). reflexivity.
Qed.

(** X14.  On the LED commands the game issues, sensor index 0..3 with
    colour "red" or "green" when lighting and any colour when darkening,
    [set_led] of [moonshot.py] and [set_led] of [gamepi.py] call the same
    LED functions in the same order. *)
Theorem X14_set_led_layers_agree :
  forall idx c on prior,
    (idx < 4)%nat ->
    (on = true -> c <> off) ->
    MoonshotIO.set_led (Z.of_nat idx) (color_name c) on prior
    = GamepiIO.set_led (Z.of_nat idx) (color_name c) on prior.
Proof.
  intros idx c on prior Hidx Hc.
  destruct idx as [|[|[|[|idx]]]]; [| | | |lia];
    destruct on, c; try (exfalso; apply Hc; reflexivity);
    reflexivity.
Qed.

Lemma X14_set_led_layers_agree_witness :
  MoonshotIO.set_led 2 "green"%string true [servo false]
  = GamepiIO.set_led 2 "green"%string true [servo false].
Proof.
  apply (X14_set_led_layers_agree 2 green true [servo false]).
  - lia.
  - discriminate.
Defined.

(** X15.  The read functions of the two layers.  [read_sensor] of
    [gamepi.py] answers with the line of sensor [index] for 0..3 and
    returns None, which the scan takes for inactive, for any other index;
    [read_sensor] of [moonshot.py] subscripts a list, so it answers for
    -4..3 (with index mod 4) and raises IndexError elsewhere.
    [read_button] of [gamepi.py] returns None for a name that is neither
    "charge" nor "discharge", where that of [moonshot.py] reads the
    discharge button; on the two names they agree. *)
Theorem X15_read_functions_of_the_layers :
  forall pins index name,
    let lines := [park_office pins; park_home pins; park_shop pins;
                  park_charge pins] in
    GamepiIO.read_sensor pins index
    = (if (0 <=? index) && (index <? 4)
       then Pressed (nth (Z.to_nat index) lines false) else PyNone) /\
    MoonshotIO.read_sensor pins index
    = (if (-4 <=? index) && (index <? 4)
       then Some (nth (Z.to_nat (index mod 4)) lines false) else None) /\
    GamepiIO.read_button pins name
    = (if String.eqb name "charge"%string || String.eqb name "discharge"%string
       then Pressed (MoonshotIO.read_button pins name) else PyNone) /\
    MoonshotIO.read_button pins name
    = MoonshotIO.read_button pins
        (if String.eqb name "charge"%string then "charge"%string
         else "discharge"%string).
Proof.
  intros pins index name lines. split; [|split; [|split]].
  - destruct (Z.leb_spec 0 index) as [Hlo|Hlo];
      [destruct (Z.ltb_spec index 4) as [Hhi|Hhi]|]; cbn [andb].
    + destruct (in_range_cases index (conj Hlo Hhi)) as [-> | [-> | [-> | ->]]];
        reflexivity.
    + unfold GamepiIO.read_sensor.
      destruct (Z.eqb_spec index 0); [lia|].
      destruct (Z.eqb_spec index 1); [lia|].
      destruct (Z.eqb_spec index 2); [lia|].
      destruct (Z.eqb_spec index 3); [lia|]. reflexivity.
    + unfold GamepiIO.read_sensor.
      destruct (Z.eqb_spec index 0); [lia|].
      destruct (Z.eqb_spec index 1); [lia|].
      destruct (Z.eqb_spec index 2); [lia|].
      destruct (Z.eqb_spec index 3); [lia|]. reflexivity.
  - destruct (Z.leb_spec (-4) index) as [Hlo|Hlo];
      [destruct (Z.ltb_spec index 4) as [Hhi|Hhi]|]; cbn [andb].
    + assert (C : -4 <= index < 0 \/ 0 <= index < 4) by lia.
      destruct C as [C|C];
        [destruct (wrap_cases index C) as [-> | [-> | [-> | ->]]]
        |destruct (in_range_cases index C) as [-> | [-> | [-> | ->]]]];
        reflexivity.
    + unfold MoonshotIO.read_sensor. apply py_index_outside. simpl. lia.
    + unfold MoonshotIO.read_sensor. apply py_index_outside. simpl. lia.
  - unfold GamepiIO.read_button, MoonshotIO.read_button.
    destruct (String.eqb name "charge"); [reflexivity|].
    destruct (String.eqb name "discharge"); reflexivity.
  - unfold MoonshotIO.read_button.
    destruct (String.eqb name "charge"); reflexivity.
Qed.

(** ** What the game hands to the layers *)

#[export] Instance appends_frame : Frame appends.
Proof.
  split.
  - intros w. exists []. rewrite app_nil_r. split; [reflexivity | constructor].
  - intros w1 w2 w3 (l1 & E1 & F1) (l2 & E2 & F2).
    exists (l1 ++ l2). rewrite E2, E1, app_assoc.
    split; [reflexivity | apply Forall_app; split; assumption].
Qed.

Lemma appends_emit o : wired o -> respects appends (emit o).
Proof.
  intros Hw w a w' H. unfold emit in H. inversion H; subst; clear H.
  exists [o]. split; [reflexivity | constructor; [exact Hw | constructor]].
Qed.

Lemma appends_same_log {A} (m : M A) :
  respects keeps_log m -> respects appends m.
Proof.
  intros Hm w a w' H. apply Hm in H. red in H.
  exists []. rewrite app_nil_r. split; [exact H | constructor].
Qed.

Lemma appends_read_sensor i : respects appends (read_sensor i).
Proof. apply appends_same_log. frame. Qed.

Lemma appends_read_button n : respects appends (read_button n).
Proof. apply appends_same_log. frame. Qed.

Lemma appends_time_time : respects appends time_time.
Proof. apply appends_same_log. frame. Qed.

Lemma appends_modify f : respects appends (modify f).
Proof. apply appends_same_log. frame. Qed.

Lemma appends_time_sleep q : respects appends (time_sleep q).
Proof. apply appends_emit. exact I. Qed.

Lemma appends_set_button_led n on : respects appends (set_button_led n on).
Proof. apply appends_emit. exact I. Qed.

Lemma appends_set_windmill on : respects appends (set_windmill on).
Proof. apply appends_emit. exact I. Qed.

Lemma appends_update_score s : respects appends (update_score_display s).
Proof. apply appends_emit. exact I. Qed.

Lemma appends_update_soc s : respects appends (update_soc_display s).
Proof. apply appends_emit. exact I. Qed.

Lemma wired_idle_commands s : Forall wired (idle_commands s).
Proof.
  unfold idle_commands, wired, Gamepi.NUM_SENSORS.
  repeat (apply Forall_cons; [first [exact I | split; [lia | discriminate]]|]).
  apply Forall_nil.
Qed.

Lemma appends_idle_enter : respects appends Gamepi.idle_enter.
Proof.
  intros w a w' H. rewrite idle_enter_run in H. inversion H; subst; clear H.
  exists (idle_commands (score (game w))).
  split; [reflexivity | apply wired_idle_commands].
Qed.

Lemma appends_randomise_leds : respects appends Gamepi._randomise_leds.
Proof.
  intros w [] w' H. apply randomise_leds_inv in H.
  destruct H as (r0 & r1 & r2 & r3 & rt' & _ & ->). simpl.
  eexists. split; [reflexivity|].
  unfold wired, Gamepi.NUM_SENSORS.
  repeat (apply Forall_cons;
          [split; [lia | intros _; match goal with
                                   | |- led_color ?r <> off => destruct r
                                   end; discriminate]|]).
  apply Forall_nil.
Qed.

Ltac appends_leaves :=
  pose proof appends_read_sensor; pose proof appends_read_button;
  pose proof appends_time_time; pose proof appends_modify;
  pose proof appends_time_sleep; pose proof appends_set_button_led;
  pose proof appends_set_windmill; pose proof appends_update_score;
  pose proof appends_update_soc; pose proof appends_idle_enter;
  pose proof appends_randomise_leds.

Lemma appends_handle_action sensor_idx button :
  respects appends (Gamepi._handle_action sensor_idx button).
Proof.
  appends_leaves.
  assert (respects appends Gamepi._spin_windmill_briefly)
    by (unfold Gamepi._spin_windmill_briefly; frame).
  unfold Gamepi._handle_action. cbv zeta. frame.
Qed.

Lemma appends_step p : respects appends (Gamepi.step p).
Proof.
  appends_leaves.
  pose proof appends_handle_action.
  assert (respects appends Gamepi._get_active_sensor)
    by (apply get_active_sensor_respects; [exact appends_frame | assumption]).
  unfold Gamepi.step, Gamepi.idle_poll, Gamepi._start_new_round,
    Gamepi.play_iteration, Gamepi.reset_combo, Gamepi._full_reset,
    Gamepi.user_action.
  cbv zeta. frame.
Qed.

Lemma appends_run n : forall p, respects appends (Gamepi.run n p).
Proof.
  induction n as [|n IH]; intros p; simpl.
  - apply respects_ret. exact appends_frame.
  - apply respects_bind; [exact appends_frame | apply appends_step | exact IH].
Qed.

(** From power-up the log is the idle-entry commands of a fresh game
    followed by wired commands. *)
Lemma power_up_log n e p w :
  power_up n e = Done p w ->
  exists l, out w = idle_commands 0 ++ l /\ Forall wired l.
Proof.
  unfold power_up. intros H. rewrite (bind_eq _ _ _ _ _ (idle_enter_run _)) in H.
  apply appends_run in H. exact H.
Qed.

Lemma moonshot_power_up_eq n e : moonshot_power_up n e = power_up n e.
Proof.
  unfold moonshot_power_up, power_up.
  change Moonshot.idle_enter with Gamepi.idle_enter.
  change Moonshot.__init__ with Gamepi.__init__.
  unfold bind. destruct (Gamepi.idle_enter _); [apply run_agree | |]; reflexivity.
Qed.

(** ** Driving a log through a layer *)

Lemma gamepi_drive_all_failed a b prior e calls :
  GamepiIO.drive_all a prior = Failed e calls ->
  GamepiIO.drive_all (a ++ b) prior = Failed e calls.
Proof.
  revert prior. induction a as [|o a IH]; intros prior; simpl.
  - discriminate.
  - unfold hbind. destruct (GamepiIO.drive o prior) as [[] c1|e1 c1].
    + apply IH.
    + intros H. exact H.
Qed.

Lemma moonshot_drive_all_app a b prior calls :
  MoonshotIO.drive_all a prior = Fine tt calls ->
  MoonshotIO.drive_all (a ++ b) prior = MoonshotIO.drive_all b calls.
Proof.
  revert prior. induction a as [|o a IH]; intros prior; simpl.
  - intros H. inversion H. reflexivity.
  - unfold hbind. destruct (MoonshotIO.drive o prior) as [[] c1|e1 c1].
    + apply IH.
    + discriminate.
Qed.

(** A wired command is accepted by [moonshot.py]'s layer, which reaches
    the display through [display.after] only. *)
Lemma moonshot_drive_wired o prior :
  wired o -> Forall marshalled prior ->
  exists cs, MoonshotIO.drive o prior = Fine tt (prior ++ cs) /\
             Forall marshalled (prior ++ cs).
Proof.
  intros Hw Hp.
  assert (K : forall cs, Forall marshalled cs -> Forall marshalled (prior ++ cs))
    by (intros cs Hc; apply Forall_app; split; assumption).
  destruct o as [index color on|name on|on|s|lvl|q]; simpl.
  - destruct Hw as [Hi _]. unfold Gamepi.NUM_SENSORS in Hi.
    destruct index as [|[|[|[|index]]]]; [| | | |lia];
      destruct on, color; cbv -[app]; rewrite <- ?app_assoc;
      (eexists; split; [reflexivity | apply K; repeat constructor]).
  - destruct name; cbv -[app]; rewrite <- ?app_assoc;
      (eexists; split; [reflexivity | apply K; repeat constructor]).
  - destruct on; cbv -[app];
      (eexists; split; [reflexivity | apply K; repeat constructor]).
  - cbv -[app].
    eexists; split; [reflexivity | apply K; repeat constructor].
  - cbv -[app].
    eexists; split; [reflexivity | apply K; repeat constructor].
  - exists []. rewrite app_nil_r. split; [reflexivity | exact Hp].
Qed.

Lemma moonshot_drive_all_wired log :
  Forall wired log ->
  forall prior, Forall marshalled prior ->
  exists cs, MoonshotIO.drive_all log prior = Fine tt (prior ++ cs) /\
             Forall marshalled (prior ++ cs).
Proof.
  induction 1 as [|o log Ho Hl IH]; intros prior Hp; simpl.
  - exists []. rewrite app_nil_r. split; [reflexivity | exact Hp].
  - destruct (moonshot_drive_wired o prior Ho Hp) as (c1 & E1 & M1).
    unfold hbind. rewrite E1.
    destruct (IH _ M1) as (c2 & E2 & M2).
    exists (c1 ++ c2). rewrite app_assoc. split; assumption.
Qed.

(** X16.  [gamepi.py] never binds the name [display] its layer uses: in
    every state the engine reaches from power-up, handing the commands
    issued so far to the layer of [gamepi.py] ends in NameError at the
    fifth command, after the four sensor LEDs were blanked and the LED of
    the charge button was switched off, before anything is displayed. *)
Theorem X16_gamepi_layer_fails_at_power_up :
  forall n e p w,
    power_up n e = Done p w ->
    GamepiIO.drive_all (out w) []
    = Failed NameError
        [led off 1; led off 2; led off 3; led off 4; pin charge false].
Proof.
  intros n e p w H. apply power_up_log in H. destruct H as (l & -> & _).
  apply gamepi_drive_all_failed. reflexivity.
Qed.

Lemma X16_gamepi_layer_fails_at_power_up_witness :
  GamepiIO.drive_all
    (out (after (power_up 7 (env whole_round_world)) whole_round_world)) []
  = Failed NameError
      [led off 1; led off 2; led off 3; led off 4; pin charge false].
Proof.
  apply (X16_gamepi_layer_fails_at_power_up 7 (env whole_round_world)
           (Playing None)).
  vm_compute. reflexivity.
Defined.

(** X17.  The layer of [moonshot.py] accepts every command its engine
    issues: in every state reached from power-up, the commands issued so
    far run through the layer without IndexError, and every call on the
    display among them is scheduled with [display.after], none is made
    from the game thread. *)
Theorem X17_moonshot_layer_accepts_the_engine :
  forall n e p w,
    moonshot_power_up n e = Done p w ->
    exists calls,
      MoonshotIO.drive_all (out w) [] = Fine tt calls /\
      Forall marshalled calls.
Proof.
  intros n e p w H. rewrite moonshot_power_up_eq in H.
  apply power_up_log in H. destruct H as (l & -> & Hl).
  destruct (moonshot_drive_all_wired _
              (proj2 (Forall_app _ _ _) (conj (wired_idle_commands 0) Hl))
              [] (Forall_nil _)) as (cs & E & Hm).
  exists cs. split; assumption.
Qed.

Lemma X17_moonshot_layer_accepts_the_engine_witness :
  exists calls,
    MoonshotIO.drive_all
      (out (after (moonshot_power_up 7 (env whole_round_world))
              whole_round_world)) []
    = Fine tt calls /\
    Forall marshalled calls.
Proof.
  apply (X17_moonshot_layer_accepts_the_engine 7 (env whole_round_world)
           (Playing None)).
  vm_compute. reflexivity.
Defined.

(** * The display *)

(** ** The score text *)

Lemma length_append s t :
  String.length (String.append s t)
  = (String.length s + String.length t)%nat.
Proof. induction s as [|c s IH]; simpl; [reflexivity | rewrite IH; reflexivity]. Qed.

Lemma number_append s t : forall v,
  number (String.append s t) v = number t (number s v).
Proof. induction s as [|c s IH]; intros v; simpl; [reflexivity | apply IH]. Qed.

Lemma all_digits_append s t :
  all_digits (String.append s t) = all_digits s && all_digits t.
Proof.
  induction s as [|c s IH]; simpl; [reflexivity|].
  rewrite IH, andb_assoc. reflexivity.
Qed.

Lemma append_assoc s t u :
  String.append (String.append s t) u = String.append s (String.append t u).
Proof. induction s as [|c s IH]; simpl; [reflexivity | rewrite IH; reflexivity]. Qed.

Lemma digit_spec d :
  0 <= d < 10 ->
  all_digits (String.String (digit d) String.EmptyString) = true /\
  Z.of_nat (Ascii.nat_of_ascii (digit d)) - 48 = d.
Proof.
  intros H.
  assert (C : d = 0 \/ d = 1 \/ d = 2 \/ d = 3 \/ d = 4 \/ d = 5 \/ d = 6 \/
              d = 7 \/ d = 8 \/ d = 9) by lia.
  repeat (destruct C as [->|C]; [split; reflexivity|]).
  subst d. split; reflexivity.
Qed.

Lemma zeros_spec k :
  String.length (zeros k) = k /\ all_digits (zeros k) = true /\
  number (zeros k) 0 = 0.
Proof.
  induction k as [|k (L & D & N)]; simpl; [repeat split|].
  rewrite L, D. repeat split. exact N.
Qed.

Lemma digits_of_S fuel n acc :
  digits_of (S fuel) n acc
  = if n <? 10 then String.String (digit (n mod 10)) acc
    else digits_of fuel (n / 10) (String.String (digit (n mod 10)) acc).
Proof. reflexivity. Qed.

(** With enough fuel [digits_of] writes the decimal digits of [n], no
    leading zero, before [acc]. *)
Lemma digits_of_spec fuel :
  forall n acc,
    0 <= n < 10 ^ Z.of_nat (S fuel) ->
    exists s,
      digits_of (S fuel) n acc = String.append s acc /\
      all_digits s = true /\
      (forall v, number s v = v * 10 ^ Z.of_nat (String.length s) + n) /\
      n < 10 ^ Z.of_nat (String.length s) /\
      (1 <= String.length s)%nat /\
      ((1 < String.length s)%nat ->
       10 ^ (Z.of_nat (String.length s) - 1) <= n).
Proof.
  induction fuel as [|fuel IH]; intros n acc Hn.
  - assert (n < 10) by (change (10 ^ Z.of_nat 1) with 10 in Hn; lia).
    destruct (digit_spec n) as [D V]; [lia|].
    exists (String.String (digit n) String.EmptyString).
    rewrite digits_of_S, Z.mod_small by lia.
    destruct (Z.ltb_spec n 10); [|lia].
    split; [reflexivity|]. split; [exact D|].
    split; [intros v; cbn [number String.length]; rewrite V;
            change (10 ^ Z.of_nat 1) with 10; lia|].
    cbn [String.length]. change (10 ^ Z.of_nat 1) with 10.
    split; [lia|]. split; lia.
  - rewrite digits_of_S. destruct (Z.ltb_spec n 10) as [Hlt|Hge].
    + destruct (digit_spec n) as [D V]; [lia|].
      exists (String.String (digit n) String.EmptyString).
      rewrite Z.mod_small by lia.
      split; [reflexivity|]. split; [exact D|].
      split; [intros v; cbn [number String.length]; rewrite V;
              change (10 ^ Z.of_nat 1) with 10; lia|].
      cbn [String.length]. change (10 ^ Z.of_nat 1) with 10.
      split; [lia|]. split; lia.
    + assert (Hpow : 10 ^ Z.of_nat (S (S fuel)) = 10 * 10 ^ Z.of_nat (S fuel))
        by (rewrite (Nat2Z.inj_succ (S fuel)), Z.pow_succ_r by lia; reflexivity).
      assert (Hq : 0 <= n / 10 < 10 ^ Z.of_nat (S fuel)).
      { split; [apply Z.div_pos; lia|].
        apply Z.div_lt_upper_bound; lia. }
      destruct (IH (n / 10) (String.String (digit (n mod 10)) acc) Hq)
        as (s & E & D & V & U & L1 & L2).
      pose proof (Z.mod_pos_bound n 10 ltac:(lia)) as Hm.
      destruct (digit_spec (n mod 10) Hm) as [Dd Vd].
      pose proof (Z.div_mod n 10 ltac:(lia)) as Hdm.
      exists (String.append s (String.String (digit (n mod 10)) String.EmptyString)).
      assert (Hlen : String.length
                       (String.append s
                          (String.String (digit (n mod 10)) String.EmptyString))
                     = S (String.length s))
        by (rewrite length_append; simpl; lia).
      assert (Hp : 10 ^ Z.of_nat (S (String.length s))
                   = 10 * 10 ^ Z.of_nat (String.length s))
        by (rewrite Nat2Z.inj_succ, Z.pow_succ_r by lia; reflexivity).
      split; [rewrite E, append_assoc; reflexivity|].
      split; [rewrite all_digits_append, D, Dd; reflexivity|].
      rewrite Hlen, Hp.
      split; [intros v; rewrite number_append, V; cbn [number]; rewrite Vd; lia|].
      split; [lia|]. split; [lia|].
      intros _.
      replace (Z.of_nat (S (String.length s)) - 1)
        with (Z.of_nat (String.length s)) by lia.
      destruct (Nat.eq_dec (String.length s) 1) as [E1|N1].
      * rewrite E1. change (10 ^ Z.of_nat 1) with 10. lia.
      * assert (L3 : (1 < String.length s)%nat) by lia.
        specialize (L2 L3).
        replace (Z.of_nat (String.length s))
          with (Z.succ (Z.of_nat (String.length s) - 1)) by lia.
        rewrite Z.pow_succ_r by lia. lia.
Qed.

Lemma decimal_spec n :
  0 <= n ->
  all_digits (decimal n) = true /\
  number (decimal n) 0 = n /\
  n < 10 ^ Z.of_nat (String.length (decimal n)) /\
  (1 <= String.length (decimal n))%nat /\
  ((1 < String.length (decimal n))%nat ->
   10 ^ (Z.of_nat (String.length (decimal n)) - 1) <= n).
Proof.
  intros Hn. unfold decimal.
  assert (Hf : 0 <= n < 10 ^ Z.of_nat (S (Z.to_nat (Z.log2 n)))).
  { split; [exact Hn|].
    pose proof (Z.log2_nonneg n) as Hl.
    rewrite Nat2Z.inj_succ, Z2Nat.id by exact Hl.
    destruct (Z.eq_dec n 0) as [->|Hz].
    - reflexivity.
    - destruct (Z.log2_spec n ltac:(lia)) as [_ Hu].
      eapply Z.lt_le_trans; [exact Hu|].
      apply Z.pow_le_mono_l. lia. }
  destruct (digits_of_spec _ n String.EmptyString Hf)
    as (s & E & D & V & U & L1 & L2).
  assert (Es : String.append s String.EmptyString = s)
    by (clear; induction s as [|c s IH]; simpl; [|rewrite IH]; reflexivity).
  rewrite E, Es. split; [exact D|]. split; [rewrite V; lia|].
  split; [exact U|]. split; assumption.
Qed.

Lemma pow10_mono a b : 0 <= a <= b -> 10 ^ a <= 10 ^ b.
Proof. intros H. apply Z.pow_le_mono_r; lia. Qed.

(** X20.  The score text.  For a score that is not negative, [set_score]
    shows decimal digits only; read as a number they give the score back;
    there are at least four of them, and exactly four if and only if the
    score is at most 9999: a larger score widens the text.  The classes of
    [gui.py] and [moonshot.py] show the same. *)
Theorem X20_score_text_round_trip :
  forall g value,
    0 <= value ->
    let text := _score_var (GuiPy.set_score g value) in
    _score_var (MoonshotGui.set_score g value) = text /\
    all_digits text = true /\
    number text 0 = value /\
    (4 <= String.length text)%nat /\
    (String.length text = 4%nat <-> value <= 9999).
Proof.
  intros g value Hv text. split; [reflexivity|].
  subst text. cbn [GuiPy.set_score _score_var].
  unfold format_04d. destruct (Z.ltb_spec value 0) as [|_]; [lia|].
  rewrite Z.abs_eq by exact Hv. cbn [String.append String.length].
  destruct (decimal_spec value Hv) as (D & V & U & L1 & L2).
  set (body := decimal value) in *.
  destruct (zeros_spec (4 - 0 - String.length body)) as (ZL & ZD & ZN).
  rewrite all_digits_append, number_append, length_append, ZL, ZD, ZN, D, V.
  split; [reflexivity|]. split; [reflexivity|]. split; [lia|].
  split.
  - intros Hl. assert (Hb : (String.length body <= 4)%nat) by lia.
    pose proof (pow10_mono (Z.of_nat (String.length body)) 4 ltac:(lia)) as P.
    change (10 ^ 4) with 10000 in P. lia.
  - intros Hle.
    destruct (Nat.le_gt_cases (String.length body) 4) as [Hs|Hs]; [lia|].
    exfalso. specialize (L2 ltac:(lia)).
    pose proof (pow10_mono 4 (Z.of_nat (String.length body) - 1) ltac:(lia)) as P.
    change (10 ^ 4) with 10000 in P. lia.
Qed.

Lemma X20_score_text_round_trip_witness :
  let text := _score_var (GuiPy.set_score sample_gui 150) in
  _score_var (MoonshotGui.set_score sample_gui 150) = text /\
  all_digits text = true /\
  number text 0 = 150 /\
  (4 <= String.length text)%nat /\
  (String.length text = 4%nat <-> 150 <= 9999).
Proof.
  apply (X20_score_text_round_trip sample_gui 150). lia.
Defined.

(** ** The battery *)

Lemma map_fill_split {A} (a b : A) (lvl : Z) (n : nat) :
  0 <= lvl <= Z.of_nat n ->
  map (fun i => if Z.of_nat i <? lvl then a else b) (seq 0 n)
  = repeat a (Z.to_nat lvl) ++ repeat b (n - Z.to_nat lvl).
Proof.
  intros H. set (l := Z.to_nat lvl).
  assert (El : lvl = Z.of_nat l) by (subst l; lia). rewrite El.
  assert (Hl : (l <= n)%nat) by lia. clearbody l. clear H El.
  replace n with (l + (n - l))%nat at 1 by lia.
  rewrite seq_app, map_app. f_equal.
  - transitivity (map (fun _ : nat => a) (seq 0 l)).
    + apply map_ext_in. intros i Hi. apply in_seq in Hi.
      destruct (Z.ltb_spec (Z.of_nat i) (Z.of_nat l)); [reflexivity | lia].
    + rewrite map_const, length_seq. reflexivity.
  - transitivity (map (fun _ : nat => b) (seq (0 + l) (n - l))).
    + apply map_ext_in. intros i Hi. apply in_seq in Hi.
      destruct (Z.ltb_spec (Z.of_nat i) (Z.of_nat l)); [lia | reflexivity].
    + rewrite map_const, length_seq. reflexivity.
Qed.

(** X18.  The battery shows the level.  On a canvas that has its geometry
    and at least one segment, [set_level] stores the level clamped to
    0..segments and redraws without error: outline, tip, and one rectangle
    per segment, of which, counted from the bottom, the first [level] are
    filled green and the others are not filled.  The classes of [gui.py]
    and [moonshot.py] draw the same. *)
Theorem X18_battery_shows_the_level :
  forall c lvl,
    1 < winfo_width c -> 1 < winfo_height c -> 0 < segments c ->
    let shown := Z.max 0 (Z.min lvl (segments c)) in
    let c' := fst (GuiPy.set_level c lvl) in
    MoonshotGui.set_level c lvl = GuiPy.set_level c lvl /\
    snd (GuiPy.set_level c lvl) = None /\
    level c' = shown /\
    segments c' = segments c /\
    length (items c') = (2 + Z.to_nat (segments c))%nat /\
    map fill (skipn 2 (items c'))
    = repeat "#22aa22"%string (Z.to_nat shown)
      ++ repeat ""%string (Z.to_nat (segments c - shown)).
Proof.
  intros c lvl Hw Hh Hs shown c'. split; [reflexivity|].
  subst c'. unfold GuiPy.set_level, GuiPy._redraw.
  cbn [winfo_width winfo_height segments level items].
  destruct (Z.leb_spec (winfo_width c) 1); [lia|].
  destruct (Z.leb_spec (winfo_height c) 1); [lia|].
  destruct (Z.eqb_spec (segments c) 0); [lia|].
  cbn [orb fst snd level segments items app skipn length].
  fold shown.
  split; [reflexivity|]. split; [reflexivity|]. split; [reflexivity|].
  split; [rewrite length_map, length_seq; reflexivity|].
  rewrite map_map. cbn [fill].
  assert (Hsh : 0 <= shown <= segments c) by (subst shown; lia).
  rewrite map_fill_split by lia.
  rewrite Z2Nat.inj_sub by lia. reflexivity.
Qed.

Lemma X18_battery_shows_the_level_witness :
  map fill (skipn 2 (items (fst (GuiPy.set_level (battery sample_gui) 12))))
  = repeat "#22aa22"%string 10.
Proof.
  destruct (X18_battery_shows_the_level (battery sample_gui) 12)
    as (_ & _ & _ & _ & _ & H).
  - simpl. lia.
  - simpl. lia.
  - simpl. lia.
  - rewrite H. reflexivity.
Defined.

(** X19.  [_redraw] at the edges.  It always starts from an empty canvas
    and never changes level or segments.  Without geometry (width or
    height at most 1) it draws nothing and ends without error.  With
    geometry and zero segments it draws outline and tip and then fails
    with ZeroDivisionError; with a negative number of segments it draws
    outline and tip only, without error. *)
Theorem X19_redraw_at_the_edges :
  forall c,
    let r := GuiPy._redraw c in
    let geometry := (1 <? winfo_width c) && (1 <? winfo_height c) in
    MoonshotGui._redraw c = r /\
    level (fst r) = level c /\
    segments (fst r) = segments c /\
    snd r = (if geometry && (segments c =? 0) then Some ZeroDivisionError
             else None) /\
    length (items (fst r))
    = (if geometry then (2 + Z.to_nat (segments c))%nat else 0%nat).
Proof.
  intros c r geometry. split; [reflexivity|].
  subst r geometry. unfold GuiPy._redraw.
  destruct (Z.leb_spec (winfo_width c) 1) as [W|W];
    destruct (Z.ltb_spec 1 (winfo_width c)) as [W'|W']; try lia;
    destruct (Z.leb_spec (winfo_height c) 1) as [H|H];
    destruct (Z.ltb_spec 1 (winfo_height c)) as [H'|H']; try lia;
    cbn [orb andb fst snd level segments items length];
    try (repeat split; reflexivity).
  destruct (Z.eqb_spec (segments c) 0) as [E|E];
    cbn [fst snd level segments items length].
  - rewrite E. repeat split; reflexivity.
  - split; [reflexivity|]. split; [reflexivity|]. split; [reflexivity|].
    rewrite length_app, length_map, length_seq. reflexivity.
Qed.

(** X28.  Redrawing.  [_redraw] is bound to resizes of the canvas.  What
    it draws depends on level, segments and geometry, not on what was on
    the canvas: redrawing twice is redrawing once, and two canvases with
    geometry that agree on level and segments, such as one canvas before
    and after a resize, show the same fills, segment by segment, and end
    the same way. *)
Theorem X28_redraw_after_resize :
  forall c c',
    level c' = level c ->
    segments c' = segments c ->
    1 < winfo_width c -> 1 < winfo_height c ->
    1 < winfo_width c' -> 1 < winfo_height c' ->
    map fill (items (fst (GuiPy._redraw c')))
    = map fill (items (fst (GuiPy._redraw c))) /\
    snd (GuiPy._redraw c') = snd (GuiPy._redraw c) /\
    GuiPy._redraw (fst (GuiPy._redraw c)) = GuiPy._redraw c.
Proof.
  intros c c' Hl Hs Hw Hh Hw' Hh'.
  unfold GuiPy._redraw. rewrite Hl, Hs.
  destruct (Z.leb_spec (winfo_width c) 1); [lia|].
  destruct (Z.leb_spec (winfo_height c) 1); [lia|].
  destruct (Z.leb_spec (winfo_width c') 1); [lia|].
  destruct (Z.leb_spec (winfo_height c') 1); [lia|].
  cbn [orb].
  destruct (Z.eqb_spec (segments c) 0) as [E|E];
    cbn [fst snd items level segments winfo_width winfo_height].
  - destruct (Z.leb_spec (winfo_width c) 1); [lia|].
    destruct (Z.leb_spec (winfo_height c) 1); [lia|].
    destruct (Z.eqb_spec (segments c) 0); [|contradiction].
    repeat split.
  - destruct (Z.leb_spec (winfo_width c) 1); [lia|].
    destruct (Z.leb_spec (winfo_height c) 1); [lia|].
    destruct (Z.eqb_spec (segments c) 0); [contradiction|].
    cbn [orb fst snd]. split; [|split; reflexivity].
    cbn [app map fill]. rewrite !map_map. reflexivity.
Qed.

Lemma X28_redraw_after_resize_witness :
  map fill
    (items (fst (GuiPy._redraw (mkBatteryCanvas 10 7 320 480 []))))
  = map fill
      (items (fst (GuiPy._redraw
                     (fst (GuiPy.set_level (battery sample_gui) 7))))).
Proof.
  destruct (X28_redraw_after_resize
              (fst (GuiPy.set_level (battery sample_gui) 7))
              (mkBatteryCanvas 10 7 320 480 [])) as [H _].
  - reflexivity.
  - reflexivity.
  - simpl. lia.
  - simpl. lia.
  - simpl. lia.
  - simpl. lia.
  - exact H.
Defined.

(** ** The labels *)

(** X22.  The two [ScoreGUI] classes differ in [highlight_entladen].  When
    both labels are highlighted one after the other, as the play loop does
    through [set_button_led] when a sensor is active, the class of
    [gui.py] ends with ENTLADEN highlighted and LADEN not, because its
    [highlight_entladen(True)] removes the highlight of LADEN; the class of
    [moonshot.py] ends with both highlighted.  [_set_highlight] itself is
    the same in both and leaves a border of thickness 2 either way. *)
Theorem X22_highlight_entladen_differs :
  forall g,
    fg (laden_lbl g) <> background (laden_lbl g) ->
    let gui_py := GuiPy.highlight_entladen (GuiPy.highlight_laden g true) true in
    let moonshot :=
      MoonshotGui.highlight_entladen (MoonshotGui.highlight_laden g true) true in
    highlighted (laden_lbl gui_py) = false /\
    highlighted (entl_lbl gui_py) = true /\
    highlighted (laden_lbl moonshot) = true /\
    highlighted (entl_lbl moonshot) = true /\
    (forall label active,
       MoonshotGui._set_highlight label active
       = GuiPy._set_highlight label active /\
       highlightthickness (GuiPy._set_highlight label active) = 2).
Proof.
  intros g Hne gui_py moonshot. subst gui_py moonshot.
  unfold highlighted. cbn.
  rewrite !String.eqb_refl.
  split; [|split; [reflexivity|split; [reflexivity|split; [reflexivity|]]]].
  - apply String.eqb_neq. intros E. apply Hne. symmetry. exact E.
  - intros label active. destruct active; split; reflexivity.
Qed.

Lemma X22_highlight_entladen_differs_witness :
  highlighted
    (laden_lbl (GuiPy.highlight_entladen
                  (GuiPy.highlight_laden sample_gui true) true)) = false.
Proof.
  destruct (X22_highlight_entladen_differs sample_gui) as [H _].
  - discriminate.
  - exact H.
Defined.

(** ** From the game to the devices and the display *)

Lemma redraw_keeps c :
  level (fst (MoonshotGui._redraw c)) = level c /\
  segments (fst (MoonshotGui._redraw c)) = segments c.
Proof.
  unfold MoonshotGui._redraw.
  destruct ((winfo_width c <=? 1) || (winfo_height c <=? 1));
    [split; reflexivity|].
  destruct (segments c =? 0); split; reflexivity.
Qed.

Lemma set_soc_battery g lvl :
  level (battery (fst (MoonshotGui.set_soc g lvl)))
  = Z.max 0 (Z.min lvl (segments (battery g))) /\
  segments (battery (fst (MoonshotGui.set_soc g lvl))) = segments (battery g).
Proof.
  unfold MoonshotGui.set_soc, MoonshotGui.set_level. cbn [fst battery].
  destruct (redraw_keeps
              (mkBatteryCanvas (segments (battery g))
                 (Z.max 0 (Z.min lvl (segments (battery g))))
                 (winfo_width (battery g)) (winfo_height (battery g))
                 (items (battery g)))) as [L S].
  rewrite L, S. split; reflexivity.
Qed.

Lemma perform_call_segments g c :
  segments (battery (MoonshotGui.perform_call g c)) = segments (battery g).
Proof.
  destruct c; try reflexivity. apply set_soc_battery.
Qed.

Lemma run_gui_segments calls :
  forall g, segments (battery (MoonshotGui.run_gui calls g))
            = segments (battery g).
Proof.
  induction calls as [|c calls IH]; intros g; simpl; [reflexivity|].
  destruct c; rewrite IH; try reflexivity. apply perform_call_segments.
Qed.

Lemma run_gui_app a b :
  forall g, MoonshotGui.run_gui (a ++ b) g
            = MoonshotGui.run_gui b (MoonshotGui.run_gui a g).
Proof.
  induction a as [|c a IH]; intros g; simpl; [reflexivity|].
  destruct c; apply IH.
Qed.

Lemma last_led_app n a b :
  last_led n (a ++ b)
  = fold_left (fun acc c =>
                 match c with
                 | led fn m => if Nat.eqb m n then Some fn else acc
                 | _ => acc
                 end) b (last_led n a).
Proof. apply fold_left_app. Qed.

Lemma last_pin_app name a b :
  last_pin name (a ++ b)
  = fold_left (fun acc c =>
                 match c, name with
                 | pin charge on, charge => Some on
                 | pin discharge on, discharge => Some on
                 | _, _ => acc
                 end) b (last_pin name a).
Proof. apply fold_left_app. Qed.

Lemma last_servo_app a b :
  last_servo (a ++ b)
  = fold_left (fun acc c =>
                 match c with
                 | servo spin => Some spin
                 | _ => acc
                 end) b (last_servo a).
Proof. apply fold_left_app. Qed.

Lemma four_items {A} (l : list A) :
  length l = 4%nat -> exists a b c d, l = [a; b; c; d].
Proof.
  destruct l as [|a [|b [|c [|d [|x l]]]]]; try discriminate.
  intros _. exists a, b, c, d. reflexivity.
Qed.

(** One command of the game, taken through the layer of [moonshot.py]
    and the display: calls and display go on reflecting the panel. *)
Lemma mirrors_step o p calls g :
  wired o ->
  length (sensor_leds p) = 4%nat ->
  mirrors p calls g ->
  exists cs,
    MoonshotIO.drive o calls = Fine tt (calls ++ cs) /\
    length (sensor_leds (command p o)) = 4%nat /\
    mirrors (command p o) (calls ++ cs) (MoonshotGui.run_gui cs g).
Proof.
  intros Hw Hlen (ML & MC & MD & MS & MSc & MSo & MHl & MHe).
  destruct o as [index color on|name on|on|s|lvl|q].
  - destruct Hw as [Hi Hc]. unfold Gamepi.NUM_SENSORS in Hi.
    destruct (four_items _ Hlen) as (a & b & c & d & El).
    exists (led off (S index) :: if on then [led color (S index)] else []).
    split; [|split].
    + destruct index as [|[|[|[|index]]]]; [| | | |lia];
        destruct on, color; try (exfalso; apply Hc; reflexivity);
        cbv -[app]; rewrite <- ?app_assoc; reflexivity.
    + cbn [command sensor_leds]. rewrite length_setitem. exact Hlen.
    + assert (G : MoonshotGui.run_gui
                    (led off (S index) :: if on then [led color (S index)] else [])
                    g = g) by (destruct on; reflexivity).
      rewrite G. unfold mirrors.
      rewrite !last_pin_app, last_servo_app, MC, MD, MS.
      split; [|destruct on; repeat split; assumption].
      intros i Hi4. unfold Gamepi.NUM_SENSORS in Hi4.
      rewrite last_led_app, (ML i Hi4). cbn [command sensor_leds].
      rewrite El.
      destruct index as [|[|[|[|index]]]]; [| | | |lia];
        destruct i as [|[|[|[|i]]]]; try lia;
        destruct on; reflexivity.
  - exists [pin name on;
            gui_later (match name with
                       | charge => HighlightLaden on
                       | discharge => HighlightEntladen on
                       end)].
    split; [|split; [destruct name; exact Hlen|]].
    + destruct name; cbv -[app]; rewrite <- ?app_assoc; reflexivity.
    + unfold mirrors. rewrite !last_pin_app, last_servo_app, MC, MD, MS.
      split; [intros i Hi4; rewrite last_led_app, (ML i Hi4);
              destruct name; reflexivity|].
      destruct name; cbn;
        (split; [reflexivity|]); (split; [reflexivity|]);
        (split; [reflexivity|]); (split; [exact MSc|]);
        (split; [exact MSo|]); split;
        first [assumption | destruct on; reflexivity].
  - exists [servo on].
    split; [destruct on; reflexivity|]. split; [exact Hlen|].
    unfold mirrors. rewrite !last_pin_app, last_servo_app, MC, MD.
    split; [intros i Hi4; rewrite last_led_app, (ML i Hi4); reflexivity|].
    repeat split; assumption.
  - exists [gui_later (SetScore s)].
    split; [reflexivity|]. split; [exact Hlen|].
    unfold mirrors. rewrite !last_pin_app, last_servo_app, MC, MD, MS.
    split; [intros i Hi4; rewrite last_led_app, (ML i Hi4); reflexivity|].
    cbn. repeat split; try assumption.
    intros s' E. inversion E. reflexivity.
  - exists [gui_later (SetSoc lvl)].
    split; [reflexivity|]. split; [exact Hlen|].
    unfold mirrors. rewrite !last_pin_app, last_servo_app, MC, MD, MS.
    split; [intros i Hi4; rewrite last_led_app, (ML i Hi4); reflexivity|].
    destruct (set_soc_battery g lvl) as [L S].
    cbn [MoonshotGui.run_gui MoonshotGui.perform_call command
           charge_led discharge_led windmill score_shown soc_shown fold_left].
    split; [reflexivity|]. split; [reflexivity|]. split; [reflexivity|].
    split; [exact MSc|].
    split; [intros l E; inversion E; subst l; rewrite L, S; reflexivity|].
    split; assumption.
  - exists []. rewrite app_nil_r.
    split; [reflexivity|]. split; [exact Hlen|].
    repeat split; assumption.
Qed.

Lemma mirrors_log log :
  Forall wired log ->
  forall p calls g,
    length (sensor_leds p) = 4%nat ->
    mirrors p calls g ->
    exists cs,
      MoonshotIO.drive_all log calls = Fine tt (calls ++ cs) /\
      mirrors (fold_left command log p) (calls ++ cs)
        (MoonshotGui.run_gui cs g).
Proof.
  induction 1 as [|o log Ho Hl IH]; intros p calls g Hlen Hm; simpl.
  - exists []. rewrite app_nil_r. split; [reflexivity | exact Hm].
  - destruct (mirrors_step o p calls g Ho Hlen Hm) as (c1 & E1 & L1 & M1).
    unfold hbind. rewrite E1.
    destruct (IH _ _ _ L1 M1) as (c2 & E2 & M2).
    exists (c1 ++ c2). rewrite app_assoc, run_gui_app. split; assumption.
Qed.

(** After the first [idle] the calls and the display reflect the panel. *)
Lemma mirrors_idle_commands g :
  exists calls,
    MoonshotIO.drive_all (idle_commands 0) [] = Fine tt calls /\
    mirrors (panel (idle_commands 0)) calls (MoonshotGui.run_gui calls g).
Proof.
  eexists. split; [reflexivity|].
  unfold mirrors. cbn.
  split; [intros i Hi; unfold Gamepi.NUM_SENSORS in Hi;
          destruct i as [|[|[|[|i]]]]; [| | | |lia]; reflexivity|].
  repeat split; try reflexivity.
  - intros s E. inversion E. reflexivity.
  - intros l E. discriminate.
Qed.

Lemma power_up_mirrors n e p w g :
  power_up n e = Done p w ->
  exists calls,
    MoonshotIO.drive_all (out w) [] = Fine tt calls /\
    mirrors (panel (out w)) calls (MoonshotGui.run_gui calls g).
Proof.
  intros H. apply power_up_log in H. destruct H as (l & -> & Hl).
  destruct (mirrors_idle_commands g) as (c0 & E0 & M0).
  destruct (mirrors_log l Hl (panel (idle_commands 0)) c0 _ eq_refl M0)
    as (cs & E & M).
  exists (c0 ++ cs).
  rewrite (moonshot_drive_all_app _ _ _ _ E0), panel_app, run_gui_app.
  split; assumption.
Qed.

(** X23.  The devices follow the game.  In every state the engine of
    [moonshot.py] reaches from power-up its layer has made all calls without
    error, the servo was last told to stop, and: in Idle the last LED
    function called for each of the four LEDs is its off function and both
    button LEDs were last switched off; while playing the last function
    called for LED i + 1 is its r function if LED value i is 0 and its g
    function otherwise, the colour the next action on sensor i is scored
    with. *)
Theorem X23_moonshot_devices_follow_the_game :
  forall n e p w,
    moonshot_power_up n e = Done p w ->
    exists calls,
      MoonshotIO.drive_all (out w) [] = Fine tt calls /\
      last_servo calls = Some false /\
      match p with
      | Idle =>
          (forall i, (i < 4)%nat -> last_led (S i) calls = Some off) /\
          last_pin charge calls = Some false /\
          last_pin discharge calls = Some false
      | Playing _ =>
          forall i, (i < 4)%nat ->
            last_led (S i) calls
            = Some (if nth i (led_values (game w)) 0 =? 0 then red else green)
      end.
Proof.
  intros n e p w H. rewrite moonshot_power_up_eq in H.
  pose proof (power_up_reach n e) as R. rewrite H in R.
  destruct R as [Hg (Hw & Hs & Hp)].
  destruct (power_up_mirrors n e p w sample_gui H)
    as (calls & E & ML & MC & MD & MS & _).
  exists calls. split; [exact E|]. split; [rewrite MS, Hw; reflexivity|].
  destruct p as [|since].
  - destruct Hp as (Hl & Hc & Hd).
    split; [|split; [rewrite MC, Hc | rewrite MD, Hd]; reflexivity].
    intros i Hi. rewrite (ML i Hi), Hl.
    destruct i as [|[|[|[|i]]]]; [| | | |lia]; reflexivity.
  - destruct Hp as (Hl & _).
    destruct Hg as (_ & _ & _ & _ & _ & Hlv & _).
    destruct (four_items _ Hlv) as (a & b & c & d & El).
    intros i Hi. rewrite (ML i Hi), Hl, El.
    destruct i as [|[|[|[|i]]]]; [| | | |lia]; reflexivity.
Qed.

Lemma X23_moonshot_devices_follow_the_game_witness :
  exists calls,
    MoonshotIO.drive_all
      (out (after (moonshot_power_up 7 (env whole_round_world))
              whole_round_world)) []
    = Fine tt calls /\
    last_servo calls = Some false /\
    forall i, (i < 4)%nat ->
      last_led (S i) calls
      = Some (if nth i (led_values
                          (game (after (moonshot_power_up 7
                                          (env whole_round_world))
                                   whole_round_world))) 0 =? 0
              then red else green).
Proof.
  apply (X23_moonshot_devices_follow_the_game 7 (env whole_round_world)
           (Playing None)).
  vm_compute. reflexivity.
Defined.

(** X24.  The display follows the game.  In every state the engine of
    [moonshot.py] reaches from power-up, once the GUI thread has run the
    calls scheduled so far on a display with a 10-segment battery, the
    score text is the score formatted with 04d; each status label carries
    its highlight exactly if the LED of its button was last switched on;
    and while playing the battery level is the SoC. *)
Theorem X24_moonshot_display_follows_the_game :
  forall n e p w g0,
    moonshot_power_up n e = Done p w ->
    segments (battery g0) = 10 ->
    exists calls charge_on discharge_on,
      MoonshotIO.drive_all (out w) [] = Fine tt calls /\
      let g := MoonshotGui.run_gui calls g0 in
      _score_var g = format_04d (score (game w)) /\
      last_pin charge calls = Some charge_on /\
      last_pin discharge calls = Some discharge_on /\
      highlightbackground (laden_lbl g)
      = (if charge_on then fg (laden_lbl g) else background (laden_lbl g)) /\
      highlightbackground (entl_lbl g)
      = (if discharge_on then fg (entl_lbl g) else background (entl_lbl g)) /\
      match p with
      | Idle => True
      | Playing _ => level (battery g) = soc (game w)
      end.
Proof.
  intros n e p w g0 H Hseg. rewrite moonshot_power_up_eq in H.
  pose proof (power_up_reach n e) as R. rewrite H in R.
  destruct R as [Hg (Hw & Hs & Hp)].
  destruct (power_up_mirrors n e p w g0 H)
    as (calls & E & ML & MC & MD & MS & MSc & MSo & MHl & MHe).
  exists calls, (charge_led (panel (out w))), (discharge_led (panel (out w))).
  split; [exact E|]. cbv zeta.
  split; [apply MSc; exact Hs|].
  split; [exact MC|]. split; [exact MD|].
  split; [exact MHl|]. split; [exact MHe|].
  destruct p as [|since]; [exact I|].
  destruct Hp as (_ & Hsoc).
  rewrite (MSo _ Hsoc), run_gui_segments, Hseg.
  destruct Hg as (_ & _ & _ & Hb & _). unfold Gamepi.SOC_LEVELS in Hb. lia.
Qed.

Lemma X24_moonshot_display_follows_the_game_witness :
  exists calls charge_on discharge_on,
    MoonshotIO.drive_all
      (out (after (moonshot_power_up 7 (env whole_round_world))
              whole_round_world)) []
    = Fine tt calls /\
    let w := after (moonshot_power_up 7 (env whole_round_world))
               whole_round_world in
    let g := MoonshotGui.run_gui calls sample_gui in
    _score_var g = format_04d (score (game w)) /\
    last_pin charge calls = Some charge_on /\
    last_pin discharge calls = Some discharge_on /\
    highlightbackground (laden_lbl g)
    = (if charge_on then fg (laden_lbl g) else background (laden_lbl g)) /\
    highlightbackground (entl_lbl g)
    = (if discharge_on then fg (entl_lbl g) else background (entl_lbl g)) /\
    level (battery g) = soc (game w).
Proof.
  apply (X24_moonshot_display_follows_the_game 7 (env whole_round_world)
           (Playing None)).
  - vm_compute. reflexivity.
  - reflexivity.
Defined.

(** X21.  The score text of a negative value: a minus sign followed by
    at least three decimal digits that read as the absolute value, so
    that the text is again at least four characters wide. *)
Theorem X21_score_text_of_a_negative_value :
  forall g value,
    value < 0 ->
    exists digits,
      _score_var (GuiPy.set_score g value)
      = String.append "-"%string digits /\
      all_digits digits = true /\
      number digits 0 = - value /\
      (3 <= String.length digits)%nat.
Proof.
  intros g value Hv. cbn [GuiPy.set_score _score_var]. unfold format_04d.
  destruct (Z.ltb_spec value 0) as [_|]; [|lia].
  rewrite Z.abs_neq by lia.
  destruct (decimal_spec (- value) ltac:(lia)) as (D & V & _ & L1 & _).
  set (body := decimal (- value)) in *.
  cbn [String.length].
  destruct (zeros_spec (4 - 1 - String.length body)) as (ZL & ZD & ZN).
  exists (String.append (zeros (4 - 1 - String.length body)) body).
  split; [reflexivity|].
  rewrite all_digits_append, number_append, length_append, ZL, ZD, ZN, D, V.
  repeat split. lia.
Qed.

Lemma X21_score_text_of_a_negative_value_witness :
  exists digits,
    _score_var (GuiPy.set_score sample_gui (-5))
    = String.append "-"%string digits /\
    all_digits digits = true /\
    number digits 0 = - -5 /\
    (3 <= String.length digits)%nat.
Proof.
  apply (X21_score_text_of_a_negative_value sample_gui (-5)). lia.
Defined.

(** X25.  The score outgrows the four digits.  Nothing bounds the score:
    it is kept from round to round, and there are inputs, ten rounds of
    ten discharges on a red LED, on which the engine of [moonshot.py]
    reaches a score of 10000 and its display, made for 0000 to 9999, is
    told to show the five characters 10000. *)
Theorem X25_score_outgrows_four_digits :
  exists n e p w calls,
    moonshot_power_up n e = Done p w /\
    MoonshotIO.drive_all (out w) [] = Fine tt calls /\
    score (game w) = 10000 /\
    _score_var (MoonshotGui.run_gui calls sample_gui) = "10000"%string /\
    String.length (_score_var (MoonshotGui.run_gui calls sample_gui)) = 5%nat.
Proof.
  exists 120%nat, long_game_env, Idle.
  exists (after (moonshot_power_up 120 long_game_env)
            (mkWorld Moonshot.__init__ long_game_env [])).
  eexists. split; [vm_compute; reflexivity|].
  split; [vm_compute; reflexivity|].
  split; vm_compute; repeat split.
Qed.

Lemma panel_four log : length (sensor_leds (panel log)) = 4%nat.
Proof.
  unfold panel.
  assert (K : forall p, length (sensor_leds p) = 4%nat ->
                        length (sensor_leds (fold_left command log p)) = 4%nat).
  { induction log as [|o log IH]; intros p Hp; simpl; [exact Hp|].
    apply IH. destruct o as [i c on|[|] on|on|s|l|q]; simpl;
      rewrite ?length_setitem; exact Hp. }
  apply K. reflexivity.
Qed.

Lemma tidy_up_run w :
  moonshot_tidy_up w
  = Done tt (mkWorld (game w) (env w)
               (out w ++ [SetLed 0 off false; SetLed 1 off false;
                          SetLed 2 off false; SetLed 3 off false;
                          SetButtonLed charge false;
                          SetButtonLed discharge false;
                          SetWindmill false])).
Proof.
  destruct w as [g e o]. unfold moonshot_tidy_up.
  unfold bind, set_led, set_button_led, set_windmill, emit; simpl.
  rewrite <- !app_assoc. reflexivity.
Qed.

(** X26.  Leaving the game.  Whatever the game was doing, the tidy-up of
    [moonshot.py]'s worker returns; it leaves game and inputs alone; after
    it all four sensor LEDs and both button LEDs are dark and the turbine
    stands still, while the score and SoC displays keep what they showed;
    and its layer makes the calls without error.  The tidy-up of
    [gamepi.py] issues the same commands, but its layer fails on them with
    NameError once the four LEDs are blanked and the LED of the charge
    button is off: the LED of the discharge button and the turbine are
    not reached. *)
Theorem X26_tidy_up_darkens_everything :
  forall w prior,
    exists w',
      moonshot_tidy_up w = Done tt w' /\
      gamepi_tidy_up w = Done tt w' /\
      game w' = game w /\ env w' = env w /\
      sensor_leds (panel (out w')) = repeat (off, false) 4 /\
      charge_led (panel (out w')) = false /\
      discharge_led (panel (out w')) = false /\
      windmill (panel (out w')) = false /\
      score_shown (panel (out w')) = score_shown (panel (out w)) /\
      soc_shown (panel (out w')) = soc_shown (panel (out w)) /\
      (exists calls,
         MoonshotIO.drive_all (skipn (length (out w)) (out w')) prior
         = Fine tt (prior ++ calls) /\
         (forall i, (i < 4)%nat -> last_led (S i) (prior ++ calls) = Some off) /\
         last_pin charge (prior ++ calls) = Some false /\
         last_pin discharge (prior ++ calls) = Some false /\
         last_servo (prior ++ calls) = Some false) /\
      GamepiIO.drive_all (skipn (length (out w)) (out w')) prior
      = Failed NameError
          (prior ++ [led off 1; led off 2; led off 3; led off 4;
                     pin charge false]).
Proof.
  intros w prior. eexists. split; [apply tidy_up_run|].
  split; [apply tidy_up_run|].
  cbn [game env out].
  split; [reflexivity|]. split; [reflexivity|].
  rewrite panel_app.
  destruct (four_items _ (panel_four (out w))) as (a & b & c & d & El).
  cbn. rewrite El. cbn.
  do 6 (split; [reflexivity|]).
  rewrite skipn_app, skipn_all, Nat.sub_diag. cbn [skipn app].
  split.
  - eexists. split.
    + cbv -[app]. rewrite <- !app_assoc. cbn [app]. reflexivity.
    + rewrite !last_pin_app, last_servo_app.
      split; [|repeat split].
      intros i Hi. rewrite last_led_app.
      destruct i as [|[|[|[|i]]]]; [| | | |lia]; reflexivity.
  - cbv -[app]. rewrite <- !app_assoc. reflexivity.
Qed.

(** * The stack of calls *)

Lemma reset_round g stack o st bt ct rt t t' :
  (3 <= t' - t)%Q ->
  exists g' o',
    run_stack 3 Idle stack
      (mkWorld g
         (mkEnv (false :: false :: false :: false :: false :: false :: false
                 :: false :: st)
            (true :: false :: false :: true :: true :: true :: true :: bt)
            (t :: t' :: ct) (false :: false :: false :: false :: rt)) o)
    = Done (Idle, in_idle :: in_full_reset :: in_play_round
                  :: in_start_new_round :: stack)
        (mkWorld g' (mkEnv st bt ct rt) o').
Proof.
  intros Ht.
  assert (E : Qle_bool 3.0 (t' - t) = true).
  { apply Qle_bool_iff. lra. }
  eexists. eexists.
  cbv -[Qle_bool Qminus app] in E |- *.
  rewrite E. reflexivity.
Qed.

(** The frames are bookkeeping: forgetting them gives the step. *)
Lemma step_stack_erase p stack w :
  Gamepi.step p w = (r <- step_stack p stack ;; ret (fst r)) w.
Proof.
  destruct p as [|since]; unfold Gamepi.step, step_stack, bind, ret.
  - destruct (Gamepi.idle_poll w) as [[|] w1| |e]; try reflexivity.
    destruct (Gamepi._start_new_round w1) as [[] w2| |e]; reflexivity.
  - destruct (gets actions w) as [n w1| |e]; try reflexivity.
    destruct (n <? Gamepi.MAX_ACTIONS).
    + destruct (Gamepi.play_iteration since w1) as [[since'|] w2| |e];
        reflexivity.
    + destruct (Gamepi.idle_enter w1) as [[] w2| |e]; reflexivity.
Qed.

Lemma run_stack_erase n :
  forall p stack w,
    Gamepi.run n p w = (r <- run_stack n p stack ;; ret (fst r)) w.
Proof.
  induction n as [|n IH]; intros p stack w; [reflexivity|].
  cbn [Gamepi.run run_stack]. unfold bind at 1.
  rewrite (step_stack_erase p stack). unfold bind.
  destruct (step_stack p stack w) as [[p1 s1] w1| |e]; try reflexivity.
  cbn [ret fst snd]. rewrite (IH p1 s1 w1). reflexivity.
Qed.

Lemma run_stack_add a :
  forall b p stack w,
    run_stack (a + b) p stack w
    = (r <- run_stack a p stack ;; run_stack b (fst r) (snd r)) w.
Proof.
  induction a as [|a IH]; intros b p stack w; [reflexivity|].
  cbn [Nat.add run_stack]. unfold bind.
  destruct (step_stack p stack w) as [[p1 s1] w1| |e]; try reflexivity.
  cbn [fst snd]. rewrite IH. reflexivity.
Qed.

Lemma reset_rounds rounds :
  forall first g stack o,
    exists g' o' stack',
      run_stack (3 * rounds) Idle stack
        (mkWorld g (reset_rounds_env first rounds) o)
      = Done (Idle, stack') (mkWorld g' (mkEnv [] [] [] []) o') /\
      length stack' = (4 * rounds + length stack)%nat.
Proof.
  induction rounds as [|rounds IH]; intros first g stack o.
  - exists g, o, stack. split; reflexivity.
  - replace (3 * S rounds)%nat with (3 + 3 * rounds)%nat by lia.
    rewrite run_stack_add.
    destruct (reset_round g stack o
                (concat (repeat (repeat false 8) rounds))
                (concat (repeat [true; false; false; true; true; true; true]
                           rounds))
                (flat_map reset_round_clock (seq (S first) rounds))
                (concat (repeat (repeat false 4) rounds))
                (inject_Z (Z.of_nat first) * 6)%Q
                (inject_Z (Z.of_nat first) * 6 + 3)%Q)
      as (g1 & o1 & E1); [lra|].
    change (reset_rounds_env first (S rounds))
      with (mkEnv
              (false :: false :: false :: false :: false :: false :: false
               :: false :: concat (repeat (repeat false 8) rounds))
              (true :: false :: false :: true :: true :: true :: true
               :: concat (repeat [true; false; false; true; true; true; true]
                            rounds))
              ((inject_Z (Z.of_nat first) * 6)%Q
               :: (inject_Z (Z.of_nat first) * 6 + 3)%Q
               :: flat_map reset_round_clock (seq (S first) rounds))
              (false :: false :: false :: false
               :: concat (repeat (repeat false 4) rounds))).
    rewrite (bind_eq _ _ _ _ _ E1). cbn [fst snd].
    destruct (IH (S first) g1
                (in_idle :: in_full_reset :: in_play_round
                 :: in_start_new_round :: stack) o1)
      as (g2 & o2 & s2 & E2 & L2).
    exists g2, o2, s2. split; [exact E2|].
    rewrite L2. simpl. lia.
Qed.

(** X27.  The calls nest without bound.  [idle], [_start_new_round],
    [_play_round] and [_full_reset] call each other and none returns
    before its callee; keeping the frames on a stack changes nothing in
    what the engine does, and for every k there are inputs, k rounds that
    are each started and then reset with the three-second combo on a
    clock that runs forward, after which 4 k + 1 calls of these methods
    are open at once.  No number of frames suffices for every evening. *)
Theorem X27_calls_nest_without_bound :
  (forall n e,
     power_up n e = match power_up_stack n e with
                    | Done r w => Done (fst r) w
                    | Starved => Starved
                    | Raised exn => Raised exn
                    end) /\
  (forall k,
     exists stack w,
       power_up_stack (3 * k) (reset_rounds_env 0 k) = Done (Idle, stack) w /\
       length stack = (4 * k + 1)%nat).
Proof.
  split.
  - intros n e. unfold power_up, power_up_stack, bind.
    destruct (Gamepi.idle_enter _) as [[] w1| |ex]; try reflexivity.
    rewrite (run_stack_erase n Idle [in_idle] w1). unfold bind.
    destruct (run_stack n Idle [in_idle] w1); reflexivity.
  - intros k. unfold power_up_stack.
    rewrite (bind_eq _ _ _ _ _ (idle_enter_run _)).
    destruct (reset_rounds k 0%nat Gamepi.__init__ [in_idle]
                (out (log_more (idle_commands (score (game
                   (mkWorld Gamepi.__init__ (reset_rounds_env 0 k) []))))
                   (mkWorld Gamepi.__init__ (reset_rounds_env 0 k) []))))
      as (g' & o' & stack' & E & L).
    exists stack', (mkWorld g' (mkEnv [] [] [] []) o').
    split; [exact E|]. rewrite L. simpl. lia.
Qed.

(** * The cooldown, round by round *)





(** * The count of accepted actions *)







Lemma step_limited_round_over limit since stack w :
  Gamepi.MAX_ACTIONS <= actions (game w) ->
  (length stack < limit)%nat ->
  step_limited limit (Playing since) stack w
  = Within (Done (Idle, in_idle :: stack)
              (log_more (idle_commands (score (game w))) w)).
Proof.
  intros Hge Hroom. unfold step_limited, step_stack.
  unfold bind at 1, gets.
  destruct (Z.ltb_spec (actions (game w)) Gamepi.MAX_ACTIONS) as [Hlt | _];
    [lia|].
  unfold bind. rewrite idle_enter_run. cbn [ret snd length].
  destruct (Nat.leb_spec (S (length stack)) limit) as [_|Hgt]; [reflexivity|lia].
Qed.



(** * The reset combo, poll by poll *)


Lemma step_limited_reset limit since stack w w' :
  actions (game w) < Gamepi.MAX_ACTIONS ->
  Gamepi.play_iteration since w = Done Return w' ->
  (length stack + 2 <= limit)%nat ->
  step_limited limit (Playing since) stack w
  = Within (Done (Idle, in_idle :: in_full_reset :: stack) w').
Proof.
  intros Hlt Hp Hroom. unfold step_limited, step_stack.
  unfold bind at 1, gets.
  destruct (Z.ltb_spec (actions (game w)) Gamepi.MAX_ACTIONS); [|lia].
  rewrite (bind_eq _ _ _ _ _ Hp). cbn [ret snd length].
  destruct (Nat.leb_spec (S (S (length stack))) limit); [reflexivity|lia].
Qed.

Lemma at_combo_check_returns w :
  (4 <= length (sensor_tape (env w)))%nat ->
  exists active wc,
    at_combo_check w = Some (active, wc) /\
    game wc = game w /\
    button_tape (env wc) = button_tape (env w) /\
    clock_tape (env wc) = clock_tape (env w) /\
    forall since,
      Gamepi.play_iteration since w =
      (flow <- Gamepi.reset_combo since ;;
       match flow with
       | Return => ret Return
       | Next since' =>
           Gamepi.user_action active ;; time_sleep 0.01 ;; ret (Next since')
       end) wc.
Proof.
  intros Hlen. destruct (get_active_sensor_returns _ Hlen) as (a & w1 & Ha).
  pose proof (get_active_sensor_only_sensors _ _ _ Ha) as (K1 & K2 & K3 & K4 & K5).
  unfold at_combo_check. rewrite Ha. cbv zeta.
  eexists. eexists. split; [reflexivity|]. cbn [log_more game env].
  split; [exact K1|]. split; [exact K3|]. split; [exact K4|].
  intros since. apply (play_iteration_eq _ _ _ _ Ha).
Qed.



(** * The score across the phases *)

(** With four draws to come [_start_new_round] returns. *)
Lemma start_new_round_run g st b c r0 r1 r2 r3 rt o :
  Gamepi._start_new_round
    (mkWorld g (mkEnv st b c (r0 :: r1 :: r2 :: r3 :: rt)) o)
  = Done tt
      (mkWorld
         (mkGame (score g) 0 5 None (repeat 0%Q Gamepi.NUM_SENSORS)
            [Z.b2z r0; Z.b2z r1; Z.b2z r2; Z.b2z r3])
         (mkEnv st b c rt)
         (o ++ [SetLed 0 (led_color r0) true; SetLed 1 (led_color r1) true;
                SetLed 2 (led_color r2) true; SetLed 3 (led_color r3) true;
                UpdateSocDisplay 5])).
Proof.
  unfold Gamepi._start_new_round.
  do 4 (unfold bind at 1, modify; cbn [game env out score actions soc
                                         last_sensor last_action_ts led_values]).
  rewrite (bind_eq _ _ _ _ _ (randomise_leds_run _ _ _ _ _ _ _ _ _ _)).
  unfold bind, gets, update_soc_display, emit.
  cbn [game env out score actions soc last_sensor last_action_ts led_values].
  rewrite <- app_assoc. reflexivity.
Qed.

(** C9.  The score across the phases.  Entering idle leaves the game as
    it is.  Starting a round returns, given the four LED draws, with the
    score kept, soc 5 = SOC_LEVELS // 2, actions 0, last_sensor None and
    every last_action_ts 0.  A step from Idle keeps the score.  The end of
    a round after the last action enters Idle with the game as it is,
    provided the stack has room for the call of [idle].  A step of the
    engine lowers the score only when it is the reset taken after both
    buttons were read as pressed for 3 s; and that reset, given room for
    the calls of [_full_reset] and [idle], sets the score to 0 and leaves
    the rest of the game as it is. *)
Theorem C9_score_survives_phases :
  forall w r0 r1 r2 r3 rt w_end since limit stack w_reset s bt t ct,
    random_tape (env w) = r0 :: r1 :: r2 :: r3 :: rt ->
    Gamepi.MAX_ACTIONS <= actions (game w_end) ->
    (length stack + 2 <= limit)%nat ->
    actions (game w_reset) < Gamepi.MAX_ACTIONS ->
    (4 <= length (sensor_tape (env w_reset)))%nat ->
    button_tape (env w_reset) = true :: true :: bt ->
    clock_tape (env w_reset) = t :: ct ->
    clock_reading s = true ->
    clock_reading t = true ->
    (3 <= t - s)%Q ->
    (exists w', Gamepi.idle_enter w = Done tt w' /\ game w' = game w) /\
    (exists w',
       Gamepi._start_new_round w = Done tt w' /\
       score (game w') = score (game w) /\
       soc (game w') = 5 /\
       soc (game w') = Gamepi.SOC_LEVELS / 2 /\
       actions (game w') = 0 /\
       last_sensor (game w') = None /\
       last_action_ts (game w') = repeat 0%Q Gamepi.NUM_SENSORS) /\
    (forall p w',
       Gamepi.step Idle w = Done p w' ->
       score (game w') = score (game w)) /\
    (exists w',
       step_limited limit (Playing since) stack w_end
       = Within (Done (Idle, in_idle :: stack) w') /\
       game w' = game w_end) /\
    (forall p p' w',
       Gamepi.step p w = Done p' w' ->
       score (game w) <= score (game w') \/
       exists s' bt' t' ct',
         p = Playing (Some s') /\ p' = Idle /\
         Gamepi.play_iteration (Some s') w = Done Return w' /\
         button_tape (env w) = true :: true :: bt' /\
         clock_tape (env w) = t' :: ct' /\
         (3 <= t' - s')%Q /\
         score (game w') = 0) /\
    (exists w',
       step_limited limit (Playing (Some s)) stack w_reset
       = Within (Done (Idle, in_idle :: in_full_reset :: stack) w') /\
       game w' = game (zero_score w_reset)).
Proof.
  intros w r0 r1 r2 r3 rt w_end since limit stack w_reset s bt t ct
         Hrt Hend Hroom Hlt Hlen Hb Hc _ _ Hge.
  split; [|split; [|split; [|split; [|split]]]].
  - rewrite idle_enter_run. eexists. split; reflexivity.
  - destruct w as [g [st b c rnd] o]. simpl in Hrt. subst rnd.
    rewrite start_new_round_run. eexists. split; [reflexivity|].
    repeat split.
  - intros p w' H. eapply step_idle_score. exact H.
  - eexists. split.
    + apply step_limited_round_over; [exact Hend | lia].
    + reflexivity.
  - intros p p' w' Hstep. destruct p as [|since0].
    + left. rewrite (step_idle_score _ _ _ Hstep). lia.
    + apply step_playing_inv in Hstep.
      destruct Hstep as [(_ & flow & Hp & ->) | (_ & _ & ->)].
      * destruct flow as [since'|].
        -- left. apply play_iteration_effect in Hp.
           destruct Hp as [[G _] | (_ & _ & S & _)]; [rewrite G|]; lia.
        -- right.
           destruct (play_iteration_return _ _ _ Hp)
             as (s' & bt' & t' & ct' & -> & Hb' & Hc' & Hge' & Hz).
           exists s', bt', t', ct'. repeat split; assumption.
      * left. simpl. lia.
  - destruct (at_combo_check_returns w_reset Hlen)
      as (active & wc & Hat & Gc & Bc & Cc & Hpi).
    rewrite Hb in Bc. rewrite Hc in Cc.
    pose proof (reset_combo_expired _ _ _ _ _ Bc Cc Hge) as Hr.
    eexists. split.
    + apply step_limited_reset; [exact Hlt | | exact Hroom].
      rewrite Hpi. rewrite (bind_eq _ _ _ _ _ Hr). reflexivity.
    + cbn [log_more zero_score drop_clock drop_buttons game].
      rewrite Gc. reflexivity.
Qed.

Lemma C9_score_survives_phases_witness :
  (exists w', Gamepi.idle_enter idle_world = Done tt w' /\
              game w' = game idle_world) /\
  (exists w',
     Gamepi._start_new_round idle_world = Done tt w' /\
     score (game w') = score (game idle_world) /\
     soc (game w') = 5 /\
     soc (game w') = Gamepi.SOC_LEVELS / 2 /\
     actions (game w') = 0 /\
     last_sensor (game w') = None /\
     last_action_ts (game w') = repeat 0%Q Gamepi.NUM_SENSORS) /\
  (forall p w',
     Gamepi.step Idle idle_world = Done p w' ->
     score (game w') = score (game idle_world)) /\
  (exists w',
     step_limited 1000 (Playing None)
       [in_play_round; in_start_new_round; in_idle] idle_world
     = Within (Done (Idle, [in_idle; in_play_round; in_start_new_round;
                            in_idle]) w') /\
     game w' = game idle_world) /\
  (forall p p' w',
     Gamepi.step p idle_world = Done p' w' ->
     score (game idle_world) <= score (game w') \/
     exists s' bt' t' ct',
       p = Playing (Some s') /\ p' = Idle /\
       Gamepi.play_iteration (Some s') idle_world = Done Return w' /\
       button_tape (env idle_world) = true :: true :: bt' /\
       clock_tape (env idle_world) = t' :: ct' /\
       (3 <= t' - s')%Q /\
       score (game w') = 0) /\
  (exists w',
     step_limited 1000 (Playing (Some 100%Q))
       [in_play_round; in_start_new_round; in_idle] combo_world_2
     = Within (Done (Idle, [in_idle; in_full_reset; in_play_round;
                            in_start_new_round; in_idle]) w') /\
     game w' = game (zero_score combo_world_2)).
Proof.
  apply (C9_score_survives_phases idle_world false true true false [true]
           idle_world None 1000%nat
           [in_play_round; in_start_new_round; in_idle]
           combo_world_2 100%Q [] 103%Q []).
  - reflexivity.
  - vm_compute. discriminate.
  - simpl. lia.
  - vm_compute. reflexivity.
  - vm_compute. lia.
  - vm_compute. reflexivity.
  - vm_compute. reflexivity.
  - vm_compute. reflexivity.
  - vm_compute. reflexivity.
  - vm_compute. discriminate.
Defined.

(** * The two files, as they stand *)

(** C10.  Over the hardware functions taken as an interface, the [Game]
    class of [moonshot.py] and the one of [gamepi.py] make the same
    transitions: whatever state the engine of [moonshot.py] reaches from
    power-up, the engine of [gamepi.py] reaches by the same commands.  As
    the files stand they part at once: the layer of [moonshot.py] carries
    the commands out, the layer of [gamepi.py] raises NameError on the
    fifth command of the first [idle], so that [gamepi.py] starts no
    round and none of its transitions takes place. *)
Theorem C10_gamepi_stops_where_moonshot_runs :
  forall n e p w,
    moonshot_power_up n e = Done p w ->
    power_up n e = Done p w /\
    (exists calls, MoonshotIO.drive_all (out w) [] = Fine tt calls) /\
    GamepiIO.drive_all (out w) []
    = Failed NameError
        [led off 1; led off 2; led off 3; led off 4; pin charge false].
Proof.
  intros n e p w H. rewrite moonshot_power_up_eq in H.
  split; [exact H|].
  apply power_up_log in H. destruct H as (l & -> & Hl).
  split.
  - destruct (moonshot_drive_all_wired _
                (proj2 (Forall_app _ _ _) (conj (wired_idle_commands 0) Hl))
                [] (Forall_nil _)) as (cs & E & _).
    exists cs. exact E.
  - apply gamepi_drive_all_failed. reflexivity.
Qed.

Lemma C10_gamepi_stops_where_moonshot_runs_witness :
  let w := after (moonshot_power_up 12 (env whole_round_world))
             whole_round_world in
  power_up 12 (env whole_round_world) = Done Idle w /\
  (exists calls, MoonshotIO.drive_all (out w) [] = Fine tt calls) /\
  GamepiIO.drive_all (out w) []
  = Failed NameError
      [led off 1; led off 2; led off 3; led off 4; pin charge false].
Proof.
  apply (C10_gamepi_stops_where_moonshot_runs 12 (env whole_round_world) Idle).
  vm_compute. reflexivity.
Defined.
